(** * simpletor: the LSP multiplexer and session gateway

    A shallow embedding of the Go sources of the server package
    (file helpers, [LSPManager], [MultiLSPManager], the WebSocket
    session handler) together with the properties its specification
    states about them, and with further properties of the code: of the
    file helpers, of the framing, of the reader and the requests of a
    manager, of the registry, and of the handling of the client's
    messages.

    Conventions.
    - A Go [string] is a sequence of bytes: it is a [string] here, whose
      characters ([ascii]) are the 8-bit bytes.
    - A Go [int] is a 64-bit two's-complement integer: it is a [Z], and
      the one arithmetic operation the sources perform on a stored
      counter ([messageID++]) wraps explicitly ([wrap64]).
    - A run-time panic (slice bounds, negative [make] length) is an
      explicit outcome, [Panic].
    - A Go [(T, error)] result is a pair of the value and an optional
      error, as the code returns it. *)

From Stdlib Require Import ZArith Lia Bool Ascii.
From stdpp Require Import gmap strings list fin_maps pretty sorting.

Local Open Scope string_scope.
Local Open Scope Z_scope.

(** ** Go primitives *)

Module Go.

(** 64-bit [int]. *)
Definition min_int : Z := - 2 ^ 63.
Definition max_int : Z := 2 ^ 63 - 1.

(** Two's-complement wrap-around of a mathematical integer to [int]. *)
Definition wrap64 (z : Z) : Z := (z + 2 ^ 63) mod 2 ^ 64 - 2 ^ 63.

Definition CR : ascii := ascii_of_N 13.
Definition LF : ascii := ascii_of_N 10.
Definition CRLF : string := String CR (String LF EmptyString).

(** [len(s)] *)
Definition len (s : string) : Z := Z.of_nat (String.length s).

(** The first [n] bytes of [s], and [s] without its first [n] bytes. *)
Fixpoint str_take (n : nat) (s : string) : string :=
  match n, s with
  | O, _ => EmptyString
  | S _, EmptyString => EmptyString
  | S n', String c s' => String c (str_take n' s')
  end.

Fixpoint str_drop (n : nat) (s : string) : string :=
  match n, s with
  | O, _ => s
  | S _, EmptyString => EmptyString
  | S n', String _ s' => str_drop n' s'
  end.

(** Outcome of an evaluation that may panic. *)
Inductive outcome (A : Type) : Type :=
| Ret (a : A)
| Panic (msg : string).
Arguments Ret {A} a.
Arguments Panic {A} msg.

#[global] Instance outcome_ret : MRet outcome := fun _ a => Ret a.
#[global] Instance outcome_bind : MBind outcome := fun _ _ k m =>
  match m with
  | Ret a => k a
  | Panic msg => Panic msg
  end.

(** The slice expression [s[lo:hi]]: it panics unless
    [0 <= lo <= hi <= len(s)]. *)
Definition slice (s : string) (lo hi : Z) : outcome string :=
  if (0 <=? lo) && (lo <=? hi) && (hi <=? len s)
  then Ret (str_take (Z.to_nat (hi - lo)) (str_drop (Z.to_nat lo) s))
  else Panic "slice bounds out of range".

(** [s[:hi]] and [s[lo:]] *)
Definition slice_to (s : string) (hi : Z) : outcome string := slice s 0 hi.
Definition slice_from (s : string) (lo : Z) : outcome string := slice s lo (len s).

(** [strings.HasPrefix], [strings.HasSuffix], [strings.TrimPrefix] *)
Definition HasPrefix (s prefix : string) : bool :=
  (String.length prefix <=? String.length s)%nat &&
  String.eqb (str_take (String.length prefix) s) prefix.

Definition HasSuffix (s suffix : string) : bool :=
  (String.length suffix <=? String.length s)%nat &&
  String.eqb (str_drop (String.length s - String.length suffix) s) suffix.

Definition TrimPrefix (s prefix : string) : string :=
  if HasPrefix s prefix then str_drop (String.length prefix) s else s.

End Go.

(** ** Errors

    The sources build errors with [errors.New] and [fmt.Errorf]; each
    construction site is a constructor, [error_message] renders the text
    the code produces.  [OSError] stands for an error handed over by the
    operating system or a library ([os.ReadFile], [exec.Cmd.Start], a
    write on a pipe). *)

Inductive error : Type :=
| ErrFileDoesNotExist
| ErrInvalidDeltaPositions
| ErrNotRunning
| ErrNoServer (language : string)
| ErrParamsNotMap
| ErrTextDocumentNotFound
| ErrUriNotFound
| ErrCouldNotDetect (filePath : string)
| ErrFailedToStart (language : string) (cause : error)
| OSError (msg : string).

Fixpoint error_message (e : error) : string :=
  match e with
  | ErrFileDoesNotExist => "file does not exist"
  | ErrInvalidDeltaPositions => "invalid delta positions"
  | ErrNotRunning => "LSP server not running"
  | ErrNoServer l => "no LSP server configured for language: " +:+ l
  | ErrParamsNotMap => "params is not a map"
  | ErrTextDocumentNotFound => "textDocument not found in params"
  | ErrUriNotFound => "uri not found in textDocument"
  | ErrCouldNotDetect p => "could not detect language for file: " +:+ p
  | ErrFailedToStart l c =>
      "failed to start " +:+ l +:+ " LSP: " +:+ error_message c
  | OSError msg => msg
  end.

(** The error kinds of the specification's taxonomy that the properties
    below name, and the kind of each error the code builds. *)
Inductive error_kind : Type :=
| InvalidRange | NotRunning | NoEngine | UnknownLanguage | BadParams
| NotFound | OtherError.

Definition kind_of (e : error) : error_kind :=
  match e with
  | ErrFileDoesNotExist => NotFound
  | ErrInvalidDeltaPositions => InvalidRange
  | ErrNotRunning => NotRunning
  | ErrNoServer _ => NoEngine
  | ErrParamsNotMap | ErrTextDocumentNotFound | ErrUriNotFound => BadParams
  | ErrCouldNotDetect _ => UnknownLanguage
  | ErrFailedToStart _ _ | OSError _ => OtherError
  end.

(** ** File helpers and the document mirror *)

Module FileOps.
Import Go.

(** [ApplyDelta]: the guard, then the two slice expressions. *)
Definition ApplyDelta (content : string) (fromPos toPos : Z) (insert : string)
  : outcome (string * option error) :=
  if (fromPos <? 0) || (len content <? toPos) || (toPos <? fromPos)
  then Ret ("", Some ErrInvalidDeltaPositions)
  else
    pre ← slice_to content fromPos;
    post ← slice_from content toPos;
    Ret (pre +:+ insert +:+ post, None).

(** The part of the operating system the helpers see: [filepath.Clean],
    the files (a path with no entry does not exist; an entry is the
    content, or the error that reading it gives) and the error that
    creating the directory of a path and writing the file would meet. *)
Record OS : Type := mkOS {
  Clean : string -> string;
  files : gmap string (string + error);
  write_error : string -> option error
}.

(** [ReadFile] *)
Definition ReadFile (os : OS) (path : string) : string * option error :=
  let cleanPath := Clean os path in
  match files os !! cleanPath with
  | None => ("", Some ErrFileDoesNotExist)
  | Some (inr err) => ("", Some err)
  | Some (inl data) => (data, None)
  end.

(** [WriteFile]: [MkdirAll] of the directory, then [os.WriteFile].  The
    model keeps what the call does to the written path: on success the
    entry of the clean path is the content, and the directories that
    [MkdirAll] creates are not entered in [files]; on failure it hands
    the error over with [files] as they were, where the code may have
    created directories or truncated the file by then.  The properties
    below use the successful write and the read of the written path
    only: none states what a failed write leaves behind, or what other
    paths read as after a write. *)
Definition WriteFile (os : OS) (path content : string) : OS * option error :=
  let cleanPath := Clean os path in
  match write_error os cleanPath with
  | Some err => (os, Some err)
  | None =>
      ({| Clean := Clean os;
          files := <[cleanPath := inl content]> (files os);
          write_error := write_error os |}, None)
  end.

End FileOps.

(** ** JSON values

    [json.RawMessage] is a byte string.  [value] is what
    [encoding/json] and the handlers' map literals put behind an
    [interface{}]: [nil], [bool], [int] (ids and versions written by the
    code), [float64] (a decoded JSON number, kept as its literal),
    [string], [[]interface{}] and [map[string]interface{}]. *)

Definition RawMessage : Type := string.

#[warnings="-register-all"]
Inductive value : Type :=
| VNil
| VBool (b : bool)
| VInt (n : Z)
| VFloat (literal : string)
| VString (s : string)
| VSlice (elems : list value)
| VMap (fields : gmap string value).

(** [v.(map[string]interface{})] followed by [m[key]]: a failed
    assertion leaves the zero map, and indexing a nil map or a missing
    key yields [nil]. *)
Definition as_map (v : value) : option (gmap string value) :=
  match v with VMap m => Some m | _ => None end.

Definition as_string (v : value) : option string :=
  match v with VString s => Some s | _ => None end.

Definition index_map (m : gmap string value) (key : string) : value :=
  default VNil (m !! key).

(** The anonymous struct [readMessages] decodes every frame into; the
    code reads its [ID] and [Method] fields only. *)
Record IncomingMsg : Type := mkIncomingMsg {
  ID : option Z;
  Method : string
}.

(** Payloads of the client's messages (second, multi-server revision of
    the handler). *)
Record Message : Type := mkMessage {
  Type_ : string;
  Payload : RawMessage
}.

Record OpenFilePayload : Type := mkOpenFilePayload { open_Path : string }.

Record ConfigureLSPPayload : Type := mkConfigureLSPPayload {
  cfg_Language : string;
  cfg_ServerPath : string;
  cfg_CompileCommandsDir : string
}.

Record DeltaPayload : Type := mkDeltaPayload {
  FromPos : Z;
  ToPos : Z;
  Insert : string
}.

Record SavePayload : Type := mkSavePayload {
  save_Path : string;
  save_Content : string
}.

Record LSPRequestPayload : Type := mkLSPRequestPayload {
  req_ID : Z;
  req_Method : string;
  req_Params : RawMessage
}.

(** [encoding/json] is a library outside the repository: the model is
    parametric in it.  Each [Unmarshal_*] is [json.Unmarshal] at one
    target type, [None] being a non-nil error; [Marshal] is
    [json.Marshal] on the values the handlers build, on which it does
    not fail. *)
Class JSONCodec : Type := {
  Unmarshal_msg : RawMessage -> option IncomingMsg;
  Unmarshal_any : RawMessage -> option value;
  Unmarshal_OpenFilePayload : RawMessage -> option OpenFilePayload;
  Unmarshal_ConfigureLSPPayload : RawMessage -> option ConfigureLSPPayload;
  Unmarshal_DeltaPayload : RawMessage -> option DeltaPayload;
  Unmarshal_SavePayload : RawMessage -> option SavePayload;
  Unmarshal_LSPRequestPayload : RawMessage -> option LSPRequestPayload;
  Marshal : value -> RawMessage
}.

(** [json.Unmarshal(data, &m)] for [var m map[string]interface{}] with the
    error ignored: an object fills the map, anything else (a syntax
    error, [null], a non-object) leaves it nil, which indexes like the
    empty map. *)
Definition Unmarshal_map `{JSONCodec} (data : RawMessage) : gmap string value :=
  match Unmarshal_any data with
  | Some (VMap m) => m
  | _ => ∅
  end.

(** ** [fmt.Sscanf(line, "Content-Length: %d", &n)]

    The scanner of package [fmt] on this one format: the literal text
    must match byte for byte; the blank of the format must meet a
    white-space rune other than newline (or the end of the input) and
    then swallows all such runes; [%d] skips white space, fails on a
    newline or at the end of the input, and reads an optional sign and
    at least one decimal digit into a 64-bit [int].  What follows the
    number is not looked at.  [None] is a non-nil error (the target is
    then left as it was); [Some n] is [n == 1, err == nil]. *)

Module Fmt.

Definition byte_of (c : Ascii.ascii) : N := Ascii.N_of_ascii c.

Definition is_newline (c : Ascii.ascii) : bool := (byte_of c =? 10)%N.

(** The white-space runes of [fmt] in their UTF-8 encodings:
    U+0009..U+000D, U+0020; U+0085, U+00A0; U+1680, U+2000..U+200A,
    U+2028, U+2029, U+202F, U+205F, U+3000. *)
Definition space1 (a : Ascii.ascii) : bool :=
  let a := byte_of a in
  ((9 <=? a) && (a <=? 13) || (a =? 32))%N.

Definition space2 (a b : Ascii.ascii) : bool :=
  let a := byte_of a in let b := byte_of b in
  ((a =? 194) && ((b =? 133) || (b =? 160)))%N.

Definition space3 (a b c : Ascii.ascii) : bool :=
  let a := byte_of a in let b := byte_of b in let c := byte_of c in
  ((a =? 225) && (b =? 154) && (c =? 128)
   || (a =? 226) && (b =? 128) &&
      ((128 <=? c) && (c <=? 138) || (c =? 168) || (c =? 169) || (c =? 175))
   || (a =? 226) && (b =? 129) && (c =? 159)
   || (a =? 227) && (b =? 128) && (c =? 128))%N.

(** Does the input start with a white-space rune? *)
Definition starts_with_space (s : string) : bool :=
  match s with
  | String a (String b (String c _)) => space1 a || space2 a b || space3 a b c
  | String a (String b EmptyString) => space1 a || space2 a b
  | String a EmptyString => space1 a
  | EmptyString => false
  end.

Definition starts_with_newline (s : string) : bool :=
  match s with
  | String a _ => is_newline a
  | EmptyString => false
  end.

(** Read runes while they are white space other than newline; the
    first rune that is not is put back. *)
Fixpoint skip_spaces (s : string) : string :=
  match s with
  | EmptyString => EmptyString
  | String a r1 =>
      if is_newline a then s
      else if space1 a then skip_spaces r1
      else
        match r1 with
        | EmptyString => s
        | String b r2 =>
            if space2 a b then skip_spaces r2
            else
              match r2 with
              | EmptyString => s
              | String c r3 => if space3 a b c then skip_spaces r3 else s
              end
        end
  end.

(** Literal text of the format: every byte must be the next input
    byte; running out of input is an error too. *)
Fixpoint match_literal (lit s : string) : option string :=
  match lit, s with
  | EmptyString, _ => Some s
  | String _ _, EmptyString => None
  | String x lit', String c s' =>
      if Ascii.eqb x c then match_literal lit' s' else None
  end.

(** A blank in the format that does not follow a newline. *)
Definition advance_space (s : string) : option string :=
  match s with
  | EmptyString => Some EmptyString
  | _ =>
      if starts_with_newline s then None
      else if starts_with_space s then Some (skip_spaces s)
      else None
  end.

(** [SkipSpace] of a scanner for which newlines are not white space. *)
Definition SkipSpace (s : string) : option string :=
  let s' := skip_spaces s in
  if starts_with_newline s' then None else Some s'.

Definition is_digit (c : Ascii.ascii) : bool :=
  ((48 <=? byte_of c) && (byte_of c <=? 57))%N.

Definition digit_value (c : Ascii.ascii) : Z := Z.of_N (byte_of c) - 48.

(** The run of decimal digits the input starts with, as a number
    (accumulated from the left) and as a count. *)
Fixpoint scan_digits (s : string) (acc : Z) (count : nat) : Z * nat :=
  match s with
  | String c s' =>
      if is_digit c then scan_digits s' (10 * acc + digit_value c) (S count)
      else (acc, count)
  | EmptyString => (acc, count)
  end.

(** [scanInt] for the verb [d] at 64 bits. *)
Definition scanInt (s : string) : option Z :=
  s ← SkipSpace s;
  match s with
  | EmptyString => None
  | String c s' =>
      let negative := Ascii.eqb c "-"%char in
      let signed := negative || Ascii.eqb c "+"%char in
      let '(magnitude, count) := scan_digits (if signed then s' else s) 0 O in
      if (count =? 0)%nat then None
      else
        let n := if negative then - magnitude else magnitude in
        if (Go.min_int <=? n) && (n <=? Go.max_int) then Some n else None
  end.

Definition Sscanf_ContentLength (line : string) : option Z :=
  rest ← match_literal "Content-Length:" line;
  rest ← advance_space rest;
  scanInt rest.

End Fmt.

(** ** Channels

    A buffered channel of raw messages: its queue, its capacity and
    whether it has been closed. *)

Record Chan : Type := mkChan {
  buf : list RawMessage;
  cap : nat;
  closed : bool
}.

Definition make_chan (capacity : nat) : Chan :=
  {| buf := []; cap := capacity; closed := false |}.

(** A send can proceed when the queue has room; otherwise [ch <- m]
    waits and a [select] with a [default] case takes the default. *)
Definition has_room (c : Chan) : bool := (length (buf c) <? cap c)%nat.

Definition chan_push (c : Chan) (m : RawMessage) : Chan :=
  {| buf := buf c ++ [m]; cap := cap c; closed := closed c |}.

(** [select { case c <- m: default: }] *)
Definition select_send (c : Chan) (m : RawMessage) : Chan :=
  if has_room c then chan_push c m else c.

(** A receive takes the head of the queue, when there is one. *)
Definition chan_pop (c : Chan) : option (RawMessage * Chan) :=
  match buf c with
  | [] => None
  | m :: rest => Some (m, {| buf := rest; cap := cap c; closed := closed c |})
  end.

(** ** [LSPManager]: one language-server child and its request table *)

Module Engine.
Import Go.

(** The child process behind [exec.Cmd]: [Process] is nil until the
    command has been started; a started process is alive or has
    exited (by itself or killed). *)
Inductive proc : Type := ProcAlive | ProcExited.

Record Cmd : Type := mkCmd {
  Path : string;
  Args : list string;
  Process : option proc
}.

(** The struct, with the two pipes as what they carry: [stdin] is what
    has been written to the child so far, one element per [Write];
    [stdout] is what the child has written and the reader has not read
    yet, up to the end of the stream.  A response channel made by
    [SendRequest] is shared by the table and by the caller that waits
    on it, so channels live in a store, [chans], and the table holds
    references (indices) into it. *)
Record LSPManager : Type := mkLSPManager {
  cmd : option Cmd;
  stdin : list string;
  stdout : string;
  running : bool;
  compileCommands : string;
  messageID : Z;
  responseHandlers : gmap Z nat;
  notificationChan : Chan;
  chans : list Chan
}.

Definition NewLSPManager : LSPManager :=
  {| cmd := None; stdin := []; stdout := ""; running := false;
     compileCommands := ""; messageID := 0;
     responseHandlers := ∅; notificationChan := make_chan 100;
     chans := [] |}.

(** [Process.Kill(); Wait()] *)
Definition kill (c : Cmd) : Cmd :=
  {| Path := Path c; Args := Args c; Process := (fun _ => ProcExited) <$> Process c |}.

(** [shutdown] (lock held) *)
Definition shutdown (lsp : LSPManager) : LSPManager :=
  let cmd' :=
    match cmd lsp with
    | Some c =>
        if running lsp && bool_decide (is_Some (Process c))
        then Some (kill c) else Some c
    | None => None
    end in
  {| cmd := cmd'; stdin := stdin lsp; stdout := stdout lsp;
     running := false; compileCommands := compileCommands lsp;
     messageID := messageID lsp;
     responseHandlers := responseHandlers lsp;
     notificationChan := notificationChan lsp; chans := chans lsp |}.

Definition Shutdown (lsp : LSPManager) : LSPManager := shutdown lsp.

(** What the operating system answers to [Start]: one of the pipe or
    [cmd.Start] calls fails, or the child runs and will write [out] to
    its standard output before closing it. *)
Inductive spawn : Type :=
| SpawnFails (err : error)
| SpawnOk (out : string).

(** [Start] *)
Definition Start (clangdPath compileCommandsDir : string) (os : spawn)
           (lsp : LSPManager) : LSPManager * option error :=
  let lsp := if running lsp then shutdown lsp else lsp in
  let args :=
    if bool_decide (compileCommandsDir ≠ "")
    then ["--compile-commands-dir=" +:+ compileCommandsDir] else [] in
  match os with
  | SpawnFails err =>
      ({| cmd := Some {| Path := clangdPath; Args := args; Process := None |};
          stdin := stdin lsp; stdout := stdout lsp;
          running := running lsp; compileCommands := compileCommands lsp;
          messageID := messageID lsp;
          responseHandlers := responseHandlers lsp;
          notificationChan := notificationChan lsp; chans := chans lsp |},
       Some err)
  | SpawnOk out =>
      ({| cmd := Some {| Path := clangdPath; Args := args;
                         Process := Some ProcAlive |};
          stdin := []; stdout := out;
          running := true; compileCommands := compileCommandsDir;
          messageID := messageID lsp;
          responseHandlers := responseHandlers lsp;
          notificationChan := notificationChan lsp; chans := chans lsp |},
       None)
  end.

(** *** Requests *)

(** Where a call of [SendRequest] stands: past its first critical
    section (id allocated, channel registered) and about to write;
    waiting on its channel; past a failed write and about to remove its
    entry; or returned. *)
Inductive call_state : Type :=
| CallRegistered (id : Z) (ch : nat) (request : value)
| CallAwaiting (id : Z) (ch : nat)
| CallWriteFailed (id : Z) (ch : nat) (err : error)
| CallReturned (response : option RawMessage) (err : option error).

Definition request_frame (id : Z) (method : string) (params : value) : value :=
  VMap (<["jsonrpc" := VString "2.0"]>
       (<["id" := VInt id]>
       (<["method" := VString method]>
       (<["params" := params]> ∅)))).

Definition notification_frame (method : string) (params : value) : value :=
  VMap (<["jsonrpc" := VString "2.0"]>
       (<["method" := VString method]>
       (<["params" := params]> ∅))).

Definition set_table (lsp : LSPManager) (id' : Z) (table : gmap Z nat)
           (store : list Chan) : LSPManager :=
  {| cmd := cmd lsp; stdin := stdin lsp; stdout := stdout lsp;
     running := running lsp; compileCommands := compileCommands lsp;
     messageID := id'; responseHandlers := table;
     notificationChan := notificationChan lsp; chans := store |}.

(** [SendRequest], first critical section: refuse when not running;
    else [messageID++] (wrapping as a 64-bit [int] does), make a
    one-slot channel and register it under the new id. *)
Definition SendRequest_enter (method : string) (params : value)
           (lsp : LSPManager) : LSPManager * call_state :=
  if negb (running lsp)
  then (lsp, CallReturned None (Some ErrNotRunning))
  else
    let id := wrap64 (messageID lsp + 1) in
    let ch := length (chans lsp) in
    (set_table lsp id (<[id := ch]> (responseHandlers lsp))
               (chans lsp ++ [make_chan 1]),
     CallRegistered id ch (request_frame id method params)).

Definition set_stdin (lsp : LSPManager) (written : list string) : LSPManager :=
  {| cmd := cmd lsp; stdin := written; stdout := stdout lsp;
     running := running lsp; compileCommands := compileCommands lsp;
     messageID := messageID lsp;
     responseHandlers := responseHandlers lsp;
     notificationChan := notificationChan lsp; chans := chans lsp |}.

(** A write on the child's standard input succeeds while the child is
    alive and fails once it has exited. *)
Definition child_alive (lsp : LSPManager) : bool :=
  match cmd lsp with
  | Some {| Process := Some ProcAlive |} => true
  | _ => false
  end.

(** [fmt.Sprintf("Content-Length: %d\r\n\r\n%s", len(data), data)] *)
Definition frame (data : RawMessage) : string :=
  "Content-Length: " +:+ pretty (String.length data) +:+ CRLF +:+ CRLF +:+ data.

(** [writeMessage] *)
Definition writeMessage `{JSONCodec} (message : value) (lsp : LSPManager)
  : LSPManager * option error :=
  let data := Marshal message in
  let content := frame data in
  if negb (running lsp) then (lsp, Some ErrNotRunning)
  else if child_alive lsp then (set_stdin lsp (stdin lsp ++ [content]), None)
  else (lsp, Some (OSError "write: broken pipe")).

(** [SendRequest], the call of [writeMessage]. *)
Definition SendRequest_write `{JSONCodec} (c : call_state) (lsp : LSPManager)
  : LSPManager * call_state :=
  match c with
  | CallRegistered id ch request =>
      match writeMessage request lsp with
      | (lsp', None) => (lsp', CallAwaiting id ch)
      | (lsp', Some err) => (lsp', CallWriteFailed id ch err)
      end
  | _ => (lsp, c)
  end.

(** [SendRequest], after a failed write: the critical section that
    removes the entry, and the return of the error. *)
Definition SendRequest_cleanup (c : call_state) (lsp : LSPManager)
  : LSPManager * call_state :=
  match c with
  | CallWriteFailed id ch err =>
      (set_table lsp (messageID lsp) (delete id (responseHandlers lsp))
                 (chans lsp),
       CallReturned None (Some err))
  | _ => (lsp, c)
  end.

(** [SendRequest], [response := <-responseChan]: enabled when the
    channel holds a message. *)
Definition SendRequest_receive (c : call_state) (lsp : LSPManager)
  : option (LSPManager * call_state) :=
  match c with
  | CallAwaiting id ch =>
      chan ← chans lsp !! ch;
      '(m, chan') ← chan_pop chan;
      Some (set_table lsp (messageID lsp) (responseHandlers lsp)
                      (<[ch := chan']> (chans lsp)),
            CallReturned (Some m) None)
  | _ => None
  end.

(** [SendNotification] *)
Definition SendNotification `{JSONCodec} (method : string) (params : value)
           (lsp : LSPManager) : LSPManager * option error :=
  writeMessage (notification_frame method params) lsp.

(** *** The reader *)

(** The header loop of [readMessages].  [bufio.Reader.ReadString] reads
    bytes up to and including the next newline and fails when the
    stream ends first: [line] is what it has read of the current line.
    A line that is exactly CR LF ends the header; any other line is
    offered to [Sscanf], which overwrites [contentLength] when it
    succeeds and leaves it alone when it does not. *)
Inductive header_result : Type :=
| HeaderStop
| HeaderDone (contentLength : Z) (rest : string).

Fixpoint read_header (stream line : string) (contentLength : Z) : header_result :=
  match stream with
  | EmptyString => HeaderStop
  | String c rest =>
      let line := line +:+ String c EmptyString in
      if Fmt.is_newline c then
        if String.eqb line CRLF then HeaderDone contentLength rest
        else read_header rest EmptyString
               (default contentLength (Fmt.Sscanf_ContentLength line))
      else read_header rest line contentLength
  end.

(** [io.ReadFull] into a buffer of [n] bytes. *)
Definition ReadFull (n : nat) (stream : string) : option (string * string) :=
  if (n <=? String.length stream)%nat
  then Some (str_take n stream, str_drop n stream) else None.

(** One frame: [contentLength] starts at zero for every frame;
    [make([]byte, contentLength)] panics on a negative length.  The
    allocation of a non-negative length is taken to succeed here, which
    is the case whenever the body is in the stream;
    [Traffic.read_frame_within] is the reader with the limit of the
    runtime, and the two agree up to that limit. *)
Inductive frame_result : Type :=
| FrameStop
| FramePanic (rest : string)
| FrameOk (content : RawMessage) (rest : string).

Definition read_frame (stream : string) : frame_result :=
  match read_header stream EmptyString 0 with
  | HeaderStop => FrameStop
  | HeaderDone contentLength rest =>
      if contentLength <? 0 then FramePanic rest
      else
        match ReadFull (Z.to_nat contentLength) rest with
        | None => FrameStop
        | Some (content, rest') => FrameOk content rest'
        end
  end.

Definition set_stdout (lsp : LSPManager) (remaining : string) : LSPManager :=
  {| cmd := cmd lsp; stdin := stdin lsp; stdout := remaining;
     running := running lsp; compileCommands := compileCommands lsp;
     messageID := messageID lsp;
     responseHandlers := responseHandlers lsp;
     notificationChan := notificationChan lsp; chans := chans lsp |}.

Definition set_notificationChan (lsp : LSPManager) (c : Chan) : LSPManager :=
  {| cmd := cmd lsp; stdin := stdin lsp; stdout := stdout lsp;
     running := running lsp; compileCommands := compileCommands lsp;
     messageID := messageID lsp;
     responseHandlers := responseHandlers lsp;
     notificationChan := c; chans := chans lsp |}.

(** "Handle response or notification".  [None]: the send [ch <- content]
    cannot proceed (full queue, or no channel behind the reference) and
    the reader waits in it. *)
Definition dispatch (content : RawMessage) (msg : IncomingMsg)
           (lsp : LSPManager) : option LSPManager :=
  match ID msg with
  | Some id =>
      match responseHandlers lsp !! id with
      | Some ch =>
          chan ← chans lsp !! ch;
          if has_room chan
          then Some (set_table lsp (messageID lsp)
                       (delete id (responseHandlers lsp))
                       (<[ch := chan_push chan content]> (chans lsp)))
          else None
      | None => Some lsp
      end
  | None =>
      if bool_decide (Method msg ≠ "")
      then Some (set_notificationChan lsp
                   (select_send (notificationChan lsp) content))
      else Some lsp
  end.

Inductive reader_status : Type :=
| ReaderRunning
| ReaderReturned
| ReaderPanicked
| ReaderBlocked.

(** One turn of the loop [for lsp.running { ... }]. *)
Definition readMessages_iteration `{JSONCodec} (lsp : LSPManager)
  : LSPManager * reader_status :=
  if negb (running lsp) then (lsp, ReaderReturned)
  else
    match read_frame (stdout lsp) with
    | FrameStop => (set_stdout lsp EmptyString, ReaderReturned)
    | FramePanic rest => (set_stdout lsp rest, ReaderPanicked)
    | FrameOk content rest =>
        let lsp := set_stdout lsp rest in
        match Unmarshal_msg content with
        | None => (lsp, ReaderRunning)
        | Some msg =>
            match dispatch content msg lsp with
            | Some lsp' => (lsp', ReaderRunning)
            | None => (lsp, ReaderBlocked)
            end
        end
    end.

(** [readMessages] left alone with the manager: the loop, for at most
    [fuel] turns. *)
Fixpoint readMessages `{JSONCodec} (fuel : nat) (lsp : LSPManager)
  : LSPManager * reader_status :=
  match fuel with
  | O => (lsp, ReaderRunning)
  | S fuel' =>
      match readMessages_iteration lsp with
      | (lsp', ReaderRunning) => readMessages fuel' lsp'
      | stopped => stopped
      end
  end.

(** *** The goroutines around one manager

    The manager after a successful [Start], its reader, and the calls
    of [SendRequest] made so far.  A step is one critical section or
    one turn of the reader. *)
Record System : Type := mkSystem {
  mgr : LSPManager;
  reader : reader_status;
  calls : list call_state
}.

Definition started (out : string) : System :=
  {| mgr := (Start "clangd" "" (SpawnOk out) NewLSPManager).1;
     reader := ReaderRunning; calls := [] |}.

Definition child_exits (lsp : LSPManager) : LSPManager :=
  {| cmd := kill <$> cmd lsp; stdin := stdin lsp; stdout := stdout lsp;
     running := running lsp; compileCommands := compileCommands lsp;
     messageID := messageID lsp;
     responseHandlers := responseHandlers lsp;
     notificationChan := notificationChan lsp; chans := chans lsp |}.

Inductive label : Type :=
| LCall (c : call_state)
| LWrite (i : nat)
| LCleanup (i : nat)
| LReceive (i : nat)
| LNotify
| LReader
| LShutdown
| LChildExit
| LForward.

Inductive step `{JSONCodec} : System -> label -> System -> Prop :=
| step_call s method params :
    let r := SendRequest_enter method params (mgr s) in
    step s (LCall r.2)
         {| mgr := r.1; reader := reader s; calls := calls s ++ [r.2] |}
| step_write s i id ch request :
    calls s !! i = Some (CallRegistered id ch request) ->
    let r := SendRequest_write (CallRegistered id ch request) (mgr s) in
    step s (LWrite i)
         {| mgr := r.1; reader := reader s; calls := <[i := r.2]> (calls s) |}
| step_cleanup s i id ch err :
    calls s !! i = Some (CallWriteFailed id ch err) ->
    let r := SendRequest_cleanup (CallWriteFailed id ch err) (mgr s) in
    step s (LCleanup i)
         {| mgr := r.1; reader := reader s; calls := <[i := r.2]> (calls s) |}
| step_receive s i c lsp' c' :
    calls s !! i = Some c ->
    SendRequest_receive c (mgr s) = Some (lsp', c') ->
    step s (LReceive i)
         {| mgr := lsp'; reader := reader s; calls := <[i := c']> (calls s) |}
| step_notify s method params :
    step s LNotify
         {| mgr := (SendNotification method params (mgr s)).1;
            reader := reader s; calls := calls s |}
| step_reader s :
    reader s = ReaderRunning ->
    let r := readMessages_iteration (mgr s) in
    step s LReader {| mgr := r.1; reader := r.2; calls := calls s |}
| step_shutdown s :
    step s LShutdown
         {| mgr := Shutdown (mgr s); reader := reader s; calls := calls s |}
| step_child_exit s :
    step s LChildExit
         {| mgr := child_exits (mgr s); reader := reader s; calls := calls s |}
| step_forward s m c' :
    chan_pop (notificationChan (mgr s)) = Some (m, c') ->
    step s LForward
         {| mgr := set_notificationChan (mgr s) c';
            reader := reader s; calls := calls s |}.

(** A run: the labels of its steps, first step first. *)
Inductive run `{JSONCodec} : System -> list label -> System -> Prop :=
| run_nil s : run s [] s
| run_cons s l s' ls s'' : step s l s' -> run s' ls s'' -> run s (l :: ls) s''.

(** The ids a run allocates, in order. *)
Fixpoint allocated (ls : list label) : list Z :=
  match ls with
  | [] => []
  | LCall (CallRegistered id _ _) :: ls' => id :: allocated ls'
  | _ :: ls' => allocated ls'
  end.

End Engine.

(** ** [MultiLSPManager]: one manager per language *)

Module Registry.
Import Go.

(** The registry with the objects it shares with its goroutines:
    [managers] is the store of the [LSPManager]s it has started
    ([lspServers] holds references into it), [forwarders] the
    [forwardNotifications] goroutines it has launched, each with its
    language and its manager. *)
Record MultiLSPManager : Type := mkMultiLSPManager {
  lspServers : gmap string nat;
  notificationChan : Chan;
  managers : list Engine.LSPManager;
  forwarders : list (string * nat)
}.

Definition NewMultiLSPManager : MultiLSPManager :=
  {| lspServers := ∅; notificationChan := make_chan 100;
     managers := []; forwarders := [] |}.

Definition set_managers (m : MultiLSPManager) (ms : list Engine.LSPManager)
  : MultiLSPManager :=
  {| lspServers := lspServers m; notificationChan := notificationChan m;
     managers := ms; forwarders := forwarders m |}.

(** [StartLSP] *)
Definition StartLSP (language serverPath compileCommandsDir : string)
           (os : Engine.spawn) (m : MultiLSPManager)
  : MultiLSPManager * option error :=
  let ms :=
    match lspServers m !! language with
    | Some r => alter Engine.Shutdown r (managers m)
    | None => managers m
    end in
  match Engine.Start serverPath compileCommandsDir os Engine.NewLSPManager with
  | (_, Some err) => (set_managers m ms, Some (ErrFailedToStart language err))
  | (lsp, None) =>
      let r := length ms in
      ({| lspServers := <[language := r]> (lspServers m);
          notificationChan := notificationChan m;
          managers := ms ++ [lsp];
          forwarders := forwarders m ++ [(language, r)] |},
       None)
  end.

(** One turn of [forwardNotifications] for the manager behind [r]: take
    a notification from its channel and offer it to the merged one. *)
Definition forwardNotifications_iteration (r : nat) (m : MultiLSPManager)
  : option MultiLSPManager :=
  lsp ← managers m !! r;
  '(notification, c') ← chan_pop (Engine.notificationChan lsp);
  Some {| lspServers := lspServers m;
          notificationChan := select_send (notificationChan m) notification;
          managers := <[r := Engine.set_notificationChan lsp c']> (managers m);
          forwarders := forwarders m |}.

(** [SendRequest], up to the point where the caller waits for the
    response: the call is then [CallAwaiting], or has returned an
    error.  (A reference held by [lspServers] always has its manager in
    the store; the branch for one that has not is there for totality.) *)
Definition SendRequest_begin `{JSONCodec} (language method : string)
           (params : value) (m : MultiLSPManager)
  : MultiLSPManager * option nat * Engine.call_state :=
  match lspServers m !! language with
  | None => (m, None, Engine.CallReturned None (Some (ErrNoServer language)))
  | Some r =>
      match managers m !! r with
      | None => (m, None, Engine.CallReturned None (Some (ErrNoServer language)))
      | Some lsp =>
          let '(lsp1, c1) := Engine.SendRequest_enter method params lsp in
          let '(lsp2, c2) := Engine.SendRequest_write c1 lsp1 in
          let '(lsp3, c3) := Engine.SendRequest_cleanup c2 lsp2 in
          (set_managers m (<[r := lsp3]> (managers m)), Some r, c3)
      end
  end.

(** The rest of [SendRequest]: the receive, enabled once the reader of
    that manager has delivered. *)
Definition SendRequest_end (r : nat) (c : Engine.call_state) (m : MultiLSPManager)
  : option (MultiLSPManager * RawMessage) :=
  lsp ← managers m !! r;
  '(lsp', c') ← Engine.SendRequest_receive c lsp;
  match c' with
  | Engine.CallReturned (Some response) None =>
      Some (set_managers m (<[r := lsp']> (managers m)), response)
  | _ => None
  end.

(** [SendNotification] *)
Definition SendNotification `{JSONCodec} (language method : string)
           (params : value) (m : MultiLSPManager)
  : MultiLSPManager * option error :=
  match lspServers m !! language with
  | None => (m, Some (ErrNoServer language))
  | Some r =>
      match managers m !! r with
      | None => (m, Some (ErrNoServer language))
      | Some lsp =>
          let '(lsp', err) := Engine.SendNotification method params lsp in
          (set_managers m (<[r := lsp']> (managers m)), err)
      end
  end.

(** [detectLanguageForLSP] *)
Definition detectLanguageForLSP (path : string) : string :=
  if HasSuffix path ".py" then "python"
  else if HasSuffix path ".cpp" || HasSuffix path ".cc" ||
          HasSuffix path ".cxx" || HasSuffix path ".c" ||
          HasSuffix path ".h" || HasSuffix path ".hpp"
  then "cpp"
  else "".

(** [extractLanguageFromParams] *)
Definition extractLanguageFromParams (params : value) : string * option error :=
  match as_map params with
  | None => ("", Some ErrParamsNotMap)
  | Some paramsMap =>
      match as_map (index_map paramsMap "textDocument") with
      | None => ("", Some ErrTextDocumentNotFound)
      | Some textDoc =>
          match as_string (index_map textDoc "uri") with
          | None => ("", Some ErrUriNotFound)
          | Some uri =>
              let filePath := TrimPrefix uri "file://" in
              let language := detectLanguageForLSP filePath in
              if String.eqb language ""
              then ("", Some (ErrCouldNotDetect filePath))
              else (language, None)
          end
      end
  end.

(** [RouteRequest], up to the wait, and [RouteNotification] *)
Definition RouteRequest_begin `{JSONCodec} (method : string) (params : value)
           (m : MultiLSPManager)
  : MultiLSPManager * option nat * Engine.call_state :=
  match extractLanguageFromParams params with
  | (_, Some err) => (m, None, Engine.CallReturned None (Some err))
  | (language, None) => SendRequest_begin language method params m
  end.

Definition RouteNotification `{JSONCodec} (method : string) (params : value)
           (m : MultiLSPManager) : MultiLSPManager * option error :=
  match extractLanguageFromParams params with
  | (_, Some err) => (m, Some err)
  | (language, None) => SendNotification language method params m
  end.

(** [IsRunning] *)
Definition IsRunning (language : string) (m : MultiLSPManager) : bool :=
  match lspServers m !! language with
  | None => false
  | Some r => default false (Engine.running <$> managers m !! r)
  end.

(** [ShutdownAll] *)
Definition ShutdownAll (m : MultiLSPManager) : MultiLSPManager :=
  {| lspServers := ∅; notificationChan := notificationChan m;
     managers :=
       map_fold (fun _ r ms => alter Engine.Shutdown r ms)
                (managers m) (lspServers m);
     forwarders := forwarders m |}.

(** [GetConfiguredLanguages], as the set of its elements (the order of
    a map iteration is not fixed). *)
Definition GetConfiguredLanguages (m : MultiLSPManager) : gset string :=
  dom (lspServers m).

End Registry.

(** ** The WebSocket session (multi-server revision of [HandleWebSocket]) *)

Module Session.
Import Go FileOps Registry.

(** The variables of the handler the messages share. *)
Record Session : Type := mkSession {
  currentFile : string;
  currentContent : string
}.

Definition idle : Session := {| currentFile := ""; currentContent := "" |}.

(** What the handler works on: the registry behind [lspManager], the
    file system, and what the operating system answers when a server
    is started with a path and the directory argument. *)
Record World : Type := mkWorld {
  registry : MultiLSPManager;
  os : OS;
  exec : string -> string -> Engine.spawn
}.

Definition set_registry (w : World) (m : MultiLSPManager) : World :=
  {| registry := m; os := os w; exec := exec w |}.

(** [detectLanguage]: the slice of the last three bytes, then the
    switch. *)
Definition detectLanguage (path : string) : outcome string :=
  ext ← slice_from path (len path - 3);
  mret (if String.eqb ext ".py" then "python"
        else if String.eqb ext ".cpp" || String.eqb ext ".cc" ||
                String.eqb ext ".cxx" then "cpp"
        else if String.eqb ext ".c" then "c"
        else if String.eqb ext ".h" || String.eqb ext ".hpp" then "cpp"
        else "plaintext").

(** The messages written to the socket. *)
Definition error_reply (message : string) : value :=
  VMap (<["type" := VString "error"]>
       (<["payload" := VMap (<["message" := VString message]> ∅)]> ∅)).

Definition file_opened (path content : string) : value :=
  VMap (<["type" := VString "file_opened"]>
       (<["payload" := VMap (<["path" := VString path]>
                            (<["content" := VString content]> ∅))]> ∅)).

Definition lsp_configured (language : string) : value :=
  VMap (<["type" := VString "lsp_configured"]>
       (<["payload" := VMap (<["success" := VBool true]>
                            (<["language" := VString language]> ∅))]> ∅)).

Definition file_saved : value :=
  VMap (<["type" := VString "file_saved"]>
       (<["payload" := VMap (<["success" := VBool true]> ∅)]> ∅)).

Definition lsp_response (id : Z) (result : value) : value :=
  VMap (<["type" := VString "lsp_response"]>
       (<["payload" := VMap (<["id" := VInt id]>
                            (<["jsonrpc" := VString "2.0"]>
                            (<["result" := result]> ∅)))]> ∅)).

Definition lsp_notification (payload : value) : value :=
  VMap (<["type" := VString "lsp_notification"]>
       (<["payload" := payload]> ∅)).

(** The parameters of the routed notifications. *)
Definition didOpen_params (path languageId content : string) : value :=
  VMap (<["textDocument" :=
            VMap (<["uri" := VString ("file://" +:+ path)]>
                 (<["languageId" := VString languageId]>
                 (<["version" := VInt 1]>
                 (<["text" := VString content]> ∅))))]> ∅).

Definition didChange_params (file content : string) : value :=
  VMap (<["textDocument" :=
            VMap (<["uri" := VString ("file://" +:+ file)]>
                 (<["version" := VInt 1]> ∅))]>
       (<["contentChanges" :=
            VSlice [VMap (<["text" := VString content]> ∅)]]> ∅)).

Definition didSave_params (path : string) : value :=
  VMap (<["textDocument" :=
            VMap (<["uri" := VString ("file://" +:+ path)]> ∅)]> ∅).

Definition initParams (rootDir : string) : value :=
  VMap (<["processId" := VNil]>
       (<["rootUri" := VString ("file://" +:+ rootDir)]>
       (<["capabilities" :=
            VMap (<["textDocument" :=
              VMap (<["completion" :=
                      VMap (<["completionItem" :=
                              VMap (<["snippetSupport" := VBool true]> ∅)]> ∅)]>
                   (<["publishDiagnostics" := VMap ∅]> ∅))]> ∅)]> ∅))).

(** The outcome of handling one message.  [Waiting]: the handler is
    inside [SendRequest] on manager [r], in call state [c]; [resume]
    is the rest of the case, run on the response once it has been
    received. *)
Inductive handled : Type :=
| Handled (sess : Session) (w : World) (replies : list value)
| Waiting (sess : Session) (w : World) (replies : list value)
          (r : nat) (c : Engine.call_state)
          (resume : RawMessage -> World -> World * list value)
| Panicked (sess : Session) (w : World) (replies : list value) (msg : string).

(** The reply of the [lsp_request] case once [RouteRequest] has
    returned [result] without an error. *)
Definition lsp_request_reply `{JSONCodec} (payload : LSPRequestPayload)
           (result : RawMessage) : value :=
  let lspResponse := Unmarshal_map result in
  lsp_response (req_ID payload) (index_map lspResponse "result").

Definition handle_open_file `{JSONCodec} (msg : Message) (sess : Session)
           (w : World) : handled :=
  match Unmarshal_OpenFilePayload (Payload msg) with
  | None => Handled sess w [error_reply "Invalid open_file payload"]
  | Some payload =>
      match ReadFile (os w) (open_Path payload) with
      | (_, Some err) =>
          Handled sess w
            [error_reply ("Failed to read file: " +:+ error_message err)]
      | (content, None) =>
          let sess' := {| currentFile := open_Path payload;
                          currentContent := content |} in
          let replies := [file_opened (open_Path payload) content] in
          match detectLanguage (open_Path payload) with
          | Panic m => Panicked sess' w replies m
          | Ret languageId =>
              let '(m', _) :=
                RouteNotification "textDocument/didOpen"
                  (didOpen_params (open_Path payload) languageId content)
                  (registry w) in
              Handled sess' (set_registry w m') replies
          end
      end
  end.

Definition handle_configure_lsp `{JSONCodec} (msg : Message) (sess : Session)
           (w : World) : handled :=
  match Unmarshal_ConfigureLSPPayload (Payload msg) with
  | None => Handled sess w [error_reply "Invalid configure_lsp payload"]
  | Some payload =>
      let language := cfg_Language payload in
      if String.eqb language ""
      then Handled sess w [error_reply "Language is required"]
      else
        let serverPath :=
          if String.eqb (cfg_ServerPath payload) ""
          then if String.eqb language "cpp" then Some "clangd"
               else if String.eqb language "python" then Some "pylsp"
               else None
          else Some (cfg_ServerPath payload) in
        match serverPath with
        | None => Handled sess w [error_reply ("Unknown language: " +:+ language)]
        | Some serverPath =>
            let dir := cfg_CompileCommandsDir payload in
            match StartLSP language serverPath dir (exec w serverPath dir)
                           (registry w) with
            | (m1, Some err) =>
                Handled sess (set_registry w m1)
                  [error_reply ("Failed to start LSP: " +:+ error_message err)]
            | (m1, None) =>
                let rootDir := if String.eqb dir "" then "/" else dir in
                match SendRequest_begin language "initialize"
                        (initParams rootDir) m1 with
                | (m2, Some r, Engine.CallAwaiting id ch) =>
                    Waiting sess (set_registry w m2) [] r (Engine.CallAwaiting id ch)
                      (fun _ w' =>
                         match SendNotification language "initialized" (VMap ∅)
                                 (registry w') with
                         | (m3, Some err) =>
                             (set_registry w' m3,
                              [error_reply ("Failed to initialize LSP: " +:+
                                            error_message err)])
                         | (m3, None) =>
                             (set_registry w' m3, [lsp_configured language])
                         end)
                | (m2, _, Engine.CallReturned _ (Some err)) =>
                    Handled sess (set_registry w m2)
                      [error_reply ("Failed to initialize LSP: " +:+
                                    error_message err)]
                | (m2, _, _) => Handled sess (set_registry w m2) []
                end
            end
        end
  end.

Definition handle_delta `{JSONCodec} (msg : Message) (sess : Session)
           (w : World) : handled :=
  match Unmarshal_DeltaPayload (Payload msg) with
  | None => Handled sess w [error_reply "Invalid delta payload"]
  | Some payload =>
      match ApplyDelta (currentContent sess) (FromPos payload) (ToPos payload)
                       (Insert payload) with
      | Panic m => Panicked sess w [] m
      | Ret (_, Some err) =>
          Handled sess w
            [error_reply ("Failed to apply delta: " +:+ error_message err)]
      | Ret (newContent, None) =>
          let sess' := {| currentFile := currentFile sess;
                          currentContent := newContent |} in
          let '(m', _) :=
            RouteNotification "textDocument/didChange"
              (didChange_params (currentFile sess') (currentContent sess'))
              (registry w) in
          Handled sess' (set_registry w m') []
      end
  end.

Definition handle_save `{JSONCodec} (msg : Message) (sess : Session)
           (w : World) : handled :=
  match Unmarshal_SavePayload (Payload msg) with
  | None => Handled sess w [error_reply "Invalid save payload"]
  | Some payload =>
      match WriteFile (os w) (save_Path payload) (save_Content payload) with
      | (_, Some err) =>
          Handled sess w
            [error_reply ("Failed to save file: " +:+ error_message err)]
      | (os', None) =>
          let '(m', _) :=
            RouteNotification "textDocument/didSave"
              (didSave_params (save_Path payload)) (registry w) in
          Handled sess {| registry := m'; os := os'; exec := exec w |} [file_saved]
      end
  end.

Definition handle_lsp_request `{JSONCodec} (msg : Message) (sess : Session)
           (w : World) : handled :=
  match Unmarshal_LSPRequestPayload (Payload msg) with
  | None => Handled sess w [error_reply "Invalid lsp_request payload"]
  | Some payload =>
      let params :=
        if (0 <? len (req_Params payload))
        then default VNil (Unmarshal_any (req_Params payload))
        else VNil in
      match RouteRequest_begin (req_Method payload) params (registry w) with
      | (m', Some r, Engine.CallAwaiting id ch) =>
          Waiting sess (set_registry w m') [] r (Engine.CallAwaiting id ch)
            (fun result w' => (w', [lsp_request_reply payload result]))
      | (m', _, Engine.CallReturned _ (Some err)) =>
          Handled sess (set_registry w m')
            [error_reply ("LSP request failed: " +:+ error_message err)]
      | (m', _, _) => Handled sess (set_registry w m') []
      end
  end.

(** The switch on [msg.Type]. *)
Definition HandleMessage `{JSONCodec} (msg : Message) (sess : Session)
           (w : World) : handled :=
  if String.eqb (Type_ msg) "open_file" then handle_open_file msg sess w
  else if String.eqb (Type_ msg) "configure_lsp" then handle_configure_lsp msg sess w
  else if String.eqb (Type_ msg) "delta" then handle_delta msg sess w
  else if String.eqb (Type_ msg) "save" then handle_save msg sess w
  else if String.eqb (Type_ msg) "lsp_request" then handle_lsp_request msg sess w
  else Handled sess w [error_reply ("Unknown message type: " +:+ Type_ msg)].

(** A waiting handler goes on when its response can be received. *)
Definition resume_handler (h : handled) (w : World) : option handled :=
  match h with
  | Waiting sess _ replies r c resume =>
      '(m', response) ← SendRequest_end r c (registry w);
      let '(w', more) := resume response (set_registry w m') in
      Some (Handled sess w' (replies ++ more))
  | _ => None
  end.

(** One turn of the goroutine that sends the merged notifications to the
    client; [None] when the channel is empty. *)
Definition notify_client `{JSONCodec} (w : World) : option (World * list value) :=
  '(notification, c') ← chan_pop (notificationChan (registry w));
  let m' := {| lspServers := lspServers (registry w); notificationChan := c';
               managers := managers (registry w);
               forwarders := forwarders (registry w) |} in
  match Unmarshal_any notification with
  | None => Some (set_registry w m', [])
  | Some notifObj => Some (set_registry w m', [lsp_notification notifObj])
  end.

End Session.

(** ** Sample messages

    The messages the examples exchange, as JSON texts (written with an
    apostrophe for the double quote) and as what [encoding/json] makes of
    them, and a codec that knows these messages: it decodes the texts
    below and nothing else, and it encodes like [json.Marshal] the values
    whose strings are plain ASCII (object keys sorted, no white space). *)

Module Sample.
Import Go.

Definition DQ : ascii := ascii_of_N 34.

Fixpoint json (s : string) : string :=
  match s with
  | EmptyString => EmptyString
  | String c s' => String (if Ascii.eqb c "'"%char then DQ else c) (json s')
  end.

Fixpoint escape (s : string) : string :=
  match s with
  | EmptyString => EmptyString
  | String c s' =>
      if Ascii.eqb c DQ || Ascii.eqb c "\"%char
      then String "\"%char (String c (escape s'))
      else String c (escape s')
  end.

Definition quote (s : string) : string :=
  String DQ (escape s) +:+ String DQ EmptyString.

Definition join (sep : string) (parts : list string) : string :=
  match parts with
  | [] => EmptyString
  | p :: ps => foldl (fun acc x => acc +:+ sep +:+ x) p ps
  end.

Definition key_le (a b : string * value) : Prop := String.le a.1 b.1.

#[local] Instance key_le_dec : RelDecision key_le.
Proof. intros a b. unfold key_le. apply _. Defined.

Fixpoint encode (fuel : nat) (v : value) : string :=
  match fuel with
  | O => "null"
  | S fuel' =>
      match v with
      | VNil => "null"
      | VBool b => if b then "true" else "false"
      | VInt n => pretty n
      | VFloat literal => literal
      | VString s => quote s
      | VSlice elems => "[" +:+ join "," (encode fuel' <$> elems) +:+ "]"
      | VMap fields =>
          "{" +:+
          join "," ((fun kv => quote kv.1 +:+ ":" +:+ encode fuel' kv.2)
                      <$> merge_sort key_le (map_to_list fields)) +:+
          "}"
      end
  end.

Fixpoint assoc {A : Type} (table : list (RawMessage * A)) (data : RawMessage)
  : option A :=
  match table with
  | [] => None
  | (text, a) :: table' => if String.eqb text data then Some a else assoc table' data
  end.

(** Parameters of a request about a Python file. *)
Definition hover_params_text : RawMessage :=
  json "{'textDocument':{'uri':'file:///x/y.py'}}".

Definition hover_params : value :=
  VMap (<["textDocument" := VMap (<["uri" := VString "file:///x/y.py"]> ∅)]> ∅).

(** Frames of the child: a response with a result, a response with an
    error, a notification. *)
Definition response_result : RawMessage :=
  json "{'jsonrpc':'2.0','id':1,'result':{'contents':'doc'}}".

Definition response_result_value : value :=
  VMap (<["jsonrpc" := VString "2.0"]>
       (<["id" := VFloat "1"]>
       (<["result" := VMap (<["contents" := VString "doc"]> ∅)]> ∅))).

Definition response_error : RawMessage :=
  json "{'jsonrpc':'2.0','id':1,'error':{'code':-32601,'message':'Method not found'}}".

Definition response_error_value : value :=
  VMap (<["jsonrpc" := VString "2.0"]>
       (<["id" := VFloat "1"]>
       (<["error" := VMap (<["code" := VFloat "-32601"]>
                          (<["message" := VString "Method not found"]> ∅))]> ∅))).

Definition diagnostics : RawMessage :=
  json "{'jsonrpc':'2.0','method':'textDocument/publishDiagnostics','params':{}}".

Definition diagnostics_value : value :=
  VMap (<["jsonrpc" := VString "2.0"]>
       (<["method" := VString "textDocument/publishDiagnostics"]>
       (<["params" := VMap ∅]> ∅))).

(** Payloads of the client. *)
Definition open_a : RawMessage := json "{'path':'a'}".
Definition open_script : RawMessage := json "{'path':'/x/y.py'}".
Definition delta_insert : RawMessage := json "{'fromPos':0,'toPos':0,'insert':'x'}".
Definition delta_bad : RawMessage := json "{'fromPos':5,'toPos':3,'insert':''}".
Definition hover_request : RawMessage :=
  json "{'id':7,'method':'textDocument/hover','params':{'textDocument':{'uri':'file:///x/y.py'}}}".

Definition codec : JSONCodec :=
  {| Unmarshal_msg :=
       assoc [(response_result, {| ID := Some 1; Method := "" |});
              (response_error, {| ID := Some 1; Method := "" |});
              (diagnostics,
               {| ID := None; Method := "textDocument/publishDiagnostics" |})];
     Unmarshal_any :=
       assoc [(hover_params_text, hover_params);
              (response_result, response_result_value);
              (response_error, response_error_value);
              (diagnostics, diagnostics_value)];
     Unmarshal_OpenFilePayload :=
       assoc [(open_a, {| open_Path := "a" |});
              (open_script, {| open_Path := "/x/y.py" |})];
     Unmarshal_ConfigureLSPPayload := assoc [];
     Unmarshal_DeltaPayload :=
       assoc [(delta_insert, {| FromPos := 0; ToPos := 0; Insert := "x" |});
              (delta_bad, {| FromPos := 5; ToPos := 3; Insert := "" |})];
     Unmarshal_SavePayload := assoc [];
     Unmarshal_LSPRequestPayload :=
       assoc [(hover_request,
               {| req_ID := 7; req_Method := "textDocument/hover";
                  req_Params := hover_params_text |})];
     Marshal := encode 16 |}.

(** A registry with one Python manager whose child writes [out], and
    a world around it in which the file [a] exists ([filepath.Clean]
    leaves the paths of the examples as they are). *)
Definition python_registry_with (out : string) : Registry.MultiLSPManager :=
  (Registry.StartLSP "python" "pylsp" "" (Engine.SpawnOk out)
                     Registry.NewMultiLSPManager).1.

Definition world_with (out : string) : Session.World :=
  {| Session.registry := python_registry_with out;
     Session.os := {| FileOps.Clean := fun path => path;
                      FileOps.files := <["a" := inl "hello"]> ∅;
                      FileOps.write_error := fun _ => None |};
     Session.exec := fun _ _ => Engine.SpawnOk "" |}.

(** The child is silent. *)
Definition python_registry : Registry.MultiLSPManager := python_registry_with "".
Definition world : Session.World := world_with "".

(** The child answers the first request with an error. *)
Definition world_error : Session.World :=
  world_with (Engine.frame response_error).

End Sample.

(** ** Vocabulary of the statements *)

Module Vocabulary.
Import Go.

(** A header block is a sequence of lines as [ReadString] cuts them:
    each ends with its only newline; a header line is any line but the
    blank one. *)
Fixpoint no_newline (s : string) : bool :=
  match s with
  | EmptyString => true
  | String c s' => negb (Fmt.is_newline c) && no_newline s'
  end.

Definition is_line (l : string) : Prop :=
  exists body, l = body +:+ String LF EmptyString /\ no_newline body = true.

Definition header_line (l : string) : Prop := is_line l /\ l <> CRLF.

Definition flatten (ls : list string) : string := foldr String.app EmptyString ls.

Import Engine.

(** The request a call of [SendRequest] has in flight: its id and its
    channel, once registered and until it returns. *)
Definition owner (c : call_state) : option (Z * nat) :=
  match c with
  | CallRegistered id ch _ => Some (id, ch)
  | CallAwaiting id ch => Some (id, ch)
  | CallWriteFailed id ch _ => Some (id, ch)
  | CallReturned _ _ => None
  end.

(** What holds of every state the goroutines around a started manager
    can reach: a registered channel is an empty one-slot channel; every
    table entry belongs to a call in flight; calls in flight have
    channels of their own, all in the store; the reader never waits in
    a send. *)
Record wf (s : System) : Prop := mk_wf {
  wf_fresh : forall id ch,
    responseHandlers (mgr s) !! id = Some ch ->
    chans (mgr s) !! ch = Some (make_chan 1);
  wf_owner : forall id ch,
    responseHandlers (mgr s) !! id = Some ch ->
    exists i c, calls s !! i = Some c /\ owner c = Some (id, ch);
  wf_unique : forall i j c c' id id' ch,
    calls s !! i = Some c -> calls s !! j = Some c' ->
    owner c = Some (id, ch) -> owner c' = Some (id', ch) -> i = j;
  wf_bound : forall i c id ch,
    calls s !! i = Some c -> owner c = Some (id, ch) ->
    (ch < length (chans (mgr s)))%nat;
  wf_reader : reader s <> ReaderBlocked
}.

(** The sinks of a manager: its table, its response channels, its
    notification channel. *)
Definition same_sinks (lsp lsp' : LSPManager) : Prop :=
  responseHandlers lsp' = responseHandlers lsp /\
  chans lsp' = chans lsp /\
  notificationChan lsp' = notificationChan lsp.



Import Registry Session.

(** [path] ends with [suffix]. *)
Definition ends_with (path suffix : string) : Prop :=
  exists stem, path = stem +:+ suffix.

(** The language detection policy of the glossary. *)
Definition policy (path language : string) : Prop :=
  (ends_with path ".py" /\ language = "python")
  \/ ((ends_with path ".c" \/ ends_with path ".cc" \/ ends_with path ".cpp" \/
       ends_with path ".cxx" \/ ends_with path ".h" \/ ends_with path ".hpp")
      /\ language = "cpp").

(** [params.textDocument.uri], when it is there and is a string. *)
Definition textDocument_uri (params : value) : option string :=
  match params with
  | VMap fields =>
      match fields !! "textDocument" with
      | Some (VMap textDocument) =>
          match textDocument !! "uri" with
          | Some (VString uri) => Some uri
          | _ => None
          end
      | _ => None
      end
  | _ => None
  end.

(** The manager behind [r] is running; its child has been terminated. *)
Definition engine_running (m : MultiLSPManager) (r : nat) : Prop :=
  exists lsp, managers m !! r = Some lsp /\ running lsp = true.

Definition terminated (m : MultiLSPManager) (r : nat) : Prop :=
  exists lsp, managers m !! r = Some lsp /\ running lsp = false /\
              child_alive lsp = false.

(** [StartLSP] started the manager behind [r] for [language]: it
    launched the forwarder of that pair. *)
Definition started_for (m : MultiLSPManager) (language : string) (r : nat) : Prop :=
  (language, r) ∈ forwarders m.

(** What holds of the registry between its operations. *)
Record reg_inv (m : MultiLSPManager) : Prop := mk_reg_inv {
  inv_registered : forall language r,
    lspServers m !! language = Some r -> started_for m language r;
  inv_bound : forall language r,
    started_for m language r -> (r < length (managers m))%nat;
  inv_one_language : forall language language' r,
    started_for m language r -> started_for m language' r -> language = language';
  inv_running : forall language r,
    started_for m language r -> engine_running m r ->
    lspServers m !! language = Some r;
  inv_dead : forall r lsp,
    managers m !! r = Some lsp -> running lsp = false -> child_alive lsp = false
}.

(** A manager keeps its process and its [running] flag through the
    sections of [SendRequest] and through [SendNotification]. *)
Definition same_process (lsp lsp' : LSPManager) : Prop :=
  running lsp' = running lsp /\ cmd lsp' = cmd lsp.

(** [ms'] is [ms] with some managers shut down. *)
Definition only_shut (ms ms' : list LSPManager) : Prop :=
  length ms' = length ms /\
  forall r lsp', ms' !! r = Some lsp' ->
    exists lsp, ms !! r = Some lsp /\ (lsp' = lsp \/ lsp' = Shutdown lsp).

(** The managers after the first part of [StartLSP]. *)
Definition after_shutdown (language : string) (m : MultiLSPManager)
  : list LSPManager :=
  match lspServers m !! language with
  | Some r => alter Shutdown r (managers m)
  | None => managers m
  end.

(** The parameters the [lsp_request] case routes with. *)
Definition request_params `{JSONCodec} (payload : LSPRequestPayload) : value :=
  if 0 <? len (req_Params payload)
  then default VNil (Unmarshal_any (req_Params payload))
  else VNil.

(** The last byte of a string. *)
Fixpoint last_byte (s : string) : option ascii :=
  match s with
  | EmptyString => None
  | String c EmptyString => Some c
  | String _ s' => last_byte s'
  end.

(** What can become of a call that is in state [c0] when the reader
    puts [content] on its channel: a call that waits receives it; a call
    whose write has failed returns the error of the write; a call that
    has not written yet goes one way or the other. *)
Definition fate (c0 : call_state) (content : RawMessage) (c : call_state) : Prop :=
  match c0 with
  | CallRegistered id ch _ =>
      c = c0 \/ c = CallAwaiting id ch \/ c = CallReturned (Some content) None
      \/ exists err, c = CallWriteFailed id ch err \/ c = CallReturned None (Some err)
  | CallAwaiting _ _ => c = c0 \/ c = CallReturned (Some content) None
  | CallWriteFailed _ _ err => c = c0 \/ c = CallReturned None (Some err)
  | CallReturned _ _ => c = c0
  end.

(** The call [i], in state [c0] at the delivery, goes its way, and the
    body stays on its channel [ch] for as long as the call is in
    flight. *)
Definition answered (s : System) (i : nat) (c0 : call_state) (ch : nat)
           (content : RawMessage) : Prop :=
  exists c, calls s !! i = Some c /\ fate c0 content c /\
    (is_Some (owner c) ->
     chans (mgr s) !! ch = Some {| buf := [content]; cap := 1; closed := false |}).

(** The body [content] is on the channel [ch] of the call [i], which
    has left, or is leaving, with the error of its write: no call is
    there to receive it. *)
Definition stranded (s : System) (i : nat) (id : Z) (ch : nat) (err : error)
           (content : RawMessage) : Prop :=
  (calls s !! i = Some (CallWriteFailed id ch err)
   \/ calls s !! i = Some (CallReturned None (Some err)))
  /\ chans (mgr s) !! ch = Some {| buf := [content]; cap := 1; closed := false |}
  /\ forall j c id', calls s !! j = Some c -> owner c = Some (id', ch) -> j = i.

(** The steps of the goroutines as functions of the state. *)
Definition after_call `{JSONCodec} (method : string) (params : value)
           (s : System) : System :=
  {| mgr := (SendRequest_enter method params (mgr s)).1; reader := reader s;
     calls := calls s ++ [(SendRequest_enter method params (mgr s)).2] |}.

Definition after_write `{JSONCodec} (i : nat) (s : System) : System :=
  match calls s !! i with
  | Some (CallRegistered id ch request) =>
      {| mgr := (SendRequest_write (CallRegistered id ch request) (mgr s)).1;
         reader := reader s;
         calls := <[i := (SendRequest_write (CallRegistered id ch request)
                            (mgr s)).2]> (calls s) |}
  | _ => s
  end.

Definition after_reader `{JSONCodec} (s : System) : System :=
  {| mgr := (readMessages_iteration (mgr s)).1;
     reader := (readMessages_iteration (mgr s)).2; calls := calls s |}.

Definition after_shutdown_call (s : System) : System :=
  {| mgr := Shutdown (mgr s); reader := reader s; calls := calls s |}.

Definition after_child_exit (s : System) : System :=
  {| mgr := child_exits (mgr s); reader := reader s; calls := calls s |}.

Definition after_cleanup (i : nat) (s : System) : System :=
  match calls s !! i with
  | Some (CallWriteFailed id ch err) =>
      {| mgr := (SendRequest_cleanup (CallWriteFailed id ch err) (mgr s)).1;
         reader := reader s;
         calls := <[i := (SendRequest_cleanup (CallWriteFailed id ch err)
                            (mgr s)).2]> (calls s) |}
  | _ => s
  end.

(** One turn of the reader of the manager behind [r]. *)
Definition reader_turn `{JSONCodec} (r : nat) (m : MultiLSPManager)
  : MultiLSPManager :=
  match managers m !! r with
  | Some lsp =>
      set_managers m (<[r := (readMessages_iteration lsp).1]> (managers m))
  | None => m
  end.

End Vocabulary.

(** ** Scenarios of the examples *)

Module Scenario.
Import Go Engine Registry Session Vocabulary Sample.
#[local] Existing Instance Sample.codec.

(** A request written to a child that closes its output at once. *)
Definition sys_pending : System :=
  after_write 0 (after_call "textDocument/hover" hover_params (started "")).

(** A request written to a child that answers it. *)
Definition sys_answered : System :=
  after_write 0 (after_call "textDocument/hover" hover_params
                            (started (frame response_result))).

(** A request whose write fails, because the child has exited, after
    having written a frame with the id of the request. *)
Definition sys_write_failed : System :=
  after_write 0 (after_child_exit
                   (after_call "textDocument/hover" hover_params
                               (started (frame response_result)))).

Definition two_calls : list label :=
  [LCall (CallRegistered 1 0 (request_frame 1 "initialize" VNil));
   LCall (CallRegistered 2 1 (request_frame 2 "textDocument/hover" hover_params))].

Definition hover_payload : LSPRequestPayload :=
  {| req_ID := 7; req_Method := "textDocument/hover";
     req_Params := hover_params_text |}.

End Scenario.

(** ** Streams of frames and sequences of messages *)

Module Traffic.
Import Go Engine Registry FileOps Session Vocabulary.

(** The frames a stream starts with, as the reader cuts them: at most
    [fuel] of them, up to the first that is not complete. *)
Fixpoint frames_of (fuel : nat) (stream : string) : list RawMessage :=
  match fuel with
  | O => []
  | S fuel' =>
      match read_frame stream with
      | FrameOk content rest => content :: frames_of fuel' rest
      | _ => []
      end
  end.

(** A body [writeMessage] can frame so that the reader reads it back:
    its length fits an [int]. *)
Definition fits (data : RawMessage) : Prop :=
  Z.of_nat (String.length data) <= max_int.

(** A frame of the child that is a notification: no id, a method. *)
Definition is_notification `{JSONCodec} (data : RawMessage) : Prop :=
  exists msg, Unmarshal_msg data = Some msg /\ ID msg = None /\ Method msg <> "".

(** Everything written to the child so far is a sequence of frames of
    marshalled messages. *)
Definition framed `{JSONCodec} (lsp : LSPManager) : Prop :=
  exists messages : list value,
    stdin lsp = (fun v => frame (Marshal v)) <$> messages.

(** The channel of a request in flight is empty, or holds one frame,
    which carries the id of the request. *)
Definition answers `{JSONCodec} (id : Z) (chan : Chan) : Prop :=
  chan = make_chan 1 \/
  exists content msg,
    chan = {| buf := [content]; cap := 1; closed := false |} /\
    Unmarshal_msg content = Some msg /\ ID msg = Some id.

Definition matched `{JSONCodec} (s : System) : Prop :=
  forall i c id ch,
    calls s !! i = Some c -> owner c = Some (id, ch) ->
    exists chan, chans (mgr s) !! ch = Some chan /\ answers id chan.

(** [forwardNotifications] for the manager behind [r], left alone with
    the registry: the loop over what the channel of the manager holds,
    for at most [fuel] notifications. *)
Fixpoint forwardNotifications (fuel : nat) (r : nat) (m : MultiLSPManager)
  : MultiLSPManager :=
  match fuel with
  | O => m
  | S fuel' =>
      match forwardNotifications_iteration r m with
      | Some m' => forwardNotifications fuel' r m'
      | None => m
      end
  end.

(** The server a [configure_lsp] payload asks for: the path it names,
    or the default of its language. *)
Definition server_for (payload : ConfigureLSPPayload) (server : string) : Prop :=
  (cfg_ServerPath payload <> "" /\ server = cfg_ServerPath payload)
  \/ (cfg_ServerPath payload = "" /\ cfg_Language payload = "cpp" /\
      server = "clangd")
  \/ (cfg_ServerPath payload = "" /\ cfg_Language payload = "python" /\
      server = "pylsp").

(** The loop of [HandleWebSocket] over the messages read from the
    socket, with the replies written so far.  It is followed up to the
    first message whose handler waits for a language server, or
    panics. *)
Fixpoint HandleWebSocket_loop `{JSONCodec} (msgs : list Message) (sess : Session)
         (w : World) (sent : list value) : handled :=
  match msgs with
  | [] => Handled sess w sent
  | msg :: msgs' =>
      match HandleMessage msg sess w with
      | Handled sess' w' replies =>
          HandleWebSocket_loop msgs' sess' w' (sent ++ replies)
      | Waiting sess' w' replies r c resume =>
          Waiting sess' w' (sent ++ replies) r c resume
      | Panicked sess' w' replies m => Panicked sess' w' (sent ++ replies) m
      end
  end.

(** What a delta makes of a text: the splice when its range is valid
    for the text, the text otherwise. *)
Definition in_range (content : string) (d : DeltaPayload) : bool :=
  (0 <=? FromPos d) && (FromPos d <=? ToPos d) && (ToPos d <=? len content).

Definition splice (content : string) (d : DeltaPayload) : string :=
  if in_range content d
  then str_take (Z.to_nat (FromPos d)) content +:+ Insert d +:+
       str_drop (Z.to_nat (ToPos d)) content
  else content.

(** The replies to a sequence of deltas: one error message for each
    delta whose range is not valid when its turn comes. *)
Fixpoint delta_replies (content : string) (ds : list DeltaPayload) : list value :=
  match ds with
  | [] => []
  | d :: ds' =>
      (if in_range content d then []
       else [error_reply "Failed to apply delta: invalid delta positions"])
      ++ delta_replies (splice content d) ds'
  end.

(** [msg] is a delta message with payload [d]. *)
Definition is_delta `{JSONCodec} (msg : Message) (d : DeltaPayload) : Prop :=
  Type_ msg = "delta" /\ Unmarshal_DeltaPayload (Payload msg) = Some d.

(** The message types of the switch. *)
Definition message_types : list string :=
  ["open_file"; "configure_lsp"; "delta"; "save"; "lsp_request"].

(** The frame reader on a machine whose runtime allocates up to [limit]
    bytes: [make([]byte, contentLength)] fails for a negative length and
    for a length beyond the limit (the run-time panic `len out of
    range`, or the fatal out-of-memory error), before anything is read
    of the body.  [Engine.read_frame] is this reader where the limit is
    not met. *)
Definition read_frame_within (limit : Z) (stream : string) : frame_result :=
  match read_header stream EmptyString 0 with
  | HeaderStop => FrameStop
  | HeaderDone contentLength rest =>
      if (contentLength <? 0) || (limit <? contentLength) then FramePanic rest
      else
        match ReadFull (Z.to_nat contentLength) rest with
        | None => FrameStop
        | Some (content, rest') => FrameOk content rest'
        end
  end.

(** One turn of the loop [for lsp.running { ... }] on such a machine. *)
Definition readMessages_iteration_within `{JSONCodec} (limit : Z)
           (lsp : LSPManager) : LSPManager * reader_status :=
  if negb (running lsp) then (lsp, ReaderReturned)
  else
    match read_frame_within limit (stdout lsp) with
    | FrameStop => (set_stdout lsp EmptyString, ReaderReturned)
    | FramePanic rest => (set_stdout lsp rest, ReaderPanicked)
    | FrameOk content rest =>
        let lsp := set_stdout lsp rest in
        match Unmarshal_msg content with
        | None => (lsp, ReaderRunning)
        | Some msg =>
            match dispatch content msg lsp with
            | Some lsp' => (lsp', ReaderRunning)
            | None => (lsp, ReaderBlocked)
            end
        end
    end.

End Traffic.

(** ** More sample messages

    Payloads of [configure_lsp] and [save], a codec that knows them
    besides the messages above, and a world whose file system holds a
    Python script and in which every server that is started answers its
    first request. *)

Module Desk.
Import Go.

Definition configure_python : RawMessage := Sample.json "{'language':'python'}".
Definition configure_rust : RawMessage := Sample.json "{'language':'rust'}".
Definition save_script : RawMessage :=
  Sample.json "{'path':'/x/y.py','content':'print(1)'}".

Definition codec : JSONCodec :=
  {| Unmarshal_msg := @Unmarshal_msg Sample.codec;
     Unmarshal_any := @Unmarshal_any Sample.codec;
     Unmarshal_OpenFilePayload := @Unmarshal_OpenFilePayload Sample.codec;
     Unmarshal_ConfigureLSPPayload :=
       Sample.assoc
         [(configure_python,
           {| cfg_Language := "python"; cfg_ServerPath := "";
              cfg_CompileCommandsDir := "" |});
          (configure_rust,
           {| cfg_Language := "rust"; cfg_ServerPath := "";
              cfg_CompileCommandsDir := "" |})];
     Unmarshal_DeltaPayload := @Unmarshal_DeltaPayload Sample.codec;
     Unmarshal_SavePayload :=
       Sample.assoc
         [(save_script, {| save_Path := "/x/y.py"; save_Content := "print(1)" |})];
     Unmarshal_LSPRequestPayload := @Unmarshal_LSPRequestPayload Sample.codec;
     Marshal := Sample.encode 16 |}.

Definition files : FileOps.OS :=
  {| FileOps.Clean := fun path => path;
     FileOps.files := <["/x/y.py" := inl "print(0)"]> ∅;
     FileOps.write_error := fun _ => None |}.

(** No server yet. *)
Definition fresh : Session.World :=
  {| Session.registry := Registry.NewMultiLSPManager;
     Session.os := files;
     Session.exec := fun _ _ => Engine.SpawnOk (Engine.frame Sample.response_result) |}.

(** A Python server that is silent, or that writes [out]. *)
Definition desk_with (out : string) : Session.World :=
  {| Session.registry := Sample.python_registry_with out;
     Session.os := files;
     Session.exec := fun _ _ => Engine.SpawnOk "" |}.

Definition desk : Session.World := desk_with "".

End Desk.

(** * Properties *)

Section GoStrings.
Import Go.

Lemma str_app_cons (c : Ascii.ascii) (s t : string) :
  String c s +:+ t = String c (s +:+ t).
Proof. reflexivity. Qed.

Lemma str_app_nil_l (t : string) : "" +:+ t = t.
Proof. reflexivity. Qed.

Lemma str_take_drop (n : nat) (s : string) : str_take n s +:+ str_drop n s = s.
Proof.
  revert s; induction n as [|n IH]; intros [|c s]; simpl; try done.
  rewrite str_app_cons. f_equal. apply IH.
Qed.

Lemma str_take_all (n : nat) (s : string) :
  (String.length s <= n)%nat -> str_take n s = s.
Proof.
  revert s; induction n as [|n IH]; intros [|c s]; simpl; intros H; auto.
  - lia.
  - rewrite IH; [done | lia].
Qed.

Lemma str_length_take (n : nat) (s : string) :
  String.length (str_take n s) = Nat.min n (String.length s).
Proof.
  revert s; induction n as [|n IH]; intros [|c s]; simpl; auto.
Qed.

Lemma str_length_drop (n : nat) (s : string) :
  String.length (str_drop n s) = (String.length s - n)%nat.
Proof.
  revert s; induction n as [|n IH]; intros [|c s]; simpl; auto.
Qed.

Lemma str_length_app (s t : string) :
  String.length (s +:+ t) = (String.length s + String.length t)%nat.
Proof.
  induction s as [|c s IH]; [done|]. rewrite str_app_cons. simpl. by rewrite IH.
Qed.

Lemma str_get_take (i n : nat) (s : string) :
  (i < n)%nat -> String.get i (str_take n s) = String.get i s.
Proof.
  revert i s; induction n as [|n IH]; intros i [|c s] Hi; simpl; auto; try lia.
  destruct i as [|i]; simpl; auto. apply IH. lia.
Qed.

Lemma str_get_drop (i n : nat) (s : string) :
  String.get i (str_drop n s) = String.get (n + i) s.
Proof.
  revert i s; induction n as [|n IH]; intros i [|c s]; simpl; auto.
Qed.

Lemma str_take_app_length (a b : string) : str_take (String.length a) (a +:+ b) = a.
Proof.
  induction a as [|c a IH]; [by destruct b|]. rewrite str_app_cons. simpl.
  by rewrite IH.
Qed.

Lemma str_drop_app_length (a b : string) : str_drop (String.length a) (a +:+ b) = b.
Proof. induction a as [|c a IH]; [done|]. by rewrite str_app_cons. Qed.

Lemma slice_to_ok (s : string) (hi : Z) :
  0 <= hi <= len s -> slice_to s hi = Ret (str_take (Z.to_nat hi) s).
Proof.
  intros [H0 H1]. unfold slice_to, slice.
  assert (E : (0 <=? 0) && (0 <=? hi) && (hi <=? len s) = true).
  { rewrite !andb_true_iff, !Z.leb_le. lia. }
  rewrite E. simpl. by rewrite Z.sub_0_r.
Qed.

Lemma slice_from_ok (s : string) (lo : Z) :
  0 <= lo <= len s -> slice_from s lo = Ret (str_drop (Z.to_nat lo) s).
Proof.
  intros [H0 H1]. unfold slice_from, slice.
  assert (E : (0 <=? lo) && (lo <=? len s) && (len s <=? len s) = true).
  { rewrite !andb_true_iff, !Z.leb_le. lia. }
  rewrite E. f_equal. apply str_take_all. rewrite str_length_drop.
  unfold len in *. lia.
Qed.

End GoStrings.

Section DocumentMirror.
Import Go FileOps.

(** The guard of [ApplyDelta] is exactly the negation of the range
    precondition. *)
Lemma ApplyDelta_guard (content : string) (fromPos toPos : Z) :
  (fromPos <? 0) || (len content <? toPos) || (toPos <? fromPos) = false
  <-> 0 <= fromPos <= toPos /\ toPos <= len content.
Proof. rewrite !orb_false_iff, !Z.ltb_ge. lia. Qed.

Lemma ApplyDelta_in_range (content : string) (fromPos toPos : Z) (insert : string) :
  0 <= fromPos <= toPos /\ toPos <= len content ->
  ApplyDelta content fromPos toPos insert =
  Ret (str_take (Z.to_nat fromPos) content +:+ insert +:+
       str_drop (Z.to_nat toPos) content, None).
Proof.
  intros Hr. unfold ApplyDelta.
  apply ApplyDelta_guard in Hr as G. rewrite G.
  rewrite slice_to_ok by lia. simpl.
  rewrite slice_from_ok by lia. done.
Qed.

Lemma ApplyDelta_out_of_range (content : string) (fromPos toPos : Z) (insert : string) :
  ~ (0 <= fromPos <= toPos /\ toPos <= len content) ->
  ApplyDelta content fromPos toPos insert = Ret ("", Some ErrInvalidDeltaPositions).
Proof.
  intros Hr. unfold ApplyDelta.
  destruct ((fromPos <? 0) || (len content <? toPos) || (toPos <? fromPos)) eqn:G;
    [done|].
  apply ApplyDelta_guard in G. contradiction.
Qed.

(** C1. Inside the range [0 <= fromPos <= toPos <= len(C)] the splice
    returns [C[:fromPos] + insert + C[toPos:]] and no error, and neither
    slice expression panics; outside it, it returns the empty string
    together with the invalid-range error. *)
Theorem ApplyDelta_spec (content : string) (fromPos toPos : Z) (insert : string) :
  (0 <= fromPos <= toPos /\ toPos <= len content ->
     ApplyDelta content fromPos toPos insert =
     Ret (str_take (Z.to_nat fromPos) content +:+ insert +:+
          str_drop (Z.to_nat toPos) content, None))
  /\
  (~ (0 <= fromPos <= toPos /\ toPos <= len content) ->
     exists e, ApplyDelta content fromPos toPos insert = Ret ("", Some e)
               /\ kind_of e = InvalidRange).
Proof.
  split; intros Hr.
  - by apply ApplyDelta_in_range.
  - exists ErrInvalidDeltaPositions. split; [|done].
    by apply ApplyDelta_out_of_range.
Qed.

End DocumentMirror.

Section FrameDecoder.
Import Go Engine Vocabulary.

Lemma str_app_assoc (a b c : string) : (a +:+ b) +:+ c = a +:+ (b +:+ c).
Proof.
  induction a as [|x a IH]; [done|]. rewrite !str_app_cons. by rewrite IH.
Qed.

Lemma str_app_nil_r (a : string) : a +:+ EmptyString = a.
Proof. induction a as [|x a IH]; [done|]. rewrite str_app_cons. by rewrite IH. Qed.

(** Reading on inside a line: the bytes before the newline only grow
    [line]. *)
Lemma read_header_body (body rest line : string) (n : Z) :
  no_newline body = true ->
  read_header (body +:+ rest) line n = read_header rest (line +:+ body) n.
Proof.
  revert line. induction body as [|c body IH]; intros line Hb.
  - by rewrite str_app_nil_l, str_app_nil_r.
  - simpl in Hb. apply andb_true_iff in Hb as [Hc Hb].
    rewrite str_app_cons. simpl. apply negb_true_iff in Hc. rewrite Hc.
    rewrite IH by done. f_equal.
    rewrite str_app_assoc. by rewrite str_app_cons, str_app_nil_l.
Qed.

(** The stream ends inside a line: [ReadString] fails. *)
Lemma read_header_eof (tail line : string) (n : Z) :
  no_newline tail = true -> read_header tail line n = HeaderStop.
Proof.
  intros H. rewrite <- (str_app_nil_r tail).
  by rewrite read_header_body.
Qed.

(** A complete line. *)
Lemma read_header_line (l rest : string) (n : Z) :
  is_line l ->
  read_header (l +:+ rest) EmptyString n =
  if String.eqb l CRLF then HeaderDone n rest
  else read_header rest EmptyString (default n (Fmt.Sscanf_ContentLength l)).
Proof.
  intros (body & -> & Hb).
  rewrite str_app_assoc. rewrite read_header_body by done.
  rewrite str_app_cons, !str_app_nil_l. simpl.
  change (Fmt.is_newline LF) with true. simpl. done.
Qed.

Lemma CRLF_is_line : is_line CRLF.
Proof. by exists (String CR EmptyString). Qed.

(** A header block whose lines all fail to scan leaves the length as it
    was. *)
Lemma read_header_unscanned (ls : list string) (rest : string) (n : Z) :
  Forall header_line ls ->
  Forall (fun l => Fmt.Sscanf_ContentLength l = None) ls ->
  read_header (flatten ls +:+ CRLF +:+ rest) EmptyString n = HeaderDone n rest.
Proof.
  induction 1 as [|l ls [Hl Hne] _ IH]; intros Hs; cbn [flatten foldr].
  - rewrite str_app_nil_l. rewrite read_header_line by apply CRLF_is_line.
    by rewrite String.eqb_refl.
  - inversion Hs as [|? ? Hl' Hs']; subst.
    rewrite str_app_assoc. rewrite read_header_line by done.
    apply String.eqb_neq in Hne. rewrite Hne. rewrite Hl'. simpl.
    by apply IH.
Qed.

(** A header block that never reaches its blank line. *)
Lemma read_header_truncated (ls : list string) (tail : string) (n : Z) :
  Forall header_line ls -> no_newline tail = true ->
  read_header (flatten ls +:+ tail) EmptyString n = HeaderStop.
Proof.
  intros Hls Ht. revert n.
  induction Hls as [|l ls [Hl Hne] _ IH]; intros n; simpl.
  - rewrite str_app_nil_l. by apply read_header_eof.
  - rewrite str_app_assoc. rewrite read_header_line by done.
    apply String.eqb_neq in Hne. rewrite Hne. apply IH.
Qed.

End FrameDecoder.

Section FrameRoundTrip.
Import Go Engine Vocabulary.

Lemma pretty_N_go_app (x : N) (s t : string) :
  pretty_N_go x s +:+ t = pretty_N_go x (s +:+ t).
Proof.
  revert s. induction (N.lt_wf_0 x) as [x _ IH]; intros s.
  destruct (decide (x = 0)%N) as [->|Hx]; [by rewrite !pretty_N_go_0|].
  rewrite (pretty_N_go_step x s), (pretty_N_go_step x (s +:+ t)) by lia.
  rewrite IH by (apply N.div_lt; lia). by rewrite str_app_cons.
Qed.

Lemma pretty_N_char_digit (d : N) :
  (d < 10)%N ->
  Fmt.is_digit (pretty_N_char d) = true /\
  Fmt.digit_value (pretty_N_char d) = Z.of_N d.
Proof.
  intros Hd.
  assert (d = 0 \/ d = 1 \/ d = 2 \/ d = 3 \/ d = 4 \/ d = 5 \/ d = 6 \/
          d = 7 \/ d = 8 \/ d = 9)%N as Hc by lia.
  destruct Hc as [->|[->|[->|[->|[->|[->|[->|[->|[->| ->]]]]]]]]]; by compute.
Qed.

(** Scanning the digits [pretty] has printed gives the number back. *)
Lemma scan_digits_pretty_go (x : N) :
  exists k : nat,
    ((0 < x)%N -> (0 < k)%nat) /\
    forall s acc count,
      Fmt.scan_digits (pretty_N_go x s) acc count =
      Fmt.scan_digits s (acc * 10 ^ Z.of_nat k + Z.of_N x) (count + k)%nat.
Proof.
  induction (N.lt_wf_0 x) as [x _ IH].
  destruct (decide (x = 0)%N) as [->|Hx].
  - exists O. split; [lia|]. intros s acc count.
    rewrite pretty_N_go_0. f_equal; [simpl; lia|lia].
  - destruct (IH (x `div` 10)%N) as (k & _ & Hk); [apply N.div_lt; lia|].
    exists (S k). split; [lia|]. intros s acc count.
    rewrite pretty_N_go_step by lia. rewrite Hk. simpl.
    destruct (pretty_N_char_digit (x `mod` 10)%N) as [Hd Hv].
    { apply N.mod_lt. lia. }
    rewrite Hd, Hv. f_equal; [|lia].
    rewrite Nat2Z.inj_succ, Z.pow_succ_r by lia.
    pose proof (N.div_mod x 10 ltac:(lia)) as E.
    apply (f_equal Z.of_N) in E. rewrite N2Z.inj_add, N2Z.inj_mul in E.
    simpl in E. lia.
Qed.

Lemma pretty_N_go_head (x : N) (s : string) :
  (0 < x)%N ->
  exists c tl, pretty_N_go x s = String c tl /\ Fmt.is_digit c = true.
Proof.
  revert s. induction (N.lt_wf_0 x) as [x _ IH]; intros s Hx.
  rewrite pretty_N_go_step by done.
  destruct (decide (x `div` 10 = 0)%N) as [E|E].
  - rewrite E, pretty_N_go_0. eexists _, _. split; [done|].
    apply pretty_N_char_digit, N.mod_lt. lia.
  - apply IH; [apply N.div_lt; lia|by apply N.neq_0_lt_0].
Qed.

Lemma digit_not_newline (c : ascii) :
  Fmt.is_digit c = true -> Fmt.is_newline c = false.
Proof.
  unfold Fmt.is_digit, Fmt.is_newline. rewrite andb_true_iff, !N.leb_le.
  intros [? ?]. apply N.eqb_neq. lia.
Qed.

Lemma no_newline_pretty_go (x : N) (s : string) :
  no_newline (pretty_N_go x s) = no_newline s.
Proof.
  revert s. induction (N.lt_wf_0 x) as [x _ IH]; intros s.
  destruct (decide (x = 0)%N) as [->|Hx]; [by rewrite pretty_N_go_0|].
  rewrite pretty_N_go_step by lia. rewrite IH by (apply N.div_lt; lia).
  simpl. rewrite digit_not_newline; [done|].
  apply pretty_N_char_digit, N.mod_lt. lia.
Qed.

(** A decimal number as [%d] prints it: some digits, first of them a
    digit, and scanning it gives the number. *)
Lemma pretty_nat_scans (n : nat) (rest : string) :
  exists c tl (k : nat),
    pretty n +:+ rest = String c tl /\ Fmt.is_digit c = true /\ (0 < k)%nat /\
    forall acc count,
      Fmt.scan_digits (pretty n +:+ rest) acc count =
      Fmt.scan_digits rest (acc * 10 ^ Z.of_nat k + Z.of_nat n) (count + k)%nat.
Proof.
  unfold pretty, pretty_nat, pretty, pretty_N.
  destruct (decide (N.of_nat n = 0)%N) as [E|E].
  - assert (n = O) as -> by lia. exists "0"%char, rest, 1%nat.
    split; [done|]. split; [done|]. split; [lia|].
    intros acc count. rewrite str_app_cons, str_app_nil_l.
    cbn [Fmt.scan_digits]. change (Fmt.is_digit "0") with true. cbv iota.
    change (Fmt.digit_value "0") with 0.
    change (10 ^ Z.of_nat 1) with 10. f_equal; lia.
  - rewrite pretty_N_go_app, str_app_nil_l.
    destruct (pretty_N_go_head (N.of_nat n) rest) as (c & tl & Hh & Hd); [lia|].
    destruct (scan_digits_pretty_go (N.of_nat n)) as (k & Hk & Hs).
    exists c, tl, k. split; [done|]. split; [done|]. split; [apply Hk; lia|].
    intros acc count. rewrite Hs. by rewrite nat_N_Z.
Qed.

Lemma digit_bounds (c : ascii) :
  Fmt.is_digit c = true -> (48 <= Fmt.byte_of c <= 57)%N.
Proof.
  unfold Fmt.is_digit. rewrite andb_true_iff, !N.leb_le. lia.
Qed.

Lemma skip_spaces_digit (c : ascii) (tl : string) :
  Fmt.is_digit c = true -> Fmt.skip_spaces (String c tl) = String c tl.
Proof.
  intros Hd. pose proof (digit_bounds _ Hd) as Hb.
  pose proof (digit_not_newline _ Hd) as Hn.
  assert (H1 : Fmt.space1 c = false).
  { unfold Fmt.space1. apply orb_false_iff. split.
    - apply andb_false_iff. right. apply N.leb_gt. lia.
    - apply N.eqb_neq. lia. }
  assert (H2 : forall b, Fmt.space2 c b = false).
  { intros b. unfold Fmt.space2. apply andb_false_iff. left.
    apply N.eqb_neq. lia. }
  assert (H3 : forall b d, Fmt.space3 c b d = false).
  { intros b d. unfold Fmt.space3.
    assert ((Fmt.byte_of c =? 225)%N = false) as -> by (apply N.eqb_neq; lia).
    assert ((Fmt.byte_of c =? 226)%N = false) as -> by (apply N.eqb_neq; lia).
    assert ((Fmt.byte_of c =? 227)%N = false) as -> by (apply N.eqb_neq; lia).
    done. }
  simpl. rewrite Hn, H1.
  destruct tl as [|b [|d r]]; [done| |]; rewrite H2; [done|]. by rewrite H3.
Qed.

Lemma digit_not_sign (c : ascii) :
  Fmt.is_digit c = true ->
  Ascii.eqb c "-"%char = false /\ Ascii.eqb c "+"%char = false.
Proof.
  intros Hd. pose proof (digit_bounds _ Hd) as Hb.
  split; apply Ascii.eqb_neq; intros ->.
  - change (Fmt.byte_of "-") with 45%N in Hb. lia.
  - change (Fmt.byte_of "+") with 43%N in Hb. lia.
Qed.

Lemma skip_spaces_blank (s : string) :
  Fmt.skip_spaces (String " " s) = Fmt.skip_spaces s.
Proof. reflexivity. Qed.

Lemma advance_space_blank (c : ascii) (tl : string) :
  Fmt.is_digit c = true ->
  Fmt.advance_space (String " " (String c tl)) = Some (String c tl).
Proof.
  intros Hd. unfold Fmt.advance_space.
  change (Fmt.starts_with_newline (String " " (String c tl))) with false.
  assert (Fmt.starts_with_space (String " " (String c tl)) = true) as ->.
  { by destruct tl. }
  by rewrite skip_spaces_blank, skip_spaces_digit.
Qed.

Lemma scanInt_digits (c : ascii) (tl : string) :
  Fmt.is_digit c = true ->
  Fmt.scanInt (String c tl) =
  let '(magnitude, count) := Fmt.scan_digits (String c tl) 0 O in
  if (count =? 0)%nat then None
  else if (min_int <=? magnitude) && (magnitude <=? max_int)
       then Some magnitude else None.
Proof.
  intros Hd. unfold Fmt.scanInt, Fmt.SkipSpace.
  rewrite skip_spaces_digit by done.
  change (Fmt.starts_with_newline (String c tl)) with (Fmt.is_newline c).
  rewrite digit_not_newline by done.
  destruct (digit_not_sign c Hd) as [E1 E2].
  cbn [mbind option_bind]. rewrite E1, E2. done.
Qed.

(** [Sscanf] reads back the length [Sprintf] has written. *)
Lemma Sscanf_reads_length (n : nat) :
  Z.of_nat n <= max_int ->
  Fmt.Sscanf_ContentLength ("Content-Length: " +:+ pretty n +:+ CRLF)
  = Some (Z.of_nat n).
Proof.
  intros Hn.
  destruct (pretty_nat_scans n CRLF) as (c & tl & k & Hh & Hd & Hk & Hs).
  change ("Content-Length: " +:+ pretty n +:+ CRLF)
    with ("Content-Length:" +:+ String " " (pretty n +:+ CRLF)).
  rewrite Hh.
  change (Fmt.Sscanf_ContentLength ("Content-Length:" +:+ String " " (String c tl)))
    with (rest ← Fmt.advance_space (String " " (String c tl)); Fmt.scanInt rest).
  rewrite advance_space_blank by done. cbn [mbind option_bind].
  rewrite scanInt_digits by done. rewrite <- Hh, Hs.
  change (Fmt.scan_digits CRLF (0 * 10 ^ Z.of_nat k + Z.of_nat n) (0 + k))
    with (0 * 10 ^ Z.of_nat k + Z.of_nat n, (0 + k)%nat).
  replace (0 * 10 ^ Z.of_nat k + Z.of_nat n) with (Z.of_nat n) by lia.
  destruct k as [|k]; [lia|]. cbn [Nat.add Nat.eqb].
  assert ((min_int <=? Z.of_nat n) && (Z.of_nat n <=? max_int) = true) as ->.
  { apply andb_true_iff. rewrite !Z.leb_le. unfold min_int. lia. }
  done.
Qed.

Lemma no_newline_app (a b : string) :
  no_newline (a +:+ b) = no_newline a && no_newline b.
Proof.
  induction a as [|c a IH]; [done|]. rewrite str_app_cons. simpl.
  by rewrite IH, andb_assoc.
Qed.

Lemma no_newline_pretty (n : nat) : no_newline (pretty n) = true.
Proof.
  unfold pretty, pretty_nat, pretty, pretty_N.
  case_decide; [done|]. by rewrite no_newline_pretty_go.
Qed.

Lemma ReadFull_app (data rest : string) :
  ReadFull (String.length data) (data +:+ rest) = Some (data, rest).
Proof.
  unfold ReadFull. rewrite str_length_app.
  assert ((String.length data <=? String.length data + String.length rest)%nat = true)
    as -> by (apply Nat.leb_le; lia).
  by rewrite str_take_app_length, str_drop_app_length.
Qed.

Lemma length_line_is_header (n : nat) :
  header_line ("Content-Length: " +:+ pretty n +:+ CRLF).
Proof.
  split; [|done].
  exists ("Content-Length: " +:+ pretty n +:+ String CR "").
  split.
  - by rewrite !str_app_assoc.
  - by rewrite !no_newline_app, no_newline_pretty.
Qed.

(** What [writeMessage] frames, the reader unframes: for every body whose
    length fits an [int], whatever follows it in the stream. *)
Lemma frame_round_trip (data : RawMessage) (rest : string) :
  Z.of_nat (String.length data) <= max_int ->
  read_frame (frame data +:+ rest) = FrameOk data rest.
Proof.
  intros Hn. unfold read_frame, frame.
  replace (("Content-Length: " +:+ pretty (String.length data) +:+ CRLF +:+ CRLF
            +:+ data) +:+ rest)
    with (("Content-Length: " +:+ pretty (String.length data) +:+ CRLF) +:+
          (CRLF +:+ (data +:+ rest))) by by rewrite !str_app_assoc.
  destruct (length_line_is_header (String.length data)) as [Hl Hne].
  rewrite read_header_line by done.
  apply String.eqb_neq in Hne. rewrite Hne.
  rewrite Sscanf_reads_length by done. cbn [default from_option id].
  rewrite read_header_line by apply CRLF_is_line.
  rewrite String.eqb_refl.
  assert ((Z.of_nat (String.length data) <? 0) = false) as -> by (apply Z.ltb_ge; lia).
  by rewrite Nat2Z.id, ReadFull_app.
Qed.

(** C5 (amended). The decoder stops, without reading a body, when the
    stream ends inside the header block.  A header block in which no
    line scans as a Content-Length (none present, or none with an
    integer) is not refused: the length is zero, the empty body is read
    and decoding goes on behind the blank line.  And a length that is
    declared is never too large: the frame [writeMessage] makes of a
    body of any length is read back as that body. *)
Theorem read_frame_header_block :
  (forall (ls : list string) (tail : string),
      Forall header_line ls -> no_newline tail = true ->
      read_frame (flatten ls +:+ tail) = FrameStop)
  /\
  (forall (ls : list string) (rest : string),
      Forall header_line ls ->
      Forall (fun l => Fmt.Sscanf_ContentLength l = None) ls ->
      read_frame (flatten ls +:+ CRLF +:+ rest) = FrameOk EmptyString rest)
  /\
  (forall (data : RawMessage) (rest : string),
      Z.of_nat (String.length data) <= max_int ->
      read_frame (frame data +:+ rest) = FrameOk data rest).
Proof.
  split; [|split].
  - intros ls tail Hls Ht. unfold read_frame.
    by rewrite read_header_truncated.
  - intros ls rest Hls Hs. unfold read_frame.
    rewrite read_header_unscanned by done. simpl.
    unfold ReadFull. simpl. by destruct rest.
  - apply frame_round_trip.
Qed.

End FrameRoundTrip.

Section ReaderTermination.
Import Go Engine Vocabulary.
Context `{JSONCodec}.

Lemma read_header_shrinks stream line n n' rest :
  read_header stream line n = HeaderDone n' rest ->
  (String.length rest < String.length stream)%nat.
Proof.
  revert line n. induction stream as [|c stream IH]; intros line n; simpl; [done|].
  destruct (Fmt.is_newline c).
  - destruct (String.eqb _ CRLF).
    + intros [= _ <-]. lia.
    + intros Hh. apply IH in Hh. lia.
  - intros Hh. apply IH in Hh. lia.
Qed.

Lemma read_frame_shrinks stream content rest :
  read_frame stream = FrameOk content rest ->
  (String.length rest < String.length stream)%nat.
Proof.
  unfold read_frame.
  destruct (read_header stream "" 0) as [|n rest0] eqn:Hh; [done|].
  apply read_header_shrinks in Hh.
  destruct (n <? 0); [done|]. unfold ReadFull.
  destruct (Z.to_nat n <=? String.length rest0)%nat; [|done].
  intros [= _ <-]. rewrite str_length_drop. lia.
Qed.

Lemma dispatch_stdout content msg lsp lsp' :
  dispatch content msg lsp = Some lsp' -> stdout lsp' = stdout lsp.
Proof.
  unfold dispatch. destruct (ID msg) as [id|].
  - destruct (responseHandlers lsp !! id) as [ch|]; [|by intros [= <-]].
    destruct (chans lsp !! ch) as [chan|]; simpl; [|done].
    destruct (has_room chan); [|done]. by intros [= <-].
  - case_bool_decide; by intros [= <-].
Qed.

Lemma iteration_shrinks lsp lsp' :
  readMessages_iteration lsp = (lsp', ReaderRunning) ->
  (String.length (stdout lsp') < String.length (stdout lsp))%nat.
Proof.
  unfold readMessages_iteration. destruct (running lsp); simpl; [|done].
  destruct (read_frame (stdout lsp)) as [|rest|content rest] eqn:F; try done.
  apply read_frame_shrinks in F.
  destruct (Unmarshal_msg content) as [msg|].
  - destruct (dispatch content msg (set_stdout lsp rest)) as [lsp1|] eqn:D; [|done].
    intros [= <-]. apply dispatch_stdout in D. by rewrite D.
  - by intros [= <-].
Qed.

(** The reader, left alone, returns (or panics, or waits in a send)
    within as many turns as its stream has bytes; more fuel changes
    nothing. *)
Lemma readMessages_terminates (fuel : nat) (lsp : LSPManager) :
  (String.length (stdout lsp) < fuel)%nat ->
  (readMessages fuel lsp).2 <> ReaderRunning
  /\ forall fuel', (fuel <= fuel')%nat -> readMessages fuel' lsp = readMessages fuel lsp.
Proof.
  revert lsp. induction fuel as [|fuel IH]; intros lsp Hlen; [lia|].
  simpl. destruct (readMessages_iteration lsp) as [lsp' st] eqn:It.
  destruct st; try (split; [done|]; intros [|fuel'] Hle; [lia|];
                    simpl; by rewrite It).
  apply iteration_shrinks in It as Hs.
  destruct (IH lsp') as [IH1 IH2]; [lia|]. split; [done|].
  intros [|fuel'] Hle; [lia|]. simpl. rewrite It. apply IH2. lia.
Qed.

End ReaderTermination.

Section EngineInvariant.
Import Go Engine Vocabulary.
Context `{JSONCodec}.

Lemma wf_started out : wf (started out).
Proof.
  split; simpl; try done.
Qed.

Lemma writeMessage_fields message lsp :
  let lsp' := (writeMessage message lsp).1 in
  responseHandlers lsp' = responseHandlers lsp /\ chans lsp' = chans lsp /\
  messageID lsp' = messageID lsp /\ running lsp' = running lsp /\
  notificationChan lsp' = notificationChan lsp /\ stdout lsp' = stdout lsp /\
  cmd lsp' = cmd lsp.
Proof.
  unfold writeMessage. destruct (running lsp) eqn:R; simpl; [|by rewrite R].
  destruct (child_alive lsp); simpl; by rewrite ?R.
Qed.

Lemma wf_call s method params :
  wf s ->
  wf {| mgr := (SendRequest_enter method params (mgr s)).1; reader := reader s;
        calls := calls s ++ [(SendRequest_enter method params (mgr s)).2] |}.
Proof.
  intros [W1 W2 W3 W4 W5]. unfold SendRequest_enter.
  destruct (running (mgr s)) eqn:R; simpl.
  - set (id := wrap64 (messageID (mgr s) + 1)).
    set (ch := length (chans (mgr s))).
    split; simpl; try done.
    + intros id' ch'. rewrite lookup_insert. case_decide as E.
      * intros [= <-]. by rewrite lookup_app_r, Nat.sub_diag by lia.
      * intros Hl. rewrite lookup_app_l; [by eapply W1|].
        apply lookup_lt_Some with (x := make_chan 1). by eapply W1.
    + intros id' ch'. rewrite lookup_insert. case_decide as E.
      * intros [= <-]. subst id'.
        exists (length (calls s)),
               (CallRegistered id ch (request_frame id method params)).
        split; [|done]. by rewrite lookup_app_r, Nat.sub_diag by lia.
      * intros Hl. destruct (W2 _ _ Hl) as (i & c & Hi & Ho).
        exists i, c. split; [|done]. rewrite lookup_app_l; [done|].
        by eapply lookup_lt_Some.
    + intros i j c c' i1 i2 ch0 Hi Hj Ho Ho'.
      apply lookup_app_Some in Hi as [Hi|[Hli Hi]];
      apply lookup_app_Some in Hj as [Hj|[Hlj Hj]].
      * by eapply W3.
      * apply list_lookup_singleton_Some in Hj as [Hj <-]. simpl in Ho'.
        injection Ho' as <- <-. apply W4 with (id := i1) (ch := ch) in Hi; [|done].
        unfold ch in Hi. lia.
      * apply list_lookup_singleton_Some in Hi as [Hi <-]. simpl in Ho.
        injection Ho as <- <-. apply W4 with (id := i2) (ch := ch) in Hj; [|done].
        unfold ch in Hj. lia.
      * apply list_lookup_singleton_Some in Hi as [Hi _].
        apply list_lookup_singleton_Some in Hj as [Hj _]. lia.
    + intros i c id' ch' Hi Ho. rewrite length_app. simpl.
      apply lookup_app_Some in Hi as [Hi|[Hli Hi]].
      * apply W4 with (id := id') (ch := ch') in Hi; [lia|done].
      * apply list_lookup_singleton_Some in Hi as [Hi <-]. simpl in Ho.
        injection Ho as <- <-. unfold ch. lia.
  - split; simpl; try done.
    + intros id ch Hl. destruct (W2 _ _ Hl) as (i & c & Hi & Ho).
      exists i, c. split; [|done]. rewrite lookup_app_l; [done|].
      by eapply lookup_lt_Some.
    + intros i j c c' i1 i2 ch0 Hi Hj Ho Ho'.
      apply lookup_app_Some in Hi as [Hi|[Hli Hi]];
      apply lookup_app_Some in Hj as [Hj|[Hlj Hj]].
      * by eapply W3.
      * apply list_lookup_singleton_Some in Hj as [Hj <-]. done.
      * apply list_lookup_singleton_Some in Hi as [Hi <-]. done.
      * apply list_lookup_singleton_Some in Hi as [Hi <-]. done.
    + intros i c id' ch' Hi Ho.
      apply lookup_app_Some in Hi as [Hi|[Hli Hi]].
      * by eapply W4.
      * apply list_lookup_singleton_Some in Hi as [Hi <-]. done.
Qed.

Lemma owner_unique s i j c c' id id' ch :
  wf s -> calls s !! i = Some c -> calls s !! j = Some c' ->
  owner c = Some (id, ch) -> owner c' = Some (id', ch) -> id = id'.
Proof.
  intros W Hi Hj Ho Ho'.
  assert (i = j) as -> by (eapply wf_unique; eauto).
  congruence.
Qed.

(** Two entries of the table never share a channel. *)
Lemma table_injective s id id' ch :
  wf s ->
  responseHandlers (mgr s) !! id = Some ch ->
  responseHandlers (mgr s) !! id' = Some ch -> id = id'.
Proof.
  intros W H1 H2.
  destruct (wf_owner _ W _ _ H1) as (i & c & Hi & Ho).
  destruct (wf_owner _ W _ _ H2) as (j & c' & Hj & Ho').
  exact (owner_unique s i j c c' id id' ch W Hi Hj Ho Ho').
Qed.

Lemma insert_same_owner (cs : list call_state) i c0 cnew j c :
  cs !! i = Some c0 -> owner cnew = owner c0 ->
  <[i := cnew]> cs !! j = Some c ->
  exists c1, cs !! j = Some c1 /\ owner c1 = owner c.
Proof.
  intros Hi Ho Hj.
  apply list_lookup_insert_Some in Hj as [(-> & <- & _)|(_ & Hj)]; eauto.
Qed.

Lemma insert_no_owner (cs : list call_state) i cnew j c o :
  owner cnew = None -> <[i := cnew]> cs !! j = Some c -> owner c = Some o ->
  cs !! j = Some c /\ j <> i.
Proof.
  intros Hn Hj Ho.
  apply list_lookup_insert_Some in Hj as [(-> & <- & _)|(? & Hj)]; [congruence|done].
Qed.

Lemma wf_write s i id ch request :
  wf s -> calls s !! i = Some (CallRegistered id ch request) ->
  let r := SendRequest_write (CallRegistered id ch request) (mgr s) in
  wf {| mgr := r.1; reader := reader s; calls := <[i := r.2]> (calls s) |}.
Proof.
  intros W Hi. pose proof W as [W1 W2 W3 W4 W5]. simpl.
  pose proof (writeMessage_fields request (mgr s)) as (Et & Ec & _).
  assert (Ho0 : owner (SendRequest_write (CallRegistered id ch request) (mgr s)).2
                = owner (CallRegistered id ch request)).
  { simpl. by destruct (writeMessage request (mgr s)) as [lsp' [err|]]. }
  assert (Em : (SendRequest_write (CallRegistered id ch request) (mgr s)).1
               = (writeMessage request (mgr s)).1).
  { simpl. by destruct (writeMessage request (mgr s)) as [lsp' [err|]]. }
  simpl in Ho0, Em. rewrite Em. simpl in Et, Ec.
  split; simpl; try done.
  - intros id' ch'. rewrite Et, Ec. eauto.
  - intros id' ch'. rewrite Et. intros Hl.
    destruct (W2 _ _ Hl) as (j & c & Hj & Ho).
    destruct (decide (j = i)) as [->|Hne].
    + eexists i, _. split.
      * apply list_lookup_insert_eq. by eapply lookup_lt_Some.
      * rewrite Ho0. rewrite Hi in Hj. by injection Hj as <-.
    + exists j, c. by rewrite list_lookup_insert_ne.
  - intros j k c c' i1 i2 ch0 Hj Hk Ho Ho'.
    eapply insert_same_owner in Hj as (c1 & Hj & Ho1); [|done..].
    eapply insert_same_owner in Hk as (c2 & Hk & Ho2); [|done..].
    rewrite <- Ho1 in Ho. rewrite <- Ho2 in Ho'. eauto.
  - intros j c id' ch' Hj Ho. rewrite Ec.
    eapply insert_same_owner in Hj as (c1 & Hj & Ho1); [|done..].
    rewrite <- Ho1 in Ho. eauto.
Qed.

Lemma wf_cleanup s i id ch err :
  wf s -> calls s !! i = Some (CallWriteFailed id ch err) ->
  let r := SendRequest_cleanup (CallWriteFailed id ch err) (mgr s) in
  wf {| mgr := r.1; reader := reader s; calls := <[i := r.2]> (calls s) |}.
Proof.
  intros W Hi. pose proof W as [W1 W2 W3 W4 W5]. simpl.
  split; simpl; try done.
  - intros id' ch'. rewrite lookup_delete_Some. intros [_ Hl]. eauto.
  - intros id' ch'. rewrite lookup_delete_Some. intros [Hne Hl].
    destruct (W2 _ _ Hl) as (j & c & Hj & Ho). exists j, c. split; [|done].
    rewrite list_lookup_insert_ne; [done|]. intros ->.
    rewrite Hi in Hj. injection Hj as <-. simpl in Ho. congruence.
  - intros j k c c' i1 i2 ch0 Hj Hk Ho Ho'.
    eapply insert_no_owner in Hj as [Hj _]; [|done..].
    eapply insert_no_owner in Hk as [Hk _]; [|done..].
    eauto.
  - intros j c id' ch' Hj Ho.
    eapply insert_no_owner in Hj as [Hj _]; [|done..].
    eauto.
Qed.

Lemma receive_inv c lsp lsp' c' :
  SendRequest_receive c lsp = Some (lsp', c') ->
  exists id ch chan m chan',
    c = CallAwaiting id ch /\ chans lsp !! ch = Some chan /\
    chan_pop chan = Some (m, chan') /\
    lsp' = set_table lsp (messageID lsp) (responseHandlers lsp)
                     (<[ch := chan']> (chans lsp)) /\
    c' = CallReturned (Some m) None.
Proof.
  destruct c as [| id ch | |]; simpl; try done.
  destruct (chans lsp !! ch) as [chan|] eqn:E; simpl; [|done].
  destruct (chan_pop chan) as [[m chan']|] eqn:P; simpl; [|done].
  intros [= <- <-]. by exists id, ch, chan, m, chan'.
Qed.

Lemma wf_receive s i c lsp' c' :
  wf s -> calls s !! i = Some c ->
  SendRequest_receive c (mgr s) = Some (lsp', c') ->
  wf {| mgr := lsp'; reader := reader s; calls := <[i := c']> (calls s) |}.
Proof.
  intros W Hi Hr. pose proof W as [W1 W2 W3 W4 W5].
  apply receive_inv in Hr as (id & ch & chan & m & chan' & -> & Hc & Hp & -> & ->).
  assert (Hfree : forall id' ch', responseHandlers (mgr s) !! id' = Some ch' -> ch' <> ch).
  { intros id' ch' Hl ->. apply W1 in Hl. rewrite Hc in Hl. by injection Hl as ->. }
  split; simpl; try done.
  - intros id' ch' Hl. rewrite list_lookup_insert_ne; [eauto|].
    intros ->. by eapply Hfree.
  - intros id' ch' Hl. destruct (W2 _ _ Hl) as (j & c & Hj & Ho).
    exists j, c. split; [|done]. rewrite list_lookup_insert_ne; [done|].
    intros ->. rewrite Hi in Hj. injection Hj as <-. simpl in Ho.
    injection Ho as <- <-. by eapply Hfree.
  - intros j k c c' i1 i2 ch0 Hj Hk Ho Ho'.
    apply list_lookup_insert_Some in Hj as [(-> & <- & _)|(_ & Hj)]; [done|].
    apply list_lookup_insert_Some in Hk as [(-> & <- & _)|(_ & Hk)]; [done|].
    eauto.
  - intros j c id' ch' Hj Ho. rewrite length_insert.
    apply list_lookup_insert_Some in Hj as [(-> & <- & _)|(_ & Hj)]; [done|].
    eauto.
Qed.

(** A frame that answers a registered request. *)
Lemma dispatch_matched s content msg id ch rest :
  wf s -> ID msg = Some id ->
  responseHandlers (mgr s) !! id = Some ch ->
  dispatch content msg (set_stdout (mgr s) rest) =
  Some (set_table (set_stdout (mgr s) rest) (messageID (mgr s))
          (delete id (responseHandlers (mgr s)))
          (<[ch := {| buf := [content]; cap := 1; closed := false |}]>
             (chans (mgr s)))).
Proof.
  intros W Hid Hl. unfold dispatch. rewrite Hid. simpl. rewrite Hl.
  rewrite (wf_fresh _ W _ _ Hl). done.
Qed.

Lemma dispatch_unmatched content msg id lsp :
  ID msg = Some id -> responseHandlers lsp !! id = None ->
  dispatch content msg lsp = Some lsp.
Proof. intros Hid Hl. unfold dispatch. by rewrite Hid, Hl. Qed.

Lemma dispatch_notification content msg lsp :
  ID msg = None ->
  dispatch content msg lsp =
  Some (if bool_decide (Method msg <> "")
        then set_notificationChan lsp (select_send (notificationChan lsp) content)
        else lsp).
Proof. intros Hid. unfold dispatch. rewrite Hid. by case_bool_decide. Qed.

Lemma wf_same_tables s lsp' rd :
  wf s -> rd <> ReaderBlocked ->
  responseHandlers lsp' = responseHandlers (mgr s) ->
  chans lsp' = chans (mgr s) ->
  wf {| mgr := lsp'; reader := rd; calls := calls s |}.
Proof.
  intros [W1 W2 W3 W4 W5] Hrd Et Ec.
  split; simpl; rewrite ?Et, ?Ec; eauto.
Qed.

Lemma wf_reader_step s :
  wf s ->
  let r := readMessages_iteration (mgr s) in
  wf {| mgr := r.1; reader := r.2; calls := calls s |}.
Proof.
  intros W. pose proof W as [W1 W2 W3 W4 W5]. simpl.
  unfold readMessages_iteration.
  destruct (running (mgr s)); simpl; [|by apply wf_same_tables].
  destruct (read_frame (stdout (mgr s))) as [|rest|content rest]; simpl;
    try by apply wf_same_tables.
  destruct (Unmarshal_msg content) as [msg|]; simpl;
    [|by apply wf_same_tables].
  destruct (ID msg) as [id|] eqn:Hid.
  - destruct (responseHandlers (mgr s) !! id) as [ch|] eqn:Hl.
    + rewrite (dispatch_matched s content msg id ch rest W Hid Hl). simpl.
      split; simpl; try done.
      * intros id' ch'. rewrite lookup_delete_Some. intros [Hne Hl'].
        rewrite list_lookup_insert_ne; [eauto|].
        intros ->. apply Hne. eapply table_injective; eauto.
      * intros id' ch'. rewrite lookup_delete_Some. intros [Hne Hl']. eauto.
      * intros j c id' ch' Hj Ho. rewrite length_insert. eauto.
    + rewrite dispatch_unmatched with (id := id) by done.
      by apply wf_same_tables.
  - rewrite dispatch_notification by done. simpl.
    case_bool_decide; by apply wf_same_tables.
Qed.

Lemma wf_step s l s' : wf s -> step s l s' -> wf s'.
Proof.
  intros W Hs. destruct Hs.
  - by apply wf_call.
  - by apply wf_write.
  - by apply wf_cleanup.
  - by eapply wf_receive.
  - pose proof (writeMessage_fields (notification_frame method params) (mgr s))
      as (Et & Ec & _).
    apply wf_same_tables; try done. by apply wf_reader.
  - by apply wf_reader_step.
  - apply wf_same_tables; try done. by apply wf_reader.
  - apply wf_same_tables; try done. by apply wf_reader.
  - apply wf_same_tables; try done. by apply wf_reader.
Qed.

Lemma wf_run s ls s' : wf s -> run s ls s' -> wf s'.
Proof. intros W Hr. induction Hr; eauto using wf_step. Qed.

End EngineInvariant.

Section Reader.
Import Go Engine Vocabulary.
Context `{JSONCodec}.

Lemma iteration_frame lsp content rest msg :
  running lsp = true -> read_frame (stdout lsp) = FrameOk content rest ->
  Unmarshal_msg content = Some msg ->
  readMessages_iteration lsp =
  match dispatch content msg (set_stdout lsp rest) with
  | Some lsp' => (lsp', ReaderRunning)
  | None => (set_stdout lsp rest, ReaderBlocked)
  end.
Proof.
  intros R F U. unfold readMessages_iteration. by rewrite R, F, U.
Qed.

Lemma fate_owner c0 content c id ch o :
  owner c0 = Some (id, ch) -> fate c0 content c -> owner c = Some o -> o = (id, ch).
Proof.
  intros H0 Hf Ho. destruct c0 as [id0 ch0 req|id0 ch0|id0 ch0 err0|]; cbn in *;
    try discriminate; injection H0 as -> ->.
  - destruct Hf as [->|[->|[->|[err [->| ->]]]]]; cbn in Ho; congruence.
  - destruct Hf as [->| ->]; cbn in Ho; congruence.
  - destruct Hf as [->| ->]; cbn in Ho; congruence.
Qed.

Lemma answered_same s s' i c0 ch content :
  answered s i c0 ch content ->
  calls s' = calls s -> chans (mgr s') = chans (mgr s) ->
  answered s' i c0 ch content.
Proof.
  intros (c & Hi & Hf & Hc) Hcalls Hchans. exists c.
  rewrite Hcalls, Hchans. done.
Qed.

Lemma answered_step s l s' i c0 id ch content :
  wf s -> step s l s' -> owner c0 = Some (id, ch) ->
  answered s i c0 ch content -> answered s' i c0 ch content.
Proof.
  intros W Hs Hstart A. pose proof W as [W1 W2 W3 W4 W5].
  pose proof A as (c & Hi & Hf & Hc).
  assert (Hown : forall o, owner c = Some o -> o = (id, ch))
    by (intros o; by apply (fate_owner c0 content c id ch o)).
  clear Hstart.
  destruct Hs.
  - (* a new call *)
    exists c. cbn. split; [by apply lookup_app_l_Some|]. split; [done|].
    intros Ho. specialize (Hc Ho).
    subst r. unfold SendRequest_enter. destruct (negb (running (mgr s))); cbn; [done|].
    by apply lookup_app_l_Some.
  - (* a write *)
    subst r. cbn.
    pose proof (writeMessage_fields request (mgr s)) as (_ & Ec & _).
    destruct (decide (i0 = i)) as [->|Hne].
    + rewrite Hi in H0. injection H0 as ->.
      pose proof (Hown _ eq_refl) as [= -> ->].
      assert (Hc0 : c0 = CallRegistered id ch request).
      { destruct c0 as [a0 b0 q0|a0 b0|a0 b0 e0|]; cbn in Hf.
        - by destruct Hf as [<-|[?|[?|[err [?|?]]]]].
        - by destruct Hf as [?|?].
        - by destruct Hf as [?|?].
        - done. }
      subst c0. cbn in Hf.
      destruct (writeMessage request (mgr s)) as [lsp' [err|]] eqn:Hw; cbn in *.
      * exists (CallWriteFailed id ch err).
        split; [cbn; apply list_lookup_insert_eq; by eapply lookup_lt_Some|].
        split; [right; right; right; exists err; by left|].
        intros _. cbn. rewrite Ec. apply Hc. by eexists.
      * exists (CallAwaiting id ch).
        split; [cbn; apply list_lookup_insert_eq; by eapply lookup_lt_Some|].
        split; [right; by left|].
        intros _. cbn. rewrite Ec. apply Hc. by eexists.
    + exists c. split; [cbn; by rewrite list_lookup_insert_ne|]. split; [done|].
      intros Ho. destruct (writeMessage request (mgr s)) as [lsp' [err|]];
        cbn in *; rewrite Ec; by apply Hc.
  - (* the removal after a failed write *)
    subst r. cbn.
    destruct (decide (i0 = i)) as [->|Hne].
    + rewrite Hi in H0. injection H0 as ->.
      exists (CallReturned None (Some err)).
      split; [cbn; apply list_lookup_insert_eq; by eapply lookup_lt_Some|].
      split; [|by intros [? ?]].
      destruct c0 as [a0 b0 q0|a0 b0|a0 b0 e0|]; cbn in Hf |- *.
      * destruct Hf as [?|[?|[?|[err' [[= -> -> ->]|?]]]]]; try discriminate.
        right; right; right. eexists. by right.
      * destruct Hf as [?|?]; discriminate.
      * destruct Hf as [[= -> -> ->]|?]; [by right|discriminate].
      * discriminate.
    + exists c. split; [cbn; by rewrite list_lookup_insert_ne|]. done.
  - (* a receive *)
    apply receive_inv in H1 as (id1 & ch1 & chan & m & chan' & -> & Hch & Hp & -> & ->).
    destruct (decide (i0 = i)) as [->|Hne].
    + rewrite Hi in H0. injection H0 as ->.
      pose proof (Hown _ eq_refl) as [= -> ->].
      rewrite (Hc ltac:(by eexists)) in Hch. injection Hch as <-.
      cbn in Hp. injection Hp as <- <-.
      exists (CallReturned (Some content) None).
      split; [cbn; apply list_lookup_insert_eq; by eapply lookup_lt_Some|].
      split; [|by intros [? ?]].
      destruct c0 as [a0 b0 q0|a0 b0|a0 b0 e0|]; cbn in Hf |- *.
      * right; right; by left.
      * by right.
      * destruct Hf as [?|?]; discriminate.
      * discriminate.
    + exists c. split; [cbn; by rewrite list_lookup_insert_ne|]. split; [done|].
      intros Ho. cbn. rewrite list_lookup_insert_ne; [by apply Hc|].
      intros ->. apply Hne. destruct Ho as [o Ho].
      pose proof (Hown _ Ho) as [= ->].
      by apply (W3 i0 i (CallAwaiting id1 ch) c id1 id ch).
  - (* a notification *)
    pose proof (writeMessage_fields (notification_frame method params) (mgr s))
      as (_ & Ec & _).
    by apply (answered_same s).
  - (* a turn of the reader *)
    subst r. exists c. cbn. split; [done|]. split; [done|].
    intros Ho. specialize (Hc Ho).
    unfold readMessages_iteration.
    destruct (running (mgr s)); cbn; [|done].
    destruct (read_frame (stdout (mgr s))) as [|rest|body rest]; cbn; try done.
    destruct (Unmarshal_msg body) as [msg|] eqn:Hmsg; cbn; [|done].
    destruct (ID msg) as [id1|] eqn:Hid.
    + destruct (responseHandlers (mgr s) !! id1) as [ch1|] eqn:Hl.
      * rewrite (dispatch_matched s body msg id1 ch1 rest W Hid Hl). cbn.
        rewrite list_lookup_insert_ne; [done|].
        intros ->. rewrite (W1 _ _ Hl) in Hc. discriminate.
      * by rewrite dispatch_unmatched with (id := id1).
    + rewrite dispatch_notification by done. cbn. by case_bool_decide.
  - by apply (answered_same s).
  - by apply (answered_same s).
  - by apply (answered_same s).
Qed.

Lemma answered_run s ls s' i c0 id ch content :
  wf s -> run s ls s' -> owner c0 = Some (id, ch) ->
  answered s i c0 ch content -> wf s' /\ answered s' i c0 ch content.
Proof.
  intros W Hr H0 A. induction Hr; [done|].
  apply IHHr; [by eapply wf_step|by eapply answered_step].
Qed.

(** No step gives a channel that is in the store to a call that did not
    have it. *)
Lemma sole_owner_step s l s' i ch :
  step s l s' -> (ch < length (chans (mgr s)))%nat ->
  (forall j c id', calls s !! j = Some c -> owner c = Some (id', ch) -> j = i) ->
  (ch < length (chans (mgr s')))%nat
  /\ forall j c id', calls s' !! j = Some c -> owner c = Some (id', ch) -> j = i.
Proof.
  intros Hs Hlt Hu. destruct Hs.
  - (* a new call *)
    subst r. unfold SendRequest_enter.
    destruct (negb (running (mgr s))); cbn.
    + split; [done|].
      intros j c id' Hj Ho. apply lookup_app_Some in Hj as [Hj|[_ Hj]].
      * by eapply Hu.
      * apply list_lookup_singleton_Some in Hj as [_ <-]. discriminate.
    + split; [rewrite length_app; lia|].
      intros j c id' Hj Ho. apply lookup_app_Some in Hj as [Hj|[_ Hj]].
      * by eapply Hu.
      * apply list_lookup_singleton_Some in Hj as [_ <-]. cbn in Ho.
        injection Ho as _ Hch. lia.
  - (* a write *)
    subst r. cbn.
    pose proof (writeMessage_fields request (mgr s)) as (_ & Ec & _).
    split; [destruct (writeMessage request (mgr s)) as [lsp' [e|]]; cbn in *;
            by rewrite Ec|].
    intros j c id' Hj Ho.
    destruct (decide (j = i0)) as [->|Hji].
    + apply (Hu i0 (CallRegistered id ch0 request) id); [done|].
      cbn in Hj. rewrite list_lookup_insert_eq in Hj by by eapply lookup_lt_Some.
      injection Hj as <-.
      destruct (writeMessage request (mgr s)) as [lsp' [e|]]; cbn in Ho |- *;
        congruence.
    + cbn in Hj. rewrite list_lookup_insert_ne in Hj by done. by eapply Hu.
  - (* the removal after a failed write *)
    subst r. cbn. split; [done|].
    intros j c id' Hj Ho.
    destruct (decide (j = i0)) as [->|Hji].
    + cbn in Hj. rewrite list_lookup_insert_eq in Hj by by eapply lookup_lt_Some.
      injection Hj as <-. discriminate.
    + cbn in Hj. rewrite list_lookup_insert_ne in Hj by done. by eapply Hu.
  - (* a receive *)
    apply receive_inv in H1 as (id1 & ch1 & chan & m & chan' & -> & Hch & Hp & -> & ->).
    split; [cbn; by rewrite length_insert|].
    intros j c id' Hj Ho.
    destruct (decide (j = i0)) as [->|Hji].
    + cbn in Hj. rewrite list_lookup_insert_eq in Hj by by eapply lookup_lt_Some.
      injection Hj as <-. discriminate.
    + cbn in Hj. rewrite list_lookup_insert_ne in Hj by done. by eapply Hu.
  - (* a notification *)
    pose proof (writeMessage_fields (notification_frame method params) (mgr s))
      as (_ & Ec & _).
    split; [|done]. cbn. unfold SendNotification. by rewrite Ec.
  - (* a turn of the reader *)
    subst r. cbn. split; [|done].
    unfold readMessages_iteration.
    destruct (running (mgr s)); cbn; [|done].
    destruct (read_frame (stdout (mgr s))) as [|rest|body rest]; cbn; try done.
    destruct (Unmarshal_msg body) as [msg|] eqn:Hmsg; cbn; [|done].
    destruct (dispatch body msg (set_stdout (mgr s) rest)) as [lsp'|] eqn:Hd;
      cbn; [|exact Hlt].
    unfold dispatch in Hd. cbn in Hd.
    destruct (ID msg) as [id1|].
    + destruct (responseHandlers (mgr s) !! id1) as [ch1|].
      * destruct (chans (mgr s) !! ch1) as [chan|]; cbn in Hd; [|done].
        destruct (match cap chan with O => _ | _ => _ end); [|discriminate Hd].
        injection Hd as <-. cbn.
        by rewrite length_insert.
      * by injection Hd as <-.
    + by destruct (bool_decide _); injection Hd as <-.
  - done.
  - done.
  - done.
Qed.

Lemma sole_owner_run s ls s' i ch :
  run s ls s' -> (ch < length (chans (mgr s)))%nat ->
  (forall j c id', calls s !! j = Some c -> owner c = Some (id', ch) -> j = i) ->
  forall j c id', calls s' !! j = Some c -> owner c = Some (id', ch) -> j = i.
Proof.
  intros Hr. induction Hr as [|s l s1 ls s2 Hs Hr IH]; [done|].
  intros Hlt Hu. destruct (sole_owner_step s l s1 i ch Hs Hlt Hu) as [Hlt1 Hu1].
  by apply IH.
Qed.

Lemma stranded_step s l s' i id ch err content :
  wf s -> step s l s' ->
  stranded s i id ch err content -> stranded s' i id ch err content.
Proof.
  intros W Hs (Hi & Hc & Hu). pose proof W as [W1 W2 W3 W4 W5].
  assert (Hlt : (ch < length (chans (mgr s)))%nat) by by eapply lookup_lt_Some.
  assert (Hnot : forall id1 ch1 req, calls s !! i <> Some (CallRegistered id1 ch1 req))
    by (intros id1 ch1 req; destruct Hi as [-> | ->]; discriminate).
  assert (Hnot' : forall id1 ch1, calls s !! i <> Some (CallAwaiting id1 ch1))
    by (intros id1 ch1; destruct Hi as [-> | ->]; discriminate).
  destruct Hs.
  - (* a new call *)
    subst r. unfold SendRequest_enter.
    destruct (negb (running (mgr s))); cbn.
    + split; [destruct Hi as [Hi|Hi]; [left|right]; by apply lookup_app_l_Some|].
      split; [done|].
      intros j c id' Hj Ho. apply lookup_app_Some in Hj as [Hj|[_ Hj]].
      * by eapply Hu.
      * apply list_lookup_singleton_Some in Hj as [_ <-]. discriminate.
    + split; [destruct Hi as [Hi|Hi]; [left|right]; by apply lookup_app_l_Some|].
      split; [by apply lookup_app_l_Some|].
      intros j c id' Hj Ho. apply lookup_app_Some in Hj as [Hj|[_ Hj]].
      * by eapply Hu.
      * apply list_lookup_singleton_Some in Hj as [_ <-]. cbn in Ho.
        injection Ho as _ Hch. lia.
  - (* a write *)
    subst r. cbn.
    pose proof (writeMessage_fields request (mgr s)) as (_ & Ec & _).
    destruct (decide (i0 = i)) as [->|Hne]; [by destruct (Hnot id0 ch0 request)|].
    split; [cbn; by rewrite list_lookup_insert_ne|].
    split; [destruct (writeMessage request (mgr s)) as [lsp' [e|]]; cbn in *;
            by rewrite Ec|].
    intros j c id' Hj Ho.
    destruct (decide (j = i0)) as [->|Hji].
    + apply (Hu i0 (CallRegistered id0 ch0 request) id0); [done|].
      cbn in Hj. rewrite list_lookup_insert_eq in Hj by by eapply lookup_lt_Some.
      injection Hj as <-.
      destruct (writeMessage request (mgr s)) as [lsp' [e|]]; cbn in Ho |- *;
        congruence.
    + cbn in Hj. rewrite list_lookup_insert_ne in Hj by done. by eapply Hu.
  - (* the removal after a failed write *)
    subst r. cbn.
    destruct (decide (i0 = i)) as [->|Hne].
    + split.
      * right. cbn. rewrite list_lookup_insert_eq by by eapply lookup_lt_Some.
        destruct Hi as [Hi|Hi]; rewrite Hi in H0; [|discriminate].
        injection H0 as _ _ Herr. by rewrite Herr.
      * split; [done|]. intros j c id' Hj Ho.
        destruct (decide (j = i)) as [->|Hji]; [done|].
        cbn in Hj. rewrite list_lookup_insert_ne in Hj by done. by eapply Hu.
    + split; [cbn; by rewrite list_lookup_insert_ne|]. split; [done|].
      intros j c id' Hj Ho.
      destruct (decide (j = i0)) as [->|Hji].
      * cbn in Hj. rewrite list_lookup_insert_eq in Hj by by eapply lookup_lt_Some.
        injection Hj as <-. discriminate.
      * cbn in Hj. rewrite list_lookup_insert_ne in Hj by done. by eapply Hu.
  - (* a receive *)
    apply receive_inv in H1 as (id1 & ch1 & chan & m & chan' & -> & Hch & Hp & -> & ->).
    destruct (decide (i0 = i)) as [->|Hne]; [by destruct (Hnot' id1 ch1)|].
    assert (Hch1 : ch1 <> ch).
    { intros ->. apply Hne. by apply (Hu i0 (CallAwaiting id1 ch) id1). }
    split; [cbn; by rewrite list_lookup_insert_ne|].
    split; [cbn; by rewrite list_lookup_insert_ne|].
    intros j c id' Hj Ho.
    destruct (decide (j = i0)) as [->|Hji].
    + cbn in Hj. rewrite list_lookup_insert_eq in Hj by by eapply lookup_lt_Some.
      injection Hj as <-. discriminate.
    + cbn in Hj. rewrite list_lookup_insert_ne in Hj by done. by eapply Hu.
  - (* a notification *)
    pose proof (writeMessage_fields (notification_frame method params) (mgr s))
      as (_ & Ec & _).
    split; [done|]. split; [|done].
    cbn. unfold SendNotification. by rewrite Ec.
  - (* a turn of the reader *)
    subst r. cbn. split; [done|]. split; [|done].
    unfold readMessages_iteration.
    destruct (running (mgr s)); cbn; [|done].
    destruct (read_frame (stdout (mgr s))) as [|rest|body rest]; cbn; try done.
    destruct (Unmarshal_msg body) as [msg|] eqn:Hmsg; cbn; [|done].
    destruct (ID msg) as [id1|] eqn:Hid.
    + destruct (responseHandlers (mgr s) !! id1) as [ch1|] eqn:Hl.
      * rewrite (dispatch_matched s body msg id1 ch1 rest W Hid Hl). cbn.
        rewrite list_lookup_insert_ne; [done|].
        intros ->. rewrite (W1 _ _ Hl) in Hc. discriminate.
      * by rewrite dispatch_unmatched with (id := id1).
    + rewrite dispatch_notification by done. cbn. by case_bool_decide.
  - done.
  - done.
  - done.
Qed.

Lemma stranded_run s ls s' i id ch err content :
  wf s -> run s ls s' ->
  stranded s i id ch err content -> stranded s' i id ch err content.
Proof.
  intros W Hr A. induction Hr; [done|].
  apply IHHr; [by eapply wf_step|by eapply stranded_step].
Qed.

(** C3 (amended). In every state a started manager can reach, when the
    reader takes a frame whose id has a live entry in the pending table:
    the call that registered the id is the only one on the channel of
    the entry, the channel now holds the whole body, every other channel
    and the notification channel are as before, the entry is gone and
    the reader goes on.  In every continuation no other call comes to
    own the channel, and the body stays there while the call is in
    flight: a call that waits for its response can receive it, and
    receives this body when it does; a call whose write has failed, or
    fails, leaves with the error of the write and never receives it.  A
    frame whose id has no entry changes nothing but the position in the
    stream. *)
Theorem reader_delivers_response (out : string) (ls : list label) (s : System)
        (content : RawMessage) (rest : string) (msg : IncomingMsg) (id : Z) :
  run (started out) ls s -> running (mgr s) = true ->
  read_frame (stdout (mgr s)) = FrameOk content rest ->
  Unmarshal_msg content = Some msg -> ID msg = Some id ->
  let s' := after_reader s in
  match responseHandlers (mgr s) !! id with
  | Some ch =>
      exists i c,
        calls s !! i = Some c /\ owner c = Some (id, ch)
        /\ (forall j c' id', calls s !! j = Some c' ->
                             owner c' = Some (id', ch) -> j = i)
        /\ chans (mgr s') !! ch =
           Some {| buf := [content]; cap := 1; closed := false |}
        /\ (forall ch', ch' <> ch -> chans (mgr s') !! ch' = chans (mgr s) !! ch')
        /\ responseHandlers (mgr s') = delete id (responseHandlers (mgr s))
        /\ responseHandlers (mgr s') !! id = None
        /\ notificationChan (mgr s') = notificationChan (mgr s)
        /\ reader s' = ReaderRunning
        /\ calls s' = calls s
        /\ forall ls' s'', run s' ls' s'' ->
             (forall j c' id', calls s'' !! j = Some c' ->
                               owner c' = Some (id', ch) -> j = i)
             /\ exists c'',
                 calls s'' !! i = Some c'' /\ fate c content c''
                 /\ (is_Some (owner c'') ->
                     chans (mgr s'') !! ch =
                       Some {| buf := [content]; cap := 1; closed := false |})
                 /\ (c'' = CallAwaiting id ch ->
                     exists lsp'', SendRequest_receive c'' (mgr s'') =
                                   Some (lsp'', CallReturned (Some content) None))
  | None =>
      mgr s' = set_stdout (mgr s) rest /\ reader s' = ReaderRunning
  end.
Proof.
  intros Hrun R F U Hid.
  pose proof (wf_run _ _ _ (wf_started out) Hrun) as W.
  pose proof (wf_reader_step s W) as W'. cbn zeta in W'.
  fold (after_reader s) in W'.
  assert (Hstep : after_reader s =
                  {| mgr := (readMessages_iteration (mgr s)).1;
                     reader := (readMessages_iteration (mgr s)).2;
                     calls := calls s |}) by done.
  cbn zeta. rewrite Hstep in W' |- *. clear Hstep.
  rewrite (iteration_frame _ _ _ _ R F U) in W' |- *.
  destruct (responseHandlers (mgr s) !! id) as [ch|] eqn:Hl.
  - rewrite (dispatch_matched s content msg id ch rest W Hid Hl) in W' |- *.
    cbn [fst snd mgr reader calls] in W' |- *.
    pose proof (wf_fresh _ W _ _ Hl) as Hc.
    assert (Hlt : (ch < length (chans (mgr s)))%nat) by by eapply lookup_lt_Some.
    destruct (wf_owner _ W _ _ Hl) as (i & c & Hi & Ho).
    exists i, c.
    assert (Hdel : chans (set_table (set_stdout (mgr s) rest) (messageID (mgr s))
                            (delete id (responseHandlers (mgr s)))
                            (<[ch := {| buf := [content]; cap := 1; closed := false |}]>
                               (chans (mgr s)))) !! ch
                   = Some {| buf := [content]; cap := 1; closed := false |})
      by (cbn; by apply list_lookup_insert_eq).
    split; [done|]. split; [done|].
    split; [intros j c' id' Hj Ho'; by eapply (wf_unique _ W j i)|].
    split; [exact Hdel|].
    split; [intros ch' Hne; cbn; by rewrite list_lookup_insert_ne|].
    split; [done|]. split; [cbn; apply lookup_delete_eq|].
    split; [done|]. split; [done|]. split; [done|].
    intros ls' s'' Hcont.
    set (s1 := {| mgr := _; reader := ReaderRunning; calls := calls s |}) in *.
    assert (A : answered s1 i c ch content).
    { exists c. split; [done|]. split; [|done].
      destruct c; cbn in Ho |- *; try discriminate; by left. }
    destruct (answered_run s1 ls' s'' i c id ch content W' Hcont Ho A)
      as (W'' & c'' & Hi'' & Hf'' & Hc'').
    split.
    { apply (sole_owner_run s1 ls' s'' i ch Hcont).
      - subst s1. cbn. by rewrite length_insert.
      - intros j c' id' Hj Ho'. by eapply (wf_unique _ W j i). }
    exists c''. split; [done|]. split; [done|]. split; [done|].
    intros ->. unfold SendRequest_receive.
    rewrite (Hc'' ltac:(by eexists)). cbn. eauto.
  - rewrite dispatch_unmatched with (id := id) by done. done.
Qed.

End Reader.

Section RequestIds.
Import Go Engine Vocabulary.
Context `{JSONCodec}.

Lemma wrap64_small (z : Z) : min_int <= z <= max_int -> wrap64 z = z.
Proof.
  unfold wrap64, min_int, max_int. intros Hz. rewrite Z.mod_small; lia.
Qed.

Lemma wrap64_overflow : wrap64 (max_int + 1) = min_int.
Proof. reflexivity. Qed.

Lemma dispatch_messageID content msg lsp lsp' :
  dispatch content msg lsp = Some lsp' ->
  messageID lsp' = messageID lsp /\ running lsp' = running lsp.
Proof.
  unfold dispatch. destruct (ID msg) as [id|].
  - destruct (responseHandlers lsp !! id) as [ch|]; [|by intros [= <-]].
    destruct (chans lsp !! ch) as [chan|]; simpl; [|done].
    destruct (has_room chan); [|done]. by intros [= <-].
  - case_bool_decide; by intros [= <-].
Qed.

Lemma iteration_messageID lsp :
  messageID (readMessages_iteration lsp).1 = messageID lsp /\
  running (readMessages_iteration lsp).1 = running lsp.
Proof.
  unfold readMessages_iteration. destruct (running lsp) eqn:R; simpl; [|done].
  destruct (read_frame (stdout lsp)) as [|rest|content rest]; simpl; try done.
  destruct (Unmarshal_msg content) as [msg|]; simpl; [|done].
  destruct (dispatch content msg (set_stdout lsp rest)) as [lsp'|] eqn:D;
    simpl; [|done].
  apply dispatch_messageID in D as [E1 E2]. simpl in *. by rewrite E1, E2.
Qed.

(** What a step does to the counter: a call that registers takes the
    successor (wrapped) as its id; nothing else touches it. *)
Lemma step_messageID s l s' :
  step s l s' ->
  match l with
  | LCall (CallRegistered id _ _) =>
      id = wrap64 (messageID (mgr s) + 1) /\ messageID (mgr s') = id
  | _ => messageID (mgr s') = messageID (mgr s)
  end.
Proof.
  destruct 1; simpl.
  - unfold SendRequest_enter in *. subst r.
    destruct (running (mgr s)); simpl; done.
  - subst r. simpl.
    pose proof (writeMessage_fields request (mgr s)) as (_ & _ & Em & _).
    destruct (writeMessage request (mgr s)) as [lsp' [err|]]; simpl in *; done.
  - done.
  - apply receive_inv in H1 as (id & ch & chan & m & chan' & -> & _ & _ & -> & ->).
    done.
  - by pose proof (writeMessage_fields (notification_frame method params) (mgr s))
      as (_ & _ & Em & _).
  - subst r. apply iteration_messageID.
  - done.
  - done.
  - done.
Qed.

Lemma run_allocated s ls s' :
  run s ls s' ->
  0 <= messageID (mgr s) ->
  messageID (mgr s) + Z.of_nat (length (allocated ls)) <= max_int ->
  messageID (mgr s') = messageID (mgr s) + Z.of_nat (length (allocated ls))
  /\ forall i id, allocated ls !! i = Some id ->
                  id = messageID (mgr s) + Z.of_nat i + 1.
Proof.
  induction 1 as [s|s l s1 ls s2 Hstep Hrun IH]; intros H0 Hmax.
  - simpl. split; [lia|]. intros i id Hi. by rewrite lookup_nil in Hi.
  - apply step_messageID in Hstep.
    destruct l as [[id0 ch0 rq0| | |]| | | | | | | |]; simpl in *;
      try (rewrite Hstep in IH; by apply IH).
    destruct Hstep as [Eid Em].
    rewrite wrap64_small in Eid by (unfold min_int, max_int in *; lia).
    destruct IH as [IH1 IH2]; [lia..|].
    split; [lia|].
    intros [|i] id Hi; simpl in Hi.
    + injection Hi as <-. lia.
    + apply IH2 in Hi. lia.
Qed.

Lemma started_messageID out : messageID (mgr (started out)) = 0.
Proof. reflexivity. Qed.

(** C4 (amended). In every run of a started manager that allocates no
    more than [max_int] ids, the i-th request gets the id i (counting
    from one): each id is greater than all earlier ones and none
    repeats. *)
Theorem request_ids_increase (out : string) (ls : list label) (s : System) :
  run (started out) ls s ->
  Z.of_nat (length (allocated ls)) <= max_int ->
  (forall i id, allocated ls !! i = Some id -> id = Z.of_nat i + 1)
  /\ (forall i j idi idj,
        (i < j)%nat -> allocated ls !! i = Some idi ->
        allocated ls !! j = Some idj -> idi < idj).
Proof.
  intros Hrun Hmax.
  destruct (run_allocated _ _ _ Hrun) as [_ Hids].
  { by rewrite started_messageID. }
  { by rewrite started_messageID. }
  rewrite started_messageID in Hids.
  split.
  - intros i id Hi. apply Hids in Hi. lia.
  - intros i j idi idj Hij Hi Hj. apply Hids in Hi, Hj. lia.
Qed.

Lemma run_snoc s ls s1 l s2 :
  run s ls s1 -> step s1 l s2 -> run s (ls ++ [l]) s2.
Proof.
  induction 1; intros Hs; simpl.
  - econstructor; [done|constructor].
  - econstructor; eauto.
Qed.

Lemma allocated_app ls ls' : allocated (ls ++ ls') = (allocated ls ++ allocated ls')%list.
Proof.
  induction ls as [|[[]| | | | | | | |] ls IH]; simpl; by rewrite ?IH.
Qed.

(** Any number of requests can be made in a row. *)
Lemma calls_in_a_row out (n : nat) :
  Z.of_nat n <= max_int ->
  exists ls s, run (started out) ls s /\ length (allocated ls) = n /\
               messageID (mgr s) = Z.of_nat n /\ running (mgr s) = true.
Proof.
  induction n as [|n IH]; intros Hn.
  - exists [], (started out). repeat split. constructor.
  - destruct IH as (ls & s & Hrun & Hlen & Hm & Hr); [lia|].
    pose proof (step_call s "m" VNil) as Hs. simpl in Hs.
    unfold SendRequest_enter in Hs. rewrite Hr in Hs. simpl in Hs.
    eexists _, _. split; [eapply run_snoc; [exact Hrun|exact Hs]|].
    rewrite allocated_app, length_app. simpl. repeat split; try done; try lia.
    rewrite Hm. rewrite wrap64_small; unfold min_int, max_int in *; lia.
Qed.

(** Past [max_int] requests the counter wraps: the next id is the least
    [int], below every id handed out before. *)
Lemma ids_wrap out :
  exists ls s i j idi idj,
    run (started out) ls s /\ (i < j)%nat /\
    allocated ls !! i = Some idi /\ allocated ls !! j = Some idj /\
    idj < idi.
Proof.
  destruct (calls_in_a_row out (Z.to_nat max_int)) as (ls & s & Hrun & Hlen & Hm & Hr).
  { rewrite Z2Nat.id; unfold max_int; lia. }
  pose proof (step_call s "m" VNil) as Hs. simpl in Hs.
  unfold SendRequest_enter in Hs. rewrite Hr in Hs. simpl in Hs.
  rewrite Hm, Z2Nat.id in Hs by (unfold max_int; lia).
  rewrite wrap64_overflow in Hs.
  pose proof (run_snoc _ _ _ _ _ Hrun Hs) as Hrun'.
  assert (Hpos : (0 < length (allocated ls))%nat).
  { rewrite Hlen. apply Nat2Z.inj_lt. rewrite Z2Nat.id; unfold max_int; lia. }
  destruct (allocated ls) as [|id0 ids] eqn:Ea; [simpl in Hpos; lia|].
  destruct (run_allocated _ _ _ Hrun) as [_ Hids].
  { by rewrite started_messageID. }
  { rewrite started_messageID, Ea, Hlen, Z2Nat.id; unfold max_int; lia. }
  rewrite Ea in Hids. pose proof (Hids O id0 eq_refl) as E0.
  rewrite started_messageID in E0. simpl in E0.
  eexists _, _, O, (length (id0 :: ids)), id0, min_int.
  split; [exact Hrun'|]. rewrite allocated_app, Ea. simpl.
  repeat split.
  - lia.
  - rewrite lookup_app_r by (simpl; lia). by rewrite Nat.sub_diag.
  - subst id0. unfold min_int. lia.
Qed.

End RequestIds.

Section ReaderStop.
Import Go Engine Vocabulary.
Context `{JSONCodec}.








Lemma Forall_insert_closed (cs : list Chan) i c :
  Forall (fun c => closed c = false) cs -> closed c = false ->
  Forall (fun c => closed c = false) (<[i := c]> cs).
Proof. intros. by apply Forall_insert. Qed.






End ReaderStop.

Section Routing.
Import Go Engine Registry Vocabulary.
Context `{JSONCodec}.

Lemma HasSuffix_spec (s suffix : string) :
  HasSuffix s suffix = true <-> ends_with s suffix.
Proof.
  unfold HasSuffix, ends_with. rewrite andb_true_iff, Nat.leb_le, String.eqb_eq.
  split.
  - intros [Hle Hd]. exists (str_take (String.length s - String.length suffix) s).
    pose proof (str_take_drop (String.length s - String.length suffix) s) as E.
    by rewrite Hd in E.
  - intros [stem ->]. rewrite str_length_app. split; [lia|].
    replace (String.length stem + String.length suffix - String.length suffix)%nat
      with (String.length stem) by lia.
    apply str_drop_app_length.
Qed.

Lemma HasSuffix_false (s suffix : string) :
  HasSuffix s suffix = false <-> ~ ends_with s suffix.
Proof.
  rewrite <- HasSuffix_spec. by destruct (HasSuffix s suffix).
Qed.

Lemma last_byte_app (a b : string) :
  b <> EmptyString -> last_byte (a +:+ b) = last_byte b.
Proof.
  intros Hb. induction a as [|c a IH]; [done|].
  rewrite str_app_cons. simpl. rewrite IH.
  destruct (a +:+ b) eqn:E; [|done].
  destruct a; [|done]. by rewrite str_app_nil_l in E.
Qed.

Lemma ends_with_last (s suffix : string) (c : ascii) :
  ends_with s suffix -> last_byte suffix = Some c -> last_byte s = Some c.
Proof.
  intros [stem ->] Hl. rewrite last_byte_app; [done|]. by intros ->.
Qed.

(** No path ends both with [.py] and with one of the C suffixes. *)
Lemma py_not_c (path : string) :
  ends_with path ".py" ->
  ~ (ends_with path ".c" \/ ends_with path ".cc" \/ ends_with path ".cpp" \/
     ends_with path ".cxx" \/ ends_with path ".h" \/ ends_with path ".hpp").
Proof.
  intros Hpy Hc.
  pose proof (ends_with_last _ _ "y"%char Hpy eq_refl) as Hy.
  destruct Hc as [Hc|[Hc|[Hc|[Hc|[Hc|Hc]]]]];
    eapply ends_with_last in Hc; [|reflexivity| |reflexivity| |reflexivity|
                                   |reflexivity| |reflexivity| |reflexivity];
    rewrite Hy in Hc; discriminate.
Qed.

(** [detectLanguageForLSP] implements the policy. *)
Lemma detectLanguageForLSP_policy (path : string) :
  (forall language, policy path language -> detectLanguageForLSP path = language)
  /\ ((forall language, ~ policy path language) -> detectLanguageForLSP path = "").
Proof.
  unfold detectLanguageForLSP. split.
  - intros language [[Hpy ->]|[Hc ->]].
    + apply HasSuffix_spec in Hpy. by rewrite Hpy.
    + destruct (HasSuffix path ".py") eqn:Epy.
      { apply HasSuffix_spec in Epy. by destruct (py_not_c _ Epy). }
      rewrite <- !HasSuffix_spec in Hc.
      destruct Hc as [Hc|[Hc|[Hc|[Hc|[Hc|Hc]]]]]; rewrite Hc;
        by rewrite ?orb_true_r.
  - intros Hno.
    destruct (HasSuffix path ".py") eqn:Epy.
    { apply HasSuffix_spec in Epy. destruct (Hno "python"). by left. }
    destruct (HasSuffix path ".cpp" || HasSuffix path ".cc" ||
              HasSuffix path ".cxx" || HasSuffix path ".c" ||
              HasSuffix path ".h" || HasSuffix path ".hpp") eqn:Ec; [|done].
    destruct (Hno "cpp"). right. split; [|done].
    rewrite !orb_true_iff, !HasSuffix_spec in Ec. tauto.
Qed.

Lemma policy_languages path language :
  policy path language -> language = "python" \/ language = "cpp".
Proof. intros [[_ ->]|[_ ->]]; auto. Qed.

Lemma extract_no_uri (params : value) :
  textDocument_uri params = None ->
  exists e, extractLanguageFromParams params = ("", Some e) /\ kind_of e = BadParams.
Proof.
  unfold textDocument_uri, extractLanguageFromParams, index_map.
  destruct params as [| | | | | |fields]; simpl;
    try (intros _; by exists ErrParamsNotMap).
  destruct (fields !! "textDocument") as [[| | | | | |td]|]; simpl;
    try (intros _; by exists ErrTextDocumentNotFound).
  destruct (td !! "uri") as [[| | | |uri| |]|]; simpl;
    try (intros _; by exists ErrUriNotFound).
  done.
Qed.

Lemma extract_uri (params : value) (uri : string) :
  textDocument_uri params = Some uri ->
  extractLanguageFromParams params =
  let filePath := TrimPrefix uri "file://" in
  if String.eqb (detectLanguageForLSP filePath) ""
  then ("", Some (ErrCouldNotDetect filePath))
  else (detectLanguageForLSP filePath, None).
Proof.
  unfold textDocument_uri, extractLanguageFromParams, index_map.
  destruct params as [| | | | | |fields]; simpl; try done.
  destruct (fields !! "textDocument") as [[| | | | | |td]|]; simpl; try done.
  destruct (td !! "uri") as [[| | | |u| |]|]; simpl; try done.
  by intros [= ->].
Qed.

Lemma registered_manager m language r :
  reg_inv m -> lspServers m !! language = Some r ->
  exists lsp, managers m !! r = Some lsp.
Proof.
  intros I Hl. apply lookup_lt_is_Some.
  eapply inv_bound; [done|]. by eapply inv_registered.
Qed.

(** C6. Routing a request or a notification: without a string at
    [params.textDocument.uri] both fail with a bad-parameters error; with
    one, the [file://] prefix is stripped and the language is the one the
    suffix policy gives.  No language: unknown-language error.  A
    language without a registered manager: no-engine error.  Otherwise
    the message goes to the manager registered for that language and to
    no other: it alone changes in the store.  On every failure the
    registry is left as it was.  (The registry is one that [StartLSP]
    and the other operations have built: [reg_inv].) *)
Theorem route_by_language (method : string) (params : value) (m : MultiLSPManager) :
  reg_inv m ->
  (textDocument_uri params = None ->
     exists e, kind_of e = BadParams /\
       RouteRequest_begin method params m = (m, None, CallReturned None (Some e)) /\
       RouteNotification method params m = (m, Some e))
  /\
  (forall uri, textDocument_uri params = Some uri ->
     let path := TrimPrefix uri "file://" in
     ((forall language, ~ policy path language) ->
        exists e, kind_of e = UnknownLanguage /\
          RouteRequest_begin method params m = (m, None, CallReturned None (Some e)) /\
          RouteNotification method params m = (m, Some e))
     /\
     (forall language, policy path language ->
        match lspServers m !! language with
        | None =>
            exists e, kind_of e = NoEngine /\
              RouteRequest_begin method params m =
                (m, None, CallReturned None (Some e)) /\
              RouteNotification method params m = (m, Some e)
        | Some r =>
            exists lsp, managers m !! r = Some lsp /\
              let entered := SendRequest_enter method params lsp in
              let written := SendRequest_write entered.2 entered.1 in
              let sent := SendRequest_cleanup written.2 written.1 in
              RouteRequest_begin method params m =
                (set_managers m (<[r := sent.1]> (managers m)), Some r, sent.2)
              /\
              RouteNotification method params m =
                (set_managers m
                   (<[r := (Engine.SendNotification method params lsp).1]> (managers m)),
                 (Engine.SendNotification method params lsp).2)
        end)).
Proof.
  intros I. split.
  - intros Hu. destruct (extract_no_uri _ Hu) as (e & He & Hk).
    exists e. unfold RouteRequest_begin, RouteNotification. by rewrite He.
  - intros uri Hu path.
    pose proof (extract_uri _ _ Hu) as He. fold path in He. simpl in He.
    destruct (detectLanguageForLSP_policy path) as [Hyes Hno].
    split.
    + intros Hnone. rewrite (Hno Hnone) in He. simpl in He.
      exists (ErrCouldNotDetect path).
      unfold RouteRequest_begin, RouteNotification. by rewrite He.
    + intros language Hp. rewrite (Hyes _ Hp) in He.
      assert (String.eqb language "" = false) as E.
      { by destruct (policy_languages _ _ Hp) as [-> | ->]. }
      rewrite E in He.
      unfold RouteRequest_begin, RouteNotification. rewrite He.
      unfold SendRequest_begin, Registry.SendNotification.
      destruct (lspServers m !! language) as [r|] eqn:Hreg.
      * destruct (registered_manager _ _ _ I Hreg) as [lsp Hl].
        exists lsp. split; [done|]. rewrite Hl. simpl.
        destruct (SendRequest_enter method params lsp) as [lsp1 c1]. simpl.
        destruct (SendRequest_write c1 lsp1) as [lsp2 c2]. simpl.
        destruct (SendRequest_cleanup c2 lsp2) as [lsp3 c3]. simpl.
        split; [done|].
        by destruct (Engine.SendNotification method params lsp).
      * by exists (ErrNoServer language).
Qed.

End Routing.

Section RegistryInvariant.
Import Go Engine Registry Vocabulary.

Lemma only_shut_refl ms : only_shut ms ms.
Proof. split; [done|]. intros r lsp' Hl. exists lsp'. auto. Qed.

Lemma Shutdown_idem lsp : Shutdown (Shutdown lsp) = Shutdown lsp.
Proof.
  unfold Shutdown, shutdown. simpl. destruct (cmd lsp) as [c|]; [|done].
  by destruct (running lsp && bool_decide (is_Some (Process c))).
Qed.

Lemma only_shut_alter r ms : only_shut ms (alter Shutdown r ms).
Proof.
  split; [apply length_alter|]. intros r' lsp'. rewrite list_lookup_alter.
  case_decide as E; [subst r'|by eauto].
  destruct (ms !! r) as [lsp|]; simpl; [|done]. intros [= <-]. eauto.
Qed.

Lemma only_shut_trans ms1 ms2 ms3 :
  only_shut ms1 ms2 -> only_shut ms2 ms3 -> only_shut ms1 ms3.
Proof.
  intros [L1 H1] [L2 H2]. split; [congruence|]. intros r lsp3 Hl.
  destruct (H2 _ _ Hl) as (lsp2 & Hl2 & E2).
  destruct (H1 _ _ Hl2) as (lsp1 & Hl1 & E1).
  exists lsp1. split; [done|].
  destruct E2 as [-> | ->], E1 as [-> | ->]; auto.
  right. apply Shutdown_idem.
Qed.

Lemma Shutdown_dead lsp :
  (running lsp = false -> child_alive lsp = false) ->
  child_alive (Shutdown lsp) = false.
Proof.
  unfold Shutdown, shutdown, child_alive. simpl.
  destruct (cmd lsp) as [[p a [[]|]]|]; destruct (running lsp); simpl; auto.
Qed.

Lemma only_shut_running ms ms' r lsp' :
  only_shut ms ms' -> ms' !! r = Some lsp' -> running lsp' = true ->
  ms !! r = Some lsp'.
Proof.
  intros [_ Hs] Hl Hr. destruct (Hs _ _ Hl) as (lsp & Hl0 & [-> | ->]); done.
Qed.

Lemma only_shut_dead ms ms' :
  only_shut ms ms' ->
  (forall r lsp, ms !! r = Some lsp -> running lsp = false -> child_alive lsp = false) ->
  forall r lsp, ms' !! r = Some lsp -> running lsp = false -> child_alive lsp = false.
Proof.
  intros [_ Hs] Hd r lsp' Hl Hr.
  destruct (Hs _ _ Hl) as (lsp & Hl0 & [-> | ->]); [eauto|].
  apply Shutdown_dead. eauto.
Qed.

Lemma after_shutdown_only_shut language m :
  only_shut (managers m) (after_shutdown language m).
Proof.
  unfold after_shutdown. destruct (lspServers m !! language);
    [apply only_shut_alter|apply only_shut_refl].
Qed.

Lemma after_shutdown_stops language m r lsp :
  lspServers m !! language = Some r ->
  after_shutdown language m !! r = Some lsp -> running lsp = false.
Proof.
  unfold after_shutdown. intros ->. rewrite list_lookup_alter_eq.
  destruct (managers m !! r); simpl; [|done]. by intros [= <-].
Qed.

Lemma StartLSP_fails language serverPath dir err m :
  StartLSP language serverPath dir (SpawnFails err) m =
  (set_managers m (after_shutdown language m),
   Some (ErrFailedToStart language err)).
Proof. done. Qed.

Lemma StartLSP_ok language serverPath dir out m :
  StartLSP language serverPath dir (SpawnOk out) m =
  ({| lspServers := <[language := length (after_shutdown language m)]> (lspServers m);
      notificationChan := notificationChan m;
      managers := after_shutdown language m ++
                  [(Start serverPath dir (SpawnOk out) NewLSPManager).1];
      forwarders := forwarders m ++ [(language, length (after_shutdown language m))] |},
   None).
Proof. done. Qed.

(** Shutting managers down keeps the invariant, provided the ones still
    registered and running were left alone. *)
Lemma reg_inv_only_shut m ms' :
  reg_inv m -> only_shut (managers m) ms' -> reg_inv (set_managers m ms').
Proof.
  intros [I1 I2 I3 I4 I5] Hs. pose proof Hs as [Hlen _].
  split; simpl; unfold started_for, engine_running in *; simpl.
  - done.
  - intros. rewrite Hlen. eauto.
  - done.
  - intros language r Hf (lsp & Hl & Hr). apply I4; [done|].
    exists lsp. split; [|done]. by eapply only_shut_running.
  - by eapply only_shut_dead.
Qed.

Lemma StartLSP_inv language serverPath dir os m :
  reg_inv m -> reg_inv (StartLSP language serverPath dir os m).1.
Proof.
  intros I. pose proof (after_shutdown_only_shut language m) as Hs.
  destruct os as [err|out].
  - rewrite StartLSP_fails. simpl. by apply reg_inv_only_shut.
  - rewrite StartLSP_ok. simpl.
    pose proof (reg_inv_only_shut _ _ I Hs) as [I1 I2 I3 I4 I5].
    unfold started_for, engine_running in *. simpl in *.
    set (ms := after_shutdown language m) in *.
    split; simpl; unfold started_for, engine_running; simpl.
    + intros l r. rewrite lookup_insert. case_decide as E.
      * intros [= <-]. subst l. set_solver.
      * intros Hl. apply I1 in Hl. set_solver.
    + intros l r Hf. rewrite length_app. simpl.
      apply elem_of_app in Hf as [Hf|Hf].
      * apply I2 in Hf. lia.
      * apply list_elem_of_singleton in Hf; injection Hf as -> ->. lia.
    + intros l l' r Hf Hf'.
      apply elem_of_app in Hf as [Hf|Hf]; apply elem_of_app in Hf' as [Hf'|Hf'].
      * eauto.
      * apply list_elem_of_singleton in Hf'; injection Hf' as -> ->. apply I2 in Hf. lia.
      * apply list_elem_of_singleton in Hf; injection Hf as -> ->. apply I2 in Hf'. lia.
      * apply list_elem_of_singleton in Hf; injection Hf as -> ->.
        apply list_elem_of_singleton in Hf'. by injection Hf' as ->.
    + intros l r Hf (lsp & Hl & Hr).
      apply elem_of_app in Hf as [Hf|Hf].
      * pose proof (I2 _ _ Hf) as Hlt.
        rewrite lookup_app_l in Hl by done.
        assert (lspServers m !! l = Some r) as Hreg by (apply I4; eauto).
        rewrite lookup_insert. case_decide as E; [|done]. subst l.
        pose proof (after_shutdown_stops _ _ _ _ Hreg Hl). congruence.
      * apply list_elem_of_singleton in Hf; injection Hf as -> ->.
        by rewrite lookup_insert_eq.
    + intros r lsp Hl Hr.
      apply lookup_app_Some in Hl as [Hl|[_ Hl]]; [eauto|].
      apply list_lookup_singleton_Some in Hl as [_ <-]. done.
Qed.

Lemma NewMultiLSPManager_inv : reg_inv NewMultiLSPManager.
Proof.
  split; unfold started_for; simpl; try done.
  - intros ? ? Hf. by apply elem_of_nil in Hf.
  - intros ? ? ? Hf. by apply elem_of_nil in Hf.
  - intros ? ? Hf. by apply elem_of_nil in Hf.
Qed.


(** [ShutdownAll] *)
Lemma ShutdownAll_managers (servers : gmap string nat) (ms : list LSPManager) :
  let ms' := map_fold (fun _ r ms => alter Shutdown r ms) ms servers in
  only_shut ms ms' /\
  forall language r lsp, servers !! language = Some r ->
                         ms' !! r = Some lsp -> running lsp = false.
Proof.
  apply (map_fold_weak_ind
           (fun ms' servers =>
              only_shut ms ms' /\
              forall language r lsp, servers !! language = Some r ->
                                     ms' !! r = Some lsp -> running lsp = false)).
  - split; [apply only_shut_refl|]. intros ? ? ? Hl. by rewrite lookup_empty in Hl.
  - intros language r servers' ms' Hnone [Hs Hall]. split.
    + eapply only_shut_trans; [done|apply only_shut_alter].
    + intros l r' lsp. rewrite lookup_insert, list_lookup_alter.
      case_decide as E.
      * intros [= <-]. rewrite decide_True by done.
        destruct (ms' !! r); simpl; [|done]. by intros [= <-].
      * intros Hl. case_decide as E'.
        -- subst r'. destruct (ms' !! r); simpl; [|done]. by intros [= <-].
        -- eauto.
Qed.

Lemma ShutdownAll_inv m : reg_inv m -> reg_inv (ShutdownAll m).
Proof.
  intros I. destruct (ShutdownAll_managers (lspServers m) (managers m)) as [Hs Hall].
  pose proof (reg_inv_only_shut _ _ I Hs) as [I1 I2 I3 I4 I5].
  unfold ShutdownAll.
  split; simpl; unfold started_for, engine_running in *; simpl in *; try done.
  intros language r Hf (lsp & Hl & Hr).
  assert (lspServers m !! language = Some r) as Hreg by eauto.
  pose proof (Hall _ _ _ Hreg Hl). congruence.
Qed.


End RegistryInvariant.

Section RegistryRouting.
Import Go Engine Registry Vocabulary.
Context `{JSONCodec}.

Lemma enter_same_process method params lsp :
  same_process lsp (SendRequest_enter method params lsp).1.
Proof. unfold SendRequest_enter. by destruct (running lsp). Qed.

Lemma writeMessage_same_process message lsp :
  same_process lsp (writeMessage message lsp).1.
Proof.
  pose proof (writeMessage_fields message lsp) as (_ & _ & _ & Hr & _ & _ & Hc).
  by split.
Qed.

Lemma write_same_process c lsp : same_process lsp (SendRequest_write c lsp).1.
Proof.
  destruct c as [id ch request| | |]; simpl; try done.
  pose proof (writeMessage_same_process request lsp) as Hs.
  by destruct (writeMessage request lsp) as [lsp' [err|]].
Qed.

Lemma cleanup_same_process c lsp : same_process lsp (SendRequest_cleanup c lsp).1.
Proof. by destruct c. Qed.

Lemma same_process_trans a b c :
  same_process a b -> same_process b c -> same_process a c.
Proof. intros [? ?] [? ?]. split; congruence. Qed.

Lemma reg_inv_update m r lsp lsp' :
  reg_inv m -> managers m !! r = Some lsp -> same_process lsp lsp' ->
  reg_inv (set_managers m (<[r := lsp']> (managers m))).
Proof.
  intros [I1 I2 I3 I4 I5] Hl [Hr Hc].
  split; simpl; unfold started_for, engine_running in *; simpl.
  - done.
  - intros. rewrite length_insert. eauto.
  - done.
  - intros language r' Hf (lsp1 & Hl1 & Hr1). apply I4; [done|].
    apply list_lookup_insert_Some in Hl1 as [(-> & <- & _)|(_ & Hl1)]; [|eauto].
    exists lsp. split; [done|congruence].
  - intros r' lsp1 Hl1 Hr1.
    apply list_lookup_insert_Some in Hl1 as [(-> & <- & _)|(_ & Hl1)]; [|eauto].
    unfold child_alive. rewrite Hc. apply (I5 _ _ Hl). congruence.
Qed.

Lemma RouteRequest_begin_inv method params m :
  reg_inv m -> reg_inv (RouteRequest_begin method params m).1.1.
Proof.
  intros I. unfold RouteRequest_begin.
  destruct (extractLanguageFromParams params) as [language [err|]]; [done|].
  unfold SendRequest_begin.
  destruct (lspServers m !! language) as [r|]; [|done].
  destruct (managers m !! r) as [lsp|] eqn:Hl; [|done].
  pose proof (enter_same_process method params lsp) as H1.
  destruct (SendRequest_enter method params lsp) as [lsp1 c1].
  pose proof (write_same_process c1 lsp1) as H2.
  destruct (SendRequest_write c1 lsp1) as [lsp2 c2].
  pose proof (cleanup_same_process c2 lsp2) as H3.
  destruct (SendRequest_cleanup c2 lsp2) as [lsp3 c3]. simpl in *.
  eapply reg_inv_update; [done..|].
  eauto using same_process_trans.
Qed.

Lemma RouteNotification_inv method params m :
  reg_inv m -> reg_inv (RouteNotification method params m).1.
Proof.
  intros I. unfold RouteNotification.
  destruct (extractLanguageFromParams params) as [language [err|]]; [done|].
  unfold Registry.SendNotification.
  destruct (lspServers m !! language) as [r|]; [|done].
  destruct (managers m !! r) as [lsp|] eqn:Hl; [|done].
  pose proof (writeMessage_same_process (notification_frame method params) lsp) as H1.
  unfold Engine.SendNotification.
  destruct (writeMessage (notification_frame method params) lsp) as [lsp' err].
  simpl in *. by eapply reg_inv_update.
Qed.

End RegistryRouting.

Section DeltaHandling.
Import Go Engine Registry FileOps Session Vocabulary.
Context `{JSONCodec}.

(** With no file open, the URI of a change is the bare prefix: no
    language is detected for it and the notification goes nowhere. *)
Lemma didChange_idle_unrouted (content : string) (m : MultiLSPManager) :
  RouteNotification "textDocument/didChange" (didChange_params "" content) m =
  (m, Some (ErrCouldNotDetect "")).
Proof. reflexivity. Qed.

Lemma HandleMessage_delta msg sess w :
  Type_ msg = "delta" -> HandleMessage msg sess w = handle_delta msg sess w.
Proof. intros E. unfold HandleMessage. by rewrite E. Qed.

(** C8 (amended). A delta received with no file open is applied to the
    mirror like any other: a range that is invalid for the mirror is
    answered with an error message and changes nothing; a valid one
    ([0 <= fromPos <= toPos <= len] of the mirror, so [0, 0] on the
    empty mirror) replaces the mirror by the splice and is not answered.
    In both cases [currentFile] stays empty and no [didChange] reaches a
    manager: routing fails on the empty path and the registry is as
    before. *)
Theorem delta_without_file (msg : Message) (payload : DeltaPayload)
        (sess : Session) (w : World) :
  Type_ msg = "delta" ->
  Unmarshal_DeltaPayload (Payload msg) = Some payload ->
  currentFile sess = "" ->
  let valid := 0 <= FromPos payload <= ToPos payload /\
               ToPos payload <= len (currentContent sess) in
  (valid ->
     HandleMessage msg sess w =
     Handled {| currentFile := "";
                currentContent :=
                  str_take (Z.to_nat (FromPos payload)) (currentContent sess) +:+
                  Insert payload +:+
                  str_drop (Z.to_nat (ToPos payload)) (currentContent sess) |}
             w [])
  /\
  (~ valid ->
     HandleMessage msg sess w =
     Handled sess w
       [error_reply "Failed to apply delta: invalid delta positions"]).
Proof.
  intros Ht Hp Hf valid.
  rewrite HandleMessage_delta by done. unfold handle_delta. rewrite Hp.
  split; intros Hv.
  - rewrite ApplyDelta_in_range by done. cbn [currentFile currentContent].
    rewrite Hf. rewrite didChange_idle_unrouted. by destruct w.
  - by rewrite ApplyDelta_out_of_range.
Qed.

End DeltaHandling.

Section RequestsAndOpen.
Import Go Engine Registry FileOps Session Vocabulary.
Context `{JSONCodec}.

Lemma HandleMessage_lsp_request msg sess w :
  Type_ msg = "lsp_request" ->
  HandleMessage msg sess w = handle_lsp_request msg sess w.
Proof. intros E. unfold HandleMessage. by rewrite E. Qed.

Lemma HandleMessage_open_file msg sess w :
  Type_ msg = "open_file" ->
  HandleMessage msg sess w = handle_open_file msg sess w.
Proof. intros E. unfold HandleMessage. by rewrite E. Qed.

(** C9 (amended). An [lsp_request] that has been routed and written
    waits for the response of its manager; on the frame [result] it
    answers with an [lsp_response] that carries the client's id and the
    frame's [result] member, and [null] for it when the frame has none,
    as a frame with an [error] member has: the error of the server is
    dropped, no error message is sent.  An error message answers the
    request only when routing or sending fails. *)
Theorem lsp_request_answer (msg : Message) (payload : LSPRequestPayload)
        (sess : Session) (w : World) :
  Type_ msg = "lsp_request" ->
  Unmarshal_LSPRequestPayload (Payload msg) = Some payload ->
  (forall m' r id ch,
      RouteRequest_begin (req_Method payload) (request_params payload) (registry w)
      = (m', Some r, CallAwaiting id ch) ->
      exists resume,
        HandleMessage msg sess w =
          Waiting sess (set_registry w m') [] r (CallAwaiting id ch) resume
        /\ forall result w' fields,
             Unmarshal_any result = Some (VMap fields) ->
             resume result w' =
               (w', [lsp_response (req_ID payload)
                       (default VNil (fields !! "result"))]))
  /\
  (forall m' o resp err,
      RouteRequest_begin (req_Method payload) (request_params payload) (registry w)
      = (m', o, CallReturned resp (Some err)) ->
      HandleMessage msg sess w =
        Handled sess (set_registry w m')
          [error_reply ("LSP request failed: " +:+ error_message err)]).
Proof.
  intros Ht Hp. rewrite HandleMessage_lsp_request by done.
  unfold handle_lsp_request. rewrite Hp. fold (request_params payload).
  split.
  - intros m' r id ch ->. eexists. split; [reflexivity|].
    intros result w' fields Hu. unfold lsp_request_reply, Unmarshal_map.
    by rewrite Hu.
  - intros m' o resp err ->. by destruct o.
Qed.

Lemma detectLanguage_in_bounds (path : string) :
  3 <= len path -> exists language, detectLanguage path = Ret language.
Proof.
  intros Hl. unfold detectLanguage. rewrite slice_from_ok by lia.
  eexists. reflexivity.
Qed.

Lemma detectLanguage_out_of_bounds (path : string) :
  len path < 3 -> detectLanguage path = Panic "slice bounds out of range".
Proof.
  intros Hl. unfold detectLanguage, slice_from, slice.
  assert ((0 <=? len path - 3) = false) as -> by (apply Z.leb_gt; lia).
  done.
Qed.

(** C10. [detectLanguage] slices [path[len(path)-3:]]: in bounds for
    every path of three bytes or more, out of bounds for every shorter
    one; and [open_file] reaches it with the client's path as soon as
    the file can be read, so a readable file with a path of less than
    three bytes makes the handler panic, after the mirror has been set
    and [file_opened] sent. *)
Theorem detectLanguage_bounds :
  (forall path, 3 <= len path ->
                exists language, detectLanguage path = Ret language)
  /\ (forall path, len path < 3 ->
                   detectLanguage path = Panic "slice bounds out of range")
  /\ (forall msg payload sess w content,
        Type_ msg = "open_file" ->
        Unmarshal_OpenFilePayload (Payload msg) = Some payload ->
        ReadFile (os w) (open_Path payload) = (content, None) ->
        len (open_Path payload) < 3 ->
        HandleMessage msg sess w =
          Panicked {| currentFile := open_Path payload; currentContent := content |}
                   w [file_opened (open_Path payload) content]
                   "slice bounds out of range").
Proof.
  split; [exact detectLanguage_in_bounds|].
  split; [exact detectLanguage_out_of_bounds|].
  intros msg payload sess w content Ht Hp Hr Hl.
  rewrite HandleMessage_open_file by done. unfold handle_open_file.
  rewrite Hp, Hr. by rewrite detectLanguage_out_of_bounds.
Qed.

End RequestsAndOpen.

(** ** The statements on the sample messages *)

Section Examples.
Import Go Engine Registry FileOps Session Vocabulary Sample Scenario.
#[local] Existing Instance Sample.codec.

Lemma ApplyDelta_spec_witness :
  ApplyDelta "abcdef" 2 4 "XY" = Ret ("abXYef", None)
  /\ exists e, ApplyDelta "abcdef" 5 3 "" = Ret ("", Some e) /\ kind_of e = InvalidRange.
Proof.
  split.
  - apply (proj1 (ApplyDelta_spec "abcdef" 2 4 "XY")). unfold len. simpl. lia.
  - apply (proj2 (ApplyDelta_spec "abcdef" 5 3 "")). lia.
Defined.

Lemma header_without_length_is_accepted :
  Fmt.Sscanf_ContentLength ("Content-Type: x" +:+ CRLF) = None
  /\ read_frame ("Content-Type: x" +:+ CRLF +:+ CRLF +:+ "{}") = FrameOk "" "{}"
  /\ Fmt.Sscanf_ContentLength ("Content-Length: abc" +:+ CRLF) = None
  /\ read_frame ("Content-Length: abc" +:+ CRLF +:+ CRLF +:+ "{}") = FrameOk "" "{}"
  /\ read_frame ("Content-Length: -1" +:+ CRLF +:+ CRLF +:+ "{}") = FramePanic "{}".
Proof. repeat split. Qed.

Lemma read_frame_header_block_witness :
  read_frame ("Content-Type: x" +:+ CRLF +:+ "Content-Le") = FrameStop
  /\ read_frame ("Content-Length: abc" +:+ CRLF +:+ CRLF +:+ "{}") = FrameOk "" "{}"
  /\ read_frame (frame response_result +:+ frame diagnostics) =
     FrameOk response_result (frame diagnostics).
Proof.
  destruct read_frame_header_block as (T1 & T2 & T3).
  split; [|split].
  - apply (T1 ["Content-Type: x" +:+ CRLF] "Content-Le").
    + repeat constructor; [|discriminate].
      by exists ("Content-Type: x" +:+ String CR "").
    + reflexivity.
  - apply (T2 ["Content-Length: abc" +:+ CRLF] "{}").
    + repeat constructor; [|discriminate].
      by exists ("Content-Length: abc" +:+ String CR "").
    + by repeat constructor.
  - apply (T3 response_result (frame diagnostics)).
    unfold max_int. simpl. lia.
Defined.

Lemma sys_pending_run :
  run (started "")
      [LCall (CallRegistered 1 0 (request_frame 1 "textDocument/hover" hover_params));
       LWrite 0]
      sys_pending.
Proof.
  econstructor.
  - apply (step_call (started "") "textDocument/hover" hover_params).
  - econstructor; [|constructor].
    eapply (step_write _ 0 1 0). reflexivity.
Qed.



Lemma sys_answered_run :
  run (started (frame response_result))
      [LCall (CallRegistered 1 0 (request_frame 1 "textDocument/hover" hover_params));
       LWrite 0]
      sys_answered.
Proof.
  econstructor.
  - apply (step_call (started (frame response_result))
                     "textDocument/hover" hover_params).
  - econstructor; [|constructor].
    eapply (step_write _ 0 1 0). reflexivity.
Qed.

Lemma reader_delivers_response_witness :
  let s' := after_reader sys_answered in
  chans (mgr s') !! 0%nat =
    Some {| buf := [response_result]; cap := 1; closed := false |}
  /\ responseHandlers (mgr s') !! 1 = None
  /\ stdout (mgr s') = ""
  /\ exists lsp'', SendRequest_receive (CallAwaiting 1 0) (mgr s') =
                   Some (lsp'', CallReturned (Some response_result) None).
Proof.
  pose proof (reader_delivers_response _ _ sys_answered response_result ""
                {| ID := Some 1; Method := "" |} 1
                sys_answered_run eq_refl eq_refl eq_refl eq_refl) as T.
  change (responseHandlers (mgr sys_answered) !! 1) with (Some 0%nat) in T.
  cbv zeta in T.
  destruct T as (i & c & Hi & Ho & _ & T2 & _ & _ & T6 & _ & _ & _ & T10).
  split; [exact T2|]. split; [exact T6|]. split; [reflexivity|].
  destruct (T10 [] _ (run_nil _)) as (_ & c'' & Hi'' & _ & _ & Hrecv).
  destruct i as [|i]; [|discriminate Hi].
  injection Hi'' as <-. by apply Hrecv.
Defined.

Lemma sys_write_failed_run :
  run (started (frame response_result))
      [LCall (CallRegistered 1 0 (request_frame 1 "textDocument/hover" hover_params));
       LChildExit; LWrite 0]
      sys_write_failed.
Proof.
  econstructor.
  - apply (step_call (started (frame response_result)) "textDocument/hover" hover_params).
  - econstructor; [apply step_child_exit|].
    econstructor; [|constructor].
    eapply (step_write _ 0 1 0). reflexivity.
Qed.

(** The child writes a frame with the id 1 and exits; the request with
    the id 1 is registered, and its write fails.  The reader then finds
    the entry of the id and puts the body on the channel of the request,
    but the call is on its way out with the error of the write: it
    removes the entry (which is gone already) and returns the error, and
    in no continuation does it, or any other call, receive the body. *)
Lemma answer_to_failed_write_is_lost :
  let s := sys_write_failed in
  exists err,
    run (started (frame response_result))
        [LCall (CallRegistered 1 0 (request_frame 1 "textDocument/hover" hover_params));
         LChildExit; LWrite 0] s
    /\ running (mgr s) = true
    /\ read_frame (stdout (mgr s)) = FrameOk response_result ""
    /\ Unmarshal_msg response_result = Some {| ID := Some 1; Method := "" |}
    /\ responseHandlers (mgr s) !! 1 = Some 0%nat
    /\ calls s = [CallWriteFailed 1 0 err]
    /\ chans (mgr (after_reader s)) !! 0%nat =
       Some {| buf := [response_result]; cap := 1; closed := false |}
    /\ responseHandlers (mgr (after_reader s)) !! 1 = None
    /\ run s [LReader; LCleanup 0] (after_cleanup 0 (after_reader s))
    /\ calls (after_cleanup 0 (after_reader s)) = [CallReturned None (Some err)]
    /\ chans (mgr (after_cleanup 0 (after_reader s))) !! 0%nat =
       Some {| buf := [response_result]; cap := 1; closed := false |}
    /\ forall ls s', run (after_reader s) ls s' ->
         stranded s' 0 1 0 err response_result.
Proof.
  exists (OSError "write: broken pipe").
  split; [apply sys_write_failed_run|].
  do 7 (split; [reflexivity|]).
  split.
  { econstructor; [by apply (step_reader sys_write_failed)|].
    econstructor; [|constructor].
    by apply (step_cleanup (after_reader sys_write_failed) 0 1 0
                (OSError "write: broken pipe")). }
  do 2 (split; [reflexivity|]).
  intros ls s' Hrun.
  assert (W : wf (after_reader sys_write_failed)).
  { apply (wf_run (started (frame response_result))
             [LCall (CallRegistered 1 0 (request_frame 1 "textDocument/hover" hover_params));
              LChildExit; LWrite 0; LReader]); [apply wf_started|].
    apply (run_snoc _ [_; _; _] sys_write_failed); [apply sys_write_failed_run|].
    by apply (step_reader sys_write_failed). }
  apply (stranded_run (after_reader sys_write_failed) ls); [done|done|].
  split; [by left|]. split; [reflexivity|].
  intros j c id' Hj Ho. destruct j as [|j]; [done|]. by destruct j.
Qed.

Lemma two_calls_run :
  run (started "") two_calls
      (after_call "textDocument/hover" hover_params
                  (after_call "initialize" VNil (started ""))).
Proof.
  econstructor; [apply (step_call (started "") "initialize" VNil)|].
  econstructor; [|constructor].
  apply (step_call (after_call "initialize" VNil (started ""))
                   "textDocument/hover" hover_params).
Qed.

Lemma request_ids_increase_witness :
  (forall i id, allocated two_calls !! i = Some id -> id = Z.of_nat i + 1)
  /\ (forall i j idi idj,
        (i < j)%nat -> allocated two_calls !! i = Some idi ->
        allocated two_calls !! j = Some idj -> idi < idj).
Proof.
  apply (request_ids_increase "" two_calls _ two_calls_run).
  simpl. unfold max_int. lia.
Defined.

(** A manager whose counter stands at the greatest [int] hands out the
    least one next; and there is a run of a started manager that gets
    there, in which a later request has a smaller id than an earlier
    one. *)
Lemma request_ids_wrap_around :
  (SendRequest_enter "initialize" VNil
     (set_table (mgr (started "")) 9223372036854775807 ∅ [])).2 =
    CallRegistered (-9223372036854775808) 0
      (request_frame (-9223372036854775808) "initialize" VNil)
  /\ exists ls s i j idi idj,
       run (started "") ls s /\ (i < j)%nat /\
       allocated ls !! i = Some idi /\ allocated ls !! j = Some idj /\
       idj < idi.
Proof. split; [reflexivity|apply ids_wrap]. Qed.

Lemma hover_path_policy : policy (TrimPrefix "file:///x/y.py" "file://") "python".
Proof. left. split; [|done]. by exists "/x/y". Qed.

Lemma route_by_language_witness :
  exists m',
    RouteRequest_begin "textDocument/hover" hover_params python_registry =
      (m', Some 0%nat, CallAwaiting 1 0)
    /\ (stdin <$> managers m' !! 0%nat) =
       Some [frame (Marshal (request_frame 1 "textDocument/hover" hover_params))]
    /\ lspServers m' = lspServers python_registry.
Proof.
  destruct (route_by_language (H := codec) "textDocument/hover" hover_params
              python_registry) as [_ T].
  { apply StartLSP_inv, NewMultiLSPManager_inv. }
  destruct (T "file:///x/y.py" eq_refl) as [_ T2].
  pose proof (T2 "python" hover_path_policy) as T3.
  change (lspServers python_registry !! "python") with (Some 0%nat) in T3.
  destruct T3 as (lsp & Hl & T4 & _).
  injection Hl as <-.
  eexists. split; [exact T4|]. split; reflexivity.
Defined.


(** A delta with the range [0, 0] and no file open is applied and not
    answered. *)
Lemma idle_delta_is_applied :
  HandleMessage {| Type_ := "delta"; Payload := delta_insert |} idle world =
  Handled {| currentFile := ""; currentContent := "x" |} world [].
Proof. reflexivity. Qed.

Lemma delta_without_file_witness :
  HandleMessage {| Type_ := "delta"; Payload := delta_insert |} idle world =
    Handled {| currentFile := ""; currentContent := "x" |} world []
  /\ HandleMessage {| Type_ := "delta"; Payload := delta_bad |} idle world =
       Handled idle world
         [error_reply "Failed to apply delta: invalid delta positions"].
Proof.
  split.
  - apply (proj1 (delta_without_file (H := codec)
                    {| Type_ := "delta"; Payload := delta_insert |}
                    {| FromPos := 0; ToPos := 0; Insert := "x" |}
                    idle world eq_refl eq_refl eq_refl)).
    simpl. unfold len. simpl. lia.
  - apply (proj2 (delta_without_file (H := codec)
                    {| Type_ := "delta"; Payload := delta_bad |}
                    {| FromPos := 5; ToPos := 3; Insert := "" |}
                    idle world eq_refl eq_refl eq_refl)).
    simpl. lia.
Defined.

(** A response frame with an [error] member is answered with an
    [lsp_response] whose result is [null], not with an error message. *)
Lemma server_error_is_answered_with_null_result :
  let h := HandleMessage {| Type_ := "lsp_request"; Payload := hover_request |}
                         idle world_error in
  exists m' resume,
    h = Waiting idle (set_registry world_error m') [] 0 (CallAwaiting 1 0) resume
    /\ stdout <$> managers m' !! 0%nat = Some (frame response_error)
    /\ Unmarshal_any response_error = Some response_error_value
    /\ (exists w',
          resume_handler h (set_registry world_error (reader_turn 0 m')) =
          Some (Handled idle w' [lsp_response 7 VNil]))
    /\ forall message, lsp_response 7 VNil <> error_reply message.
Proof.
  eexists _, _. split; [reflexivity|]. split; [reflexivity|].
  split; [reflexivity|]. split; [eexists; reflexivity|].
  intros message Heq.
  apply (f_equal (fun v => index_map (default ∅ (as_map v)) "type")) in Heq.
  vm_compute in Heq. discriminate.
Qed.

Lemma lsp_request_answer_witness :
  exists m' resume,
    HandleMessage {| Type_ := "lsp_request"; Payload := hover_request |} idle world =
      Waiting idle (set_registry world m') [] 0 (CallAwaiting 1 0) resume
    /\ resume response_result world =
       (world, [lsp_response 7 (VMap (<["contents" := VString "doc"]> ∅))]).
Proof.
  destruct (lsp_request_answer (H := codec)
              {| Type_ := "lsp_request"; Payload := hover_request |}
              hover_payload idle world eq_refl eq_refl) as [T _].
  destruct (T _ 0%nat 1 0%nat eq_refl) as (resume & T1 & T2).
  eexists _, resume. split; [exact T1|].
  exact (T2 response_result world _ eq_refl).
Defined.

Lemma detectLanguage_bounds_witness :
  (exists language, detectLanguage "/x/y.py" = Ret language)
  /\ detectLanguage "a" = Panic "slice bounds out of range"
  /\ HandleMessage {| Type_ := "open_file"; Payload := open_a |} idle world =
       Panicked {| currentFile := "a"; currentContent := "hello" |} world
                [file_opened "a" "hello"] "slice bounds out of range".
Proof.
  destruct (detectLanguage_bounds (H := codec)) as (T1 & T2 & T3).
  split; [|split].
  - apply (T1 "/x/y.py"). unfold len. simpl. lia.
  - apply (T2 "a"). unfold len. simpl. lia.
  - apply (T3 {| Type_ := "open_file"; Payload := open_a |}
              {| open_Path := "a" |} idle world "hello" eq_refl eq_refl eq_refl).
    unfold len. simpl. lia.
Defined.

End Examples.

(** * Further properties of the code *)

Section FileHelpers.
Import Go FileOps.

Lemma str_get_app_l (i : nat) (a b : string) :
  (i < String.length a)%nat -> String.get i (a +:+ b) = String.get i a.
Proof.
  revert i. induction a as [|c a IH]; intros i Hi; cbn in Hi; [lia|].
  rewrite str_app_cons. destruct i as [|i]; [reflexivity|].
  cbn. apply IH. lia.
Qed.

Lemma str_get_app_r (i : nat) (a b : string) :
  String.get (String.length a + i) (a +:+ b) = String.get i b.
Proof.
  induction a as [|c a IH]; [reflexivity|].
  rewrite str_app_cons. cbn. exact IH.
Qed.

Lemma str_drop_drop (n k : nat) (s : string) :
  str_drop k (str_drop n s) = str_drop (n + k) s.
Proof.
  revert s. induction n as [|n IH]; intros s; [reflexivity|].
  destruct s as [|c s]; cbn; [destruct k; reflexivity|]. apply IH.
Qed.

Lemma ApplyDelta_success (content : string) (fromPos toPos : Z) (insert result : string) :
  ApplyDelta content fromPos toPos insert = Ret (result, None) ->
  (0 <= fromPos <= toPos /\ toPos <= len content) /\
  result = str_take (Z.to_nat fromPos) content +:+ insert +:+
           str_drop (Z.to_nat toPos) content.
Proof.
  intros Happ.
  destruct (decide (0 <= fromPos <= toPos /\ toPos <= len content)) as [Hin|Hout].
  - split; [exact Hin|].
    rewrite (ApplyDelta_in_range _ _ _ _ Hin) in Happ. congruence.
  - rewrite (ApplyDelta_out_of_range _ _ _ _ Hout) in Happ. discriminate.
Qed.

(** X1. A delta with a valid range changes nothing but the range.  The
    result has the length of the text, less the length of the range,
    plus the length of the insertion; its bytes before [fromPos] are
    those of the text, then come the bytes of [insert], then the bytes
    of the text from [toPos] on. *)
Theorem ApplyDelta_bytes (content : string) (fromPos toPos : Z) (insert : string) :
  0 <= fromPos <= toPos /\ toPos <= len content ->
  exists result,
    ApplyDelta content fromPos toPos insert = Ret (result, None)
    /\ len result = len content - (toPos - fromPos) + len insert
    /\ (forall i, (i < Z.to_nat fromPos)%nat ->
                  String.get i result = String.get i content)
    /\ (forall i, (i < String.length insert)%nat ->
                  String.get (Z.to_nat fromPos + i) result = String.get i insert)
    /\ (forall i, String.get (Z.to_nat fromPos + String.length insert + i) result
                  = String.get (Z.to_nat toPos + i) content).
Proof.
  intros Hin. eexists. split; [apply ApplyDelta_in_range; exact Hin|].
  unfold len in *.
  assert (Hlen : String.length (str_take (Z.to_nat fromPos) content) = Z.to_nat fromPos).
  { rewrite str_length_take. lia. }
  split; [|split; [|split]].
  - rewrite !str_length_app, str_length_take, str_length_drop. lia.
  - intros i Hi. rewrite str_get_app_l by lia. apply str_get_take. exact Hi.
  - intros i Hi. rewrite <- Hlen at 1. rewrite str_get_app_r.
    apply str_get_app_l. exact Hi.
  - intros i. rewrite <- Nat.add_assoc. rewrite <- Hlen at 1.
    rewrite str_get_app_r, str_get_app_r. apply str_get_drop.
Qed.

(** X2. A delta that has been applied can be taken back: replacing the
    inserted bytes, the range from [fromPos] to [fromPos + len(insert)]
    of the result, by the bytes that were removed,
    [content[fromPos:toPos]], gives the text back. *)
Theorem ApplyDelta_undo (content : string) (fromPos toPos : Z) (insert result : string) :
  ApplyDelta content fromPos toPos insert = Ret (result, None) ->
  exists removed,
    slice content fromPos toPos = Ret removed
    /\ ApplyDelta result fromPos (fromPos + len insert) removed = Ret (content, None).
Proof.
  intros Happ. destruct (ApplyDelta_success _ _ _ _ _ Happ) as [Hin ->].
  unfold len in *.
  assert (Hlen : String.length (str_take (Z.to_nat fromPos) content) = Z.to_nat fromPos).
  { rewrite str_length_take. lia. }
  eexists. split.
  - unfold slice, len.
    replace ((0 <=? fromPos) && (fromPos <=? toPos) &&
             (toPos <=? Z.of_nat (String.length content))) with true; [reflexivity|].
    symmetry. rewrite !andb_true_iff, !Z.leb_le. lia.
  - rewrite ApplyDelta_in_range.
    2:{ unfold len. rewrite !str_length_app, str_length_take, str_length_drop. lia. }
    set (A := str_take (Z.to_nat fromPos) content) in *.
    set (D := str_drop (Z.to_nat toPos) content).
    assert (Htake : str_take (Z.to_nat fromPos) (A +:+ insert +:+ D) = A).
    { rewrite <- Hlen. apply str_take_app_length. }
    assert (Hdrop : str_drop (Z.to_nat (fromPos + Z.of_nat (String.length insert)))
                      (A +:+ insert +:+ D) = D).
    { replace (Z.to_nat (fromPos + Z.of_nat (String.length insert)))
        with (String.length (A +:+ insert)) by (rewrite str_length_app; lia).
      rewrite <- str_app_assoc. apply str_drop_app_length. }
    rewrite Htake, Hdrop. subst A D. do 2 f_equal.
    replace (Z.to_nat toPos) with (Z.to_nat fromPos + Z.to_nat (toPos - fromPos))%nat by lia.
    rewrite <- str_drop_drop, str_take_drop. apply str_take_drop.
Qed.


End FileHelpers.

Section HeaderBlock.
Import Go Engine Vocabulary Traffic.

(** The header loop over complete header lines: each line that scans
    overwrites the length, the others leave it. *)
Lemma read_header_lines (ls : list string) (rest : string) (n : Z) :
  Forall header_line ls ->
  read_header (flatten ls +:+ rest) EmptyString n =
  read_header rest EmptyString
    (foldl (fun n l => default n (Fmt.Sscanf_ContentLength l)) n ls).
Proof.
  intros Hls. revert n.
  induction Hls as [|l ls [Hl Hne] _ IH]; intros n; cbn [flatten foldr foldl].
  - by rewrite str_app_nil_l.
  - rewrite str_app_assoc. rewrite read_header_line by done.
    apply String.eqb_neq in Hne. rewrite Hne. apply IH.
Qed.

Lemma foldl_unscanned (ls : list string) (n : Z) :
  Forall (fun l => Fmt.Sscanf_ContentLength l = None) ls ->
  foldl (fun n l => default n (Fmt.Sscanf_ContentLength l)) n ls = n.
Proof.
  induction 1 as [|l ls Hl _ IH]; cbn [foldl]; [done|]. by rewrite Hl.
Qed.

(** Where the declared length can be allocated, the two readers
    agree. *)
Lemma read_frame_within_agrees (limit : Z) (stream : string) :
  (forall n rest, read_header stream EmptyString 0 = HeaderDone n rest -> n <= limit) ->
  read_frame_within limit stream = read_frame stream.
Proof.
  intros Hn. unfold read_frame_within, read_frame.
  destruct (read_header stream EmptyString 0) as [|n rest]; [done|].
  specialize (Hn n rest eq_refl).
  assert ((limit <? n) = false) as -> by (apply Z.ltb_ge; lia).
  by rewrite orb_false_r.
Qed.

Lemma read_header_last (before after : list string) (l : string) (k n : Z)
      (rest : string) :
  Forall header_line before -> header_line l -> Forall header_line after ->
  Fmt.Sscanf_ContentLength l = Some k ->
  Forall (fun l' => Fmt.Sscanf_ContentLength l' = None) after ->
  read_header (flatten (before ++ l :: after) +:+ CRLF +:+ rest) EmptyString n
  = HeaderDone k rest.
Proof.
  intros Hb Hl Ha Hk Hu.
  rewrite read_header_lines.
  2:{ apply Forall_app. split; [done|]. by constructor. }
  rewrite foldl_app. cbn [foldl]. rewrite Hk. cbn [default from_option id].
  rewrite foldl_unscanned by done.
  rewrite read_header_line by apply CRLF_is_line.
  by rewrite String.eqb_refl.
Qed.

(** X4. In a header block that holds several lines, the last line that
    scans as a Content-Length gives the length of the body; the lines
    that do not scan (other headers) are skipped, and an earlier length
    is overwritten.  The buffer of that length is then made and filled:
    a panic, with nothing read of the body, when the length is negative
    or beyond what the runtime allocates; the end of the reader when the
    stream is shorter; the frame otherwise.  Up to the limit this is the
    frame [read_frame] gives. *)
Theorem last_content_length_wins (limit : Z) (before after : list string)
        (l : string) (k : Z) (rest : string) :
  Forall header_line before -> header_line l -> Forall header_line after ->
  Fmt.Sscanf_ContentLength l = Some k ->
  Forall (fun l' => Fmt.Sscanf_ContentLength l' = None) after ->
  let stream := flatten (before ++ l :: after) +:+ CRLF +:+ rest in
  read_frame_within limit stream =
    (if (k <? 0) || (limit <? k) then FramePanic rest
     else match ReadFull (Z.to_nat k) rest with
          | Some (content, rest') => FrameOk content rest'
          | None => FrameStop
          end)
  /\ (k <= limit -> read_frame stream = read_frame_within limit stream).
Proof.
  intros Hb Hl Ha Hk Hu stream.
  pose proof (read_header_last before after l k 0 rest Hb Hl Ha Hk Hu) as Hh.
  fold stream in Hh. split.
  - unfold read_frame_within. by rewrite Hh.
  - intros Hle. symmetry. apply read_frame_within_agrees.
    intros n rest0. rewrite Hh. by intros [= <- _].
Qed.

Lemma skip_spaces_minus (c : ascii) (tl : string) :
  Fmt.skip_spaces (String "-" (String c tl)) = String "-" (String c tl).
Proof. destruct tl; reflexivity. Qed.

(** [Sscanf] on a negative length. *)
Lemma Sscanf_reads_negative (n : nat) :
  Z.of_nat n <= 2 ^ 63 ->
  Fmt.Sscanf_ContentLength ("Content-Length: -" +:+ pretty n +:+ CRLF)
  = Some (- Z.of_nat n).
Proof.
  intros Hn.
  destruct (pretty_nat_scans n CRLF) as (c & tl & k & Hh & Hd & Hk & Hs).
  change ("Content-Length: -" +:+ pretty n +:+ CRLF)
    with ("Content-Length:" +:+ String " " (String "-" (pretty n +:+ CRLF))).
  rewrite Hh.
  change (Fmt.Sscanf_ContentLength
            ("Content-Length:" +:+ String " " (String "-" (String c tl))))
    with (rest ← Fmt.advance_space (String " " (String "-" (String c tl)));
          Fmt.scanInt rest).
  assert (Fmt.advance_space (String " " (String "-" (String c tl)))
          = Some (String "-" (String c tl))) as ->.
  { unfold Fmt.advance_space.
    change (Fmt.starts_with_newline (String " " (String "-" (String c tl))))
      with false.
    change (Fmt.starts_with_space (String " " (String "-" (String c tl))))
      with true.
    cbv iota. by rewrite skip_spaces_blank, skip_spaces_minus. }
  cbn [mbind option_bind].
  unfold Fmt.scanInt, Fmt.SkipSpace. rewrite skip_spaces_minus.
  change (Fmt.starts_with_newline (String "-" (String c tl))) with false.
  cbn [mbind option_bind].
  change (Ascii.eqb "-" "-") with true. cbn [orb].
  rewrite <- Hh, Hs.
  change (Fmt.scan_digits CRLF (0 * 10 ^ Z.of_nat k + Z.of_nat n) (0 + k))
    with (0 * 10 ^ Z.of_nat k + Z.of_nat n, (0 + k)%nat).
  replace (0 * 10 ^ Z.of_nat k + Z.of_nat n) with (Z.of_nat n) by lia.
  destruct k as [|k]; [lia|]. cbn [Nat.add Nat.eqb].
  assert ((min_int <=? - Z.of_nat n) && (- Z.of_nat n <=? max_int) = true) as ->.
  { apply andb_true_iff. rewrite !Z.leb_le. unfold min_int, max_int. lia. }
  done.
Qed.

Lemma negative_line_is_header (n : nat) :
  header_line ("Content-Length: -" +:+ pretty n +:+ CRLF).
Proof.
  split; [|done].
  exists ("Content-Length: -" +:+ pretty n +:+ String CR "").
  split.
  - by rewrite !str_app_assoc.
  - by rewrite !no_newline_app, no_newline_pretty.
Qed.

Lemma read_frame_negative (n : nat) (rest : string) :
  (0 < n)%nat -> Z.of_nat n <= 2 ^ 63 ->
  read_frame ("Content-Length: -" +:+ pretty n +:+ CRLF +:+ CRLF +:+ rest)
  = FramePanic rest.
Proof.
  intros Hpos Hn. unfold read_frame.
  replace ("Content-Length: -" +:+ pretty n +:+ CRLF +:+ CRLF +:+ rest)
    with (("Content-Length: -" +:+ pretty n +:+ CRLF) +:+ (CRLF +:+ rest))
    by by rewrite !str_app_assoc.
  destruct (negative_line_is_header n) as [Hl Hne].
  rewrite read_header_line by done.
  apply String.eqb_neq in Hne. rewrite Hne.
  rewrite Sscanf_reads_negative by done. cbn [default from_option id].
  rewrite read_header_line by apply CRLF_is_line.
  rewrite String.eqb_refl.
  assert ((- Z.of_nat n <? 0) = true) as -> by (apply Z.ltb_lt; lia).
  done.
Qed.

Lemma read_header_length (n : nat) (rest : string) :
  Z.of_nat n <= max_int ->
  read_header ("Content-Length: " +:+ pretty n +:+ CRLF +:+ CRLF +:+ rest)
              EmptyString 0
  = HeaderDone (Z.of_nat n) rest.
Proof.
  intros Hn.
  replace ("Content-Length: " +:+ pretty n +:+ CRLF +:+ CRLF +:+ rest)
    with (("Content-Length: " +:+ pretty n +:+ CRLF) +:+ (CRLF +:+ rest))
    by by rewrite !str_app_assoc.
  destruct (length_line_is_header n) as [Hl Hne].
  rewrite read_header_line by done.
  apply String.eqb_neq in Hne. rewrite Hne.
  rewrite Sscanf_reads_length by done. cbn [default from_option id].
  rewrite read_header_line by apply CRLF_is_line.
  by rewrite String.eqb_refl.
Qed.

Context `{JSONCodec}.

(** X5. A declared length that is negative, from -1 down to -2^63, is
    scanned as such, and the reader then panics in
    [make([]byte, contentLength)]: nothing is read of the body and the
    loop does not go on, however many turns it is given. *)
Theorem negative_length_panics (n : nat) (rest : string) (lsp : LSPManager) :
  (0 < n)%nat -> Z.of_nat n <= 2 ^ 63 ->
  running lsp = true ->
  stdout lsp = "Content-Length: -" +:+ pretty n +:+ CRLF +:+ CRLF +:+ rest ->
  Fmt.Sscanf_ContentLength ("Content-Length: -" +:+ pretty n +:+ CRLF)
    = Some (- Z.of_nat n)
  /\ read_frame (stdout lsp) = FramePanic rest
  /\ readMessages_iteration lsp = (set_stdout lsp rest, ReaderPanicked)
  /\ forall fuel, readMessages (S fuel) lsp = (set_stdout lsp rest, ReaderPanicked).
Proof.
  intros Hpos Hn Hrun Hout.
  assert (Hf : read_frame (stdout lsp) = FramePanic rest)
    by (rewrite Hout; by apply read_frame_negative).
  assert (Hi : readMessages_iteration lsp = (set_stdout lsp rest, ReaderPanicked)).
  { unfold readMessages_iteration. by rewrite Hrun, Hf. }
  split; [by apply Sscanf_reads_negative|]. split; [done|]. split; [done|].
  intros fuel. cbn [readMessages]. by rewrite Hi.
Qed.

Lemma readMessages_iteration_within_agrees (limit : Z) (lsp : LSPManager) :
  read_frame_within limit (stdout lsp) = read_frame (stdout lsp) ->
  readMessages_iteration_within limit lsp = readMessages_iteration lsp.
Proof.
  intros Hf. unfold readMessages_iteration_within, readMessages_iteration.
  by rewrite Hf.
Qed.

(** X6. A body that is cut short: the declared length is one the
    runtime allocates and the stream ends before that many bytes, so
    [io.ReadFull] fails and the reader returns; the bytes read so far
    are lost, and the table, the response channels and the notification
    channel stay as they were; this is the turn [readMessages_iteration]
    describes.  With a declared length beyond what the runtime allocates
    the reader does not get that far: it panics in [make], with the
    bytes after the header block unread. *)
Theorem truncated_body_stops (limit : Z) (n : nat) (part : string)
        (lsp : LSPManager) :
  Z.of_nat n <= max_int -> (String.length part < n)%nat ->
  running lsp = true ->
  stdout lsp = "Content-Length: " +:+ pretty n +:+ CRLF +:+ CRLF +:+ part ->
  (Z.of_nat n <= limit ->
     read_frame_within limit (stdout lsp) = FrameStop
     /\ readMessages_iteration_within limit lsp
        = (set_stdout lsp EmptyString, ReaderReturned)
     /\ same_sinks lsp (readMessages_iteration_within limit lsp).1
     /\ readMessages_iteration lsp = readMessages_iteration_within limit lsp)
  /\ (limit < Z.of_nat n ->
      read_frame_within limit (stdout lsp) = FramePanic part
      /\ readMessages_iteration_within limit lsp
         = (set_stdout lsp part, ReaderPanicked)).
Proof.
  intros Hn Hshort Hrun Hout.
  pose proof (read_header_length n part Hn) as Hh. rewrite <- Hout in Hh.
  split.
  - intros Hle.
    assert (Hf : read_frame_within limit (stdout lsp) = FrameStop).
    { unfold read_frame_within. rewrite Hh.
      assert ((Z.of_nat n <? 0) = false) as -> by (apply Z.ltb_ge; lia).
      assert ((limit <? Z.of_nat n) = false) as -> by (apply Z.ltb_ge; lia).
      cbn [orb]. rewrite Nat2Z.id. unfold ReadFull.
      assert ((n <=? String.length part)%nat = false) as -> by (apply Nat.leb_gt; lia).
      done. }
    assert (Hi : readMessages_iteration_within limit lsp
                 = (set_stdout lsp EmptyString, ReaderReturned)).
    { unfold readMessages_iteration_within. by rewrite Hrun, Hf. }
    split; [done|]. split; [done|]. split; [by rewrite Hi|].
    symmetry. apply readMessages_iteration_within_agrees.
    apply read_frame_within_agrees.
    intros n0 rest0. rewrite Hh. by intros [= <- _].
  - intros Hgt.
    assert (Hf : read_frame_within limit (stdout lsp) = FramePanic part).
    { unfold read_frame_within. rewrite Hh.
      assert ((limit <? Z.of_nat n) = true) as -> by (apply Z.ltb_lt; lia).
      by rewrite orb_true_r. }
    split; [done|].
    unfold readMessages_iteration_within. by rewrite Hrun, Hf.
Qed.

End HeaderBlock.

Section Streams.
Import Go Engine Vocabulary Traffic.
Context `{JSONCodec}.

Lemma read_frame_empty : read_frame EmptyString = FrameStop.
Proof. reflexivity. Qed.

Lemma flatten_cons (l : string) (ls : list string) :
  flatten (l :: ls) = l +:+ flatten ls.
Proof. reflexivity. Qed.

Lemma flatten_app (ls ls' : list string) :
  flatten (ls ++ ls') = flatten ls +:+ flatten ls'.
Proof.
  induction ls as [|l ls IH]; cbn [app]; [by rewrite str_app_nil_l|].
  by rewrite !flatten_cons, IH, str_app_assoc.
Qed.

(** A stream of frames is cut back into its bodies. *)
Lemma frames_of_frames (ds : list RawMessage) (fuel : nat) :
  Forall fits ds -> (length ds <= fuel)%nat ->
  frames_of fuel (flatten (frame <$> ds)) = ds.
Proof.
  intros Hds. revert fuel.
  induction Hds as [|d ds Hd _ IH]; intros fuel Hfuel.
  - destruct fuel; reflexivity.
  - destruct fuel as [|fuel]; [cbn in Hfuel; lia|].
    rewrite fmap_cons, flatten_cons. cbn [frames_of].
    rewrite frame_round_trip by exact Hd.
    f_equal. apply IH. cbn in Hfuel. lia.
Qed.

Lemma writeMessage_framed message lsp :
  framed lsp -> framed (writeMessage message lsp).1.
Proof.
  intros [messages Hm]. unfold writeMessage.
  destruct (negb (running lsp)); [by exists messages|].
  destruct (child_alive lsp); [|by exists messages].
  exists (messages ++ [message])%list. cbn. by rewrite Hm, fmap_app.
Qed.

Lemma dispatch_stdin content msg lsp lsp' :
  dispatch content msg lsp = Some lsp' -> stdin lsp' = stdin lsp.
Proof.
  unfold dispatch. destruct (ID msg) as [id|].
  - destruct (responseHandlers lsp !! id) as [ch|]; [|by intros [= <-]].
    destruct (chans lsp !! ch) as [chan|]; simpl; [|done].
    destruct (has_room chan); [|done]. by intros [= <-].
  - case_bool_decide; by intros [= <-].
Qed.

Lemma iteration_stdin lsp : stdin (readMessages_iteration lsp).1 = stdin lsp.
Proof.
  unfold readMessages_iteration.
  destruct (negb (running lsp)); [done|].
  destruct (read_frame (stdout lsp)) as [|rest|content rest]; [done..|].
  destruct (Unmarshal_msg content) as [msg|]; [|done].
  destruct (dispatch content msg (set_stdout lsp rest)) as [lsp'|] eqn:Hd; [|done].
  cbn. by rewrite (dispatch_stdin _ _ _ _ Hd).
Qed.

Lemma step_framed s l s' : step s l s' -> framed (mgr s) -> framed (mgr s').
Proof.
  intros Hstep Hf. destruct Hstep; cbn.
  - unfold SendRequest_enter in r. subst r.
    destruct (negb (running (mgr s))); exact Hf.
  - subst r. cbn. pose proof (writeMessage_framed request (mgr s) Hf) as Hw.
    destruct (writeMessage request (mgr s)) as [lsp' [err|]]; exact Hw.
  - exact Hf.
  - apply receive_inv in H1 as (id & ch & chan & m & chan' & _ & _ & _ & -> & _).
    exact Hf.
  - by apply writeMessage_framed.
  - subst r. destruct Hf as [messages Hm]. exists messages.
    by rewrite iteration_stdin.
  - exact Hf.
  - exact Hf.
  - exact Hf.
Qed.

Lemma run_framed s ls s' : run s ls s' -> framed (mgr s) -> framed (mgr s').
Proof. induction 1; eauto using step_framed. Qed.

(** X7. Whatever the goroutines around a started manager do, what has
    been written to the child is a sequence of whole frames, one for each
    message written; and the frame decoder of this package cuts their
    concatenation back into the marshalled messages, in order, as long
    as their lengths fit an [int]. *)
Theorem written_frames_decode (out : string) (ls : list label) (s : System) :
  run (started out) ls s ->
  exists messages : list value,
    stdin (mgr s) = (fun v => frame (Marshal v)) <$> messages
    /\ (Forall (fun v => fits (Marshal v)) messages ->
        forall fuel, (length messages <= fuel)%nat ->
          frames_of fuel (flatten (stdin (mgr s))) = Marshal <$> messages).
Proof.
  intros Hrun.
  destruct (run_framed _ _ _ Hrun) as [messages Hm]; [by exists []|].
  exists messages. split; [exact Hm|].
  intros Hfits fuel Hfuel. rewrite Hm.
  change ((fun v => frame (Marshal v)) <$> messages)
    with ((frame ∘ Marshal) <$> messages).
  rewrite (list_fmap_compose Marshal frame).
  apply frames_of_frames.
  - by apply Forall_fmap.
  - by rewrite length_fmap.
Qed.

(** X8. [readMessages] left alone with a manager stops: on a stream of n
    bytes it has returned (or panicked, or waits in a send) after at
    most n + 1 turns, and more turns do not change the outcome.  It
    writes nothing to the child and leaves the id counter alone. *)
Theorem reader_halts (lsp : LSPManager) :
  let fuel := S (String.length (stdout lsp)) in
  (readMessages fuel lsp).2 <> ReaderRunning
  /\ (forall fuel', (fuel <= fuel')%nat ->
                    readMessages fuel' lsp = readMessages fuel lsp)
  /\ stdin (readMessages fuel lsp).1 = stdin lsp
  /\ messageID (readMessages fuel lsp).1 = messageID lsp.
Proof.
  intros fuel.
  destruct (readMessages_terminates fuel lsp) as [Hstop Hmore]; [subst fuel; lia|].
  split; [exact Hstop|]. split; [exact Hmore|].
  clear Hstop Hmore. generalize fuel. clear fuel. intros fuel. revert lsp.
  induction fuel as [|fuel IH]; intros lsp; [done|].
  cbn [readMessages].
  pose proof (iteration_stdin lsp) as Hs.
  pose proof (iteration_messageID lsp) as [Hm _].
  destruct (readMessages_iteration lsp) as [lsp' []]; cbn in *; try done.
  destruct (IH lsp') as [IH1 IH2]. split; congruence.
Qed.

(** Notifications *)
Lemma select_send_buf (c : Chan) (m : RawMessage) :
  cap c = 100%nat -> (length (buf c) <= 100)%nat ->
  cap (select_send c m) = 100%nat
  /\ (length (buf (select_send c m)) <= 100)%nat
  /\ forall ds, take 100 (buf (select_send c m) ++ ds) = take 100 (buf c ++ m :: ds).
Proof.
  intros Hcap Hlen. unfold select_send, has_room. rewrite Hcap.
  destruct (Nat.ltb_spec (length (buf c)) 100) as [Hroom|Hfull]; cbn.
  - split; [done|]. split; [rewrite length_app; cbn; lia|].
    intros ds. by rewrite <- app_assoc.
  - split; [done|]. split; [done|].
    intros ds. rewrite !take_app_le by lia. done.
Qed.

Lemma iteration_notification lsp d rest :
  running lsp = true -> read_frame (stdout lsp) = FrameOk d rest ->
  is_notification d ->
  readMessages_iteration lsp =
  (set_notificationChan (set_stdout lsp rest)
     (select_send (notificationChan lsp) d), ReaderRunning).
Proof.
  intros Hrun Hf (msg & Hmsg & Hid & Hmeth).
  rewrite (iteration_frame _ _ _ _ Hrun Hf Hmsg).
  rewrite dispatch_notification by done.
  by rewrite bool_decide_eq_true_2.
Qed.

(** X9. Notifications are queued in the order of their arrival and the
    overflow is dropped: reading a stream of notification frames to its
    end leaves in the notification channel what it held, followed by the
    notifications read, cut at the 100 the channel has room for.  The
    response table and the response channels are not touched, and the
    reader returns at the end of the stream. *)
Theorem notifications_queue_in_order (ds : list RawMessage) (lsp : LSPManager)
        (fuel : nat) :
  running lsp = true ->
  stdout lsp = flatten (frame <$> ds) ->
  Forall (fun d => fits d /\ is_notification d) ds ->
  cap (notificationChan lsp) = 100%nat ->
  (length (buf (notificationChan lsp)) <= 100)%nat ->
  (length ds < fuel)%nat ->
  let r := readMessages fuel lsp in
  r.2 = ReaderReturned
  /\ buf (notificationChan r.1) = take 100 (buf (notificationChan lsp) ++ ds)
  /\ responseHandlers r.1 = responseHandlers lsp
  /\ chans r.1 = chans lsp.
Proof.
  intros Hrun Hout Hds. revert lsp fuel Hrun Hout.
  induction Hds as [|d ds [Hfit Hnote] _ IH]; intros lsp fuel Hrun Hout Hcap Hlen Hfuel.
  - destruct fuel as [|fuel]; [cbn in Hfuel; lia|].
    cbn [readMessages]. unfold readMessages_iteration.
    rewrite Hrun, Hout. cbn.
    rewrite app_nil_r. by rewrite take_ge by lia.
  - destruct fuel as [|fuel]; [cbn in Hfuel; lia|].
    cbn [readMessages].
    rewrite fmap_cons, flatten_cons in Hout.
    assert (Hf : read_frame (stdout lsp) = FrameOk d (flatten (frame <$> ds)))
      by (rewrite Hout; by apply frame_round_trip).
    rewrite (iteration_notification _ _ _ Hrun Hf Hnote).
    destruct (select_send_buf (notificationChan lsp) d Hcap Hlen) as (Hcap' & Hlen' & Htake).
    set (lsp' := set_notificationChan _ _).
    destruct (IH lsp' fuel) as (IH1 & IH2 & IH3 & IH4); try done.
    { cbn in Hfuel. lia. }
    split; [exact IH1|]. split; [|done].
    rewrite IH2. apply Htake.
Qed.

End Streams.

Section Multiplexer.
Import Go Engine Vocabulary Traffic.
Context `{JSONCodec}.

(** X10. The reader never waits in [ch <- content] with the lock held: in
    every state the goroutines around a started manager can reach, the
    reader is not blocked, every channel the table refers to has room,
    and the next turn of the reader does not block either. *)
Theorem reader_never_blocks (out : string) (ls : list label) (s : System) :
  run (started out) ls s ->
  reader s <> ReaderBlocked
  /\ (forall id ch, responseHandlers (mgr s) !! id = Some ch ->
        exists chan, chans (mgr s) !! ch = Some chan /\ has_room chan = true)
  /\ (readMessages_iteration (mgr s)).2 <> ReaderBlocked.
Proof.
  intros Hrun.
  assert (W : wf s) by (eapply wf_run; [apply wf_started|exact Hrun]).
  split; [apply W|]. split.
  - intros id ch Hl. exists (make_chan 1). split; [by eapply wf_fresh|done].
  - pose proof (wf_reader_step s W) as W'. by destruct W' as [_ _ _ _ Hr].
Qed.

Lemma matched_same_chans s lsp' rd cs :
  matched s -> chans lsp' = chans (mgr s) -> cs = calls s ->
  matched {| mgr := lsp'; reader := rd; calls := cs |}.
Proof. intros M Hc -> i c id ch Hi Ho. cbn in *. rewrite Hc. eauto. Qed.

Lemma matched_started out : matched (started out).
Proof. intros i c id ch Hi. by destruct i. Qed.

Lemma matched_step s l s' : wf s -> matched s -> step s l s' -> matched s'.
Proof.
  intros W M Hs. pose proof W as [W1 W2 W3 W4 W5]. destruct Hs.
  - (* call *)
    subst r. unfold SendRequest_enter.
    destruct (negb (running (mgr s))); cbn.
    + intros i c id ch Hi Ho. cbn in *.
      apply lookup_app_Some in Hi as [Hi|[_ Hi]]; [eauto|].
      apply list_lookup_singleton_Some in Hi as [_ <-]. done.
    + intros i c id ch Hi Ho. cbn in *.
      apply lookup_app_Some in Hi as [Hi|[_ Hi]].
      * destruct (M _ _ _ _ Hi Ho) as (chan & Hc & Ha).
        exists chan. split; [|done]. by apply lookup_app_l_Some.
      * apply list_lookup_singleton_Some in Hi as [_ <-]. cbn in Ho.
        injection Ho as <- <-. exists (make_chan 1). split; [|by left].
        rewrite lookup_app_r by lia. by rewrite Nat.sub_diag.
  - (* write *)
    subst r. cbn.
    pose proof (writeMessage_fields request (mgr s)) as (_ & Ec & _).
    intros j c id' ch' Hj Ho. cbn in *.
    destruct (writeMessage request (mgr s)) as [lsp' [err|]]; cbn in *;
      rewrite Ec;
      (eapply insert_same_owner in Hj as (c1 & Hj & Ho1); [|exact H0|done]);
      rewrite <- Ho1 in Ho; eauto.
  - (* cleanup *)
    subst r. cbn. intros j c id' ch' Hj Ho. cbn in *.
    eapply insert_no_owner in Hj as [Hj _]; [|done|exact Ho]. eauto.
  - (* receive *)
    apply receive_inv in H1 as (id & ch & chan & m & chan' & -> & Hc & Hp & -> & ->).
    intros j c id' ch' Hj Ho. cbn in *.
    eapply insert_no_owner in Hj as [Hj Hne]; [|done|exact Ho].
    destruct (M _ _ _ _ Hj Ho) as (chan0 & Hc0 & Ha).
    exists chan0. split; [|done].
    rewrite list_lookup_insert_ne; [done|].
    intros <-. apply Hne. by eapply (W3 j i c (CallAwaiting id ch)).
  - (* notify *)
    pose proof (writeMessage_fields (notification_frame method params) (mgr s))
      as (_ & Ec & _).
    by apply (matched_same_chans s).
  - (* reader *)
    subst r. unfold readMessages_iteration.
    destruct (running (mgr s)); cbn; [|by apply (matched_same_chans s)].
    destruct (read_frame (stdout (mgr s))) as [|rest|content rest]; cbn;
      try by apply (matched_same_chans s).
    destruct (Unmarshal_msg content) as [msg|] eqn:Hmsg; cbn;
      [|by apply (matched_same_chans s)].
    destruct (ID msg) as [id|] eqn:Hid.
    + destruct (responseHandlers (mgr s) !! id) as [ch|] eqn:Hl.
      * rewrite (dispatch_matched s content msg id ch rest W Hid Hl). cbn.
        intros j c id' ch' Hj Ho. cbn in *.
        destruct (M _ _ _ _ Hj Ho) as (chan0 & Hc0 & Ha).
        destruct (decide (ch' = ch)) as [->|Hne].
        -- destruct (W2 _ _ Hl) as (i & c0 & Hi & Ho0).
           assert (id' = id) as -> by exact (owner_unique s j i c c0 id' id ch W Hj Hi Ho Ho0).
           eexists. split.
           ++ apply list_lookup_insert_eq. by eapply lookup_lt_Some.
           ++ right. by exists content, msg.
        -- exists chan0. split; [|done]. by rewrite list_lookup_insert_ne.
      * rewrite dispatch_unmatched with (id := id) by done.
        by apply (matched_same_chans s).
    + rewrite dispatch_notification by done. cbn.
      case_bool_decide; by apply (matched_same_chans s).
  - by apply (matched_same_chans s).
  - by apply (matched_same_chans s).
  - by apply (matched_same_chans s).
Qed.

Lemma matched_run s ls s' : wf s -> matched s -> run s ls s' -> wf s' /\ matched s'.
Proof.
  intros W M Hr. induction Hr; [done|].
  apply IHHr; [by eapply wf_step|by eapply matched_step].
Qed.

(** X11. A call of [SendRequest] only ever receives an answer to itself:
    in every state the goroutines around a started manager can reach,
    what a waiting call receives from its channel is a frame that parses
    and carries the id the call was registered with. *)
Theorem responses_match_ids (out : string) (ls : list label) (s : System)
        (i : nat) (id : Z) (ch : nat) (lsp' : LSPManager) (response : RawMessage) :
  run (started out) ls s ->
  calls s !! i = Some (CallAwaiting id ch) ->
  SendRequest_receive (CallAwaiting id ch) (mgr s)
    = Some (lsp', CallReturned (Some response) None) ->
  exists msg, Unmarshal_msg response = Some msg /\ ID msg = Some id.
Proof.
  intros Hrun Hi Hrecv.
  destruct (matched_run _ _ _ (wf_started out) (matched_started out) Hrun) as [W M].
  destruct (M i _ id ch Hi eq_refl) as (chan & Hc & Ha).
  apply receive_inv in Hrecv as (id0 & ch0 & chan0 & m & chan' & [= <- <-] & Hc' & Hp & _ & [= <-]).
  rewrite Hc in Hc'. injection Hc' as <-.
  destruct Ha as [->|(content & msg & -> & Hmsg & Hid)]; [done|].
  cbn in Hp. injection Hp as <- _. by exists msg.
Qed.

Lemma step_stopped s l s' :
  step s l s' -> running (mgr s) = false ->
  running (mgr s') = false /\ stdin (mgr s') = stdin (mgr s)
  /\ messageID (mgr s') = messageID (mgr s)
  /\ (forall c, l = LCall c -> c = CallReturned None (Some ErrNotRunning)).
Proof.
  intros Hs Hrun. destruct Hs; cbn.
  - subst r. unfold SendRequest_enter. rewrite Hrun. cbn.
    repeat split; try done. by intros c [= <-].
  - subst r. cbn. unfold writeMessage. rewrite Hrun. cbn. done.
  - done.
  - apply receive_inv in H1 as (id & ch & chan & m & chan' & _ & _ & _ & -> & _).
    done.
  - unfold SendNotification, writeMessage. rewrite Hrun. cbn. done.
  - subst r. unfold readMessages_iteration. rewrite Hrun. cbn. done.
  - done.
  - done.
  - done.
Qed.

Lemma run_stopped s ls s' :
  run s ls s' -> running (mgr s) = false ->
  running (mgr s') = false /\ stdin (mgr s') = stdin (mgr s)
  /\ messageID (mgr s') = messageID (mgr s)
  /\ (forall c, LCall c ∈ ls -> c = CallReturned None (Some ErrNotRunning)).
Proof.
  induction 1 as [s|s l s1 ls s2 Hs Hr IH]; intros Hrun.
  - repeat split; try done. intros c Hc. by apply elem_of_nil in Hc.
  - destruct (step_stopped _ _ _ Hs Hrun) as (R1 & S1 & M1 & C1).
    destruct (IH R1) as (R2 & S2 & M2 & C2).
    repeat split; try congruence.
    intros c Hc. apply elem_of_cons in Hc as [Hc|Hc]; [by apply C1|by apply C2].
Qed.

Lemma allocated_stopped ls :
  (forall c, LCall c ∈ ls -> c = CallReturned None (Some ErrNotRunning)) ->
  allocated ls = [].
Proof.
  induction ls as [|l ls IH]; intros Hc; [done|].
  assert (allocated ls = []) as Hrest.
  { apply IH. intros c Hin. apply Hc. by apply elem_of_cons; right. }
  destruct l as [c| | | | | | | |]; cbn; try done.
  rewrite (Hc c) by (apply elem_of_cons; by left). done.
Qed.

(** X12. After [Shutdown] a manager stays stopped (the registry never
    starts a manager twice): in every continuation nothing more is
    written to the child and the id counter does not move, no call of
    [SendRequest] allocates an id, and each one returns the error
    `LSP server not running`. *)
Theorem shutdown_is_final (s : System) (ls : list label) (s' : System) :
  run (after_shutdown_call s) ls s' ->
  running (mgr s') = false
  /\ stdin (mgr s') = stdin (mgr s)
  /\ messageID (mgr s') = messageID (mgr s)
  /\ allocated ls = []
  /\ (forall c, LCall c ∈ ls -> c = CallReturned None (Some ErrNotRunning)).
Proof.
  intros Hrun.
  destruct (run_stopped _ _ _ Hrun) as (R & S & M & C); [done|].
  repeat split; try done. by apply allocated_stopped.
Qed.

(** X13. A request whose write fails (the manager is running, the child is
    gone): the call has allocated the next id and registered a channel;
    it returns the error of the write, its entry is removed from the
    table again and nothing is added to what the child was sent; the id
    stays used. *)
Theorem failed_write_unregisters (method : string) (params : value)
        (lsp : LSPManager) :
  running lsp = true -> child_alive lsp = false ->
  let id := wrap64 (messageID lsp + 1) in
  let entered := SendRequest_enter method params lsp in
  let written := SendRequest_write entered.2 entered.1 in
  let sent := SendRequest_cleanup written.2 written.1 in
  entered.2 = CallRegistered id (length (chans lsp)) (request_frame id method params)
  /\ (exists err, sent.2 = CallReturned None (Some err) /\ kind_of err = OtherError)
  /\ responseHandlers sent.1 = delete id (responseHandlers lsp)
  /\ stdin sent.1 = stdin lsp
  /\ messageID sent.1 = id.
Proof.
  intros Hrun Hdead. cbn zeta.
  unfold SendRequest_enter. rewrite Hrun. cbn.
  unfold writeMessage. cbn. rewrite Hrun. cbn.
  replace (child_alive (set_table lsp _ _ _)) with false by (symmetry; exact Hdead).
  cbn. repeat split; try done.
  - by eexists.
  - by rewrite delete_insert_eq.
Qed.

End Multiplexer.

Section RegistryLifecycle.
Import Go Engine Registry Vocabulary Traffic.
Context `{JSONCodec}.

Lemma only_shut_length ms ms' : only_shut ms ms' -> length ms' = length ms.
Proof. by intros [Hlen _]. Qed.

Lemma set_managers_id (m : MultiLSPManager) : set_managers m (managers m) = m.
Proof. by destruct m. Qed.

(** A call on a manager that is not running. *)
Lemma SendRequest_begin_stopped language method params m r lsp :
  lspServers m !! language = Some r -> managers m !! r = Some lsp ->
  running lsp = false ->
  SendRequest_begin language method params m =
    (m, Some r, CallReturned None (Some ErrNotRunning))
  /\ Registry.SendNotification language method params m = (m, Some ErrNotRunning).
Proof.
  intros Hl Hr Hrun. unfold SendRequest_begin, Registry.SendNotification.
  rewrite Hl, Hr. unfold SendRequest_enter, Engine.SendNotification, writeMessage.
  rewrite Hrun. cbn.
  rewrite list_insert_id by done. by rewrite set_managers_id.
Qed.

Lemma route_unregistered method params m :
  lspServers m = ∅ ->
  exists e,
    RouteRequest_begin method params m = (m, None, CallReturned None (Some e))
    /\ RouteNotification method params m = (m, Some e).
Proof.
  intros Hempty. unfold RouteRequest_begin, RouteNotification.
  destruct (extractLanguageFromParams params) as [language [e|]].
  - by exists e.
  - exists (ErrNoServer language).
    unfold SendRequest_begin, Registry.SendNotification.
    by rewrite Hempty, lookup_empty.
Qed.

(** X14. After [ShutdownAll] no language is configured and [IsRunning] is
    false for every language; every manager the registry ever started is
    stopped and its child terminated; and every routed request or
    notification fails without reaching a manager, leaving the registry
    as it is. *)
Theorem ShutdownAll_stops_everything (m : MultiLSPManager) :
  reg_inv m ->
  let m' := ShutdownAll m in
  GetConfiguredLanguages m' = ∅
  /\ (forall language, IsRunning language m' = false)
  /\ (forall language r, started_for m language r -> terminated m' r)
  /\ (forall method params, exists e,
        RouteRequest_begin method params m' = (m', None, CallReturned None (Some e))
        /\ RouteNotification method params m' = (m', Some e)).
Proof.
  intros Hinv m'.
  pose proof (ShutdownAll_inv m Hinv) as Hinv'. fold m' in Hinv'.
  split; [|split; [|split]].
  - unfold GetConfiguredLanguages. cbn. apply dom_empty_L.
  - intros language. unfold IsRunning. cbn. by rewrite lookup_empty.
  - intros language r Hs.
    assert (Hs' : started_for m' language r) by exact Hs.
    pose proof (inv_bound _ Hinv' _ _ Hs') as Hb.
    destruct (lookup_lt_is_Some_2 _ _ Hb) as [lsp Hlsp].
    assert (Hstop : running lsp = false).
    { destruct (running lsp) eqn:Hrun; [|done].
      assert (Hreg : lspServers m' !! language = Some r).
      { apply (inv_running _ Hinv'); [done|]. by exists lsp. }
      cbn in Hreg. by rewrite lookup_empty in Hreg. }
    exists lsp. split; [done|]. split; [done|].
    by apply (inv_dead _ Hinv' r).
  - intros method params. by apply route_unregistered.
Qed.

Lemma other_language_reference m language language' r r' :
  reg_inv m -> language' <> language ->
  lspServers m !! language = Some r -> lspServers m !! language' = Some r' ->
  r' <> r.
Proof.
  intros Hinv Hne Hl Hl' ->. apply Hne.
  eapply (inv_one_language _ Hinv); by apply (inv_registered _ Hinv).
Qed.

Lemma after_shutdown_other m language language' r' :
  reg_inv m -> language' <> language ->
  lspServers m !! language' = Some r' ->
  after_shutdown language m !! r' = managers m !! r'.
Proof.
  intros Hinv Hne Hl'. unfold after_shutdown.
  destruct (lspServers m !! language) as [r|] eqn:Hl; [|done].
  apply list_lookup_alter_ne.
  intros Heq.
  apply (other_language_reference m language language' r r' Hinv Hne Hl Hl').
  congruence.
Qed.

(** X15. [StartLSP] for one language leaves the others alone: their
    entries, their managers, what [IsRunning] says of them and the merged
    notification channel are as before, whether the new server starts or
    not.  When it starts, its language is running and is added to the
    configured languages; when it does not, the configured languages are
    as before. *)
Theorem StartLSP_touches_one_language (m : MultiLSPManager)
        (language path dir : string) (os : spawn) (language' : string) :
  reg_inv m -> language' <> language ->
  let m' := (StartLSP language path dir os m).1 in
  lspServers m' !! language' = lspServers m !! language'
  /\ (forall r', lspServers m !! language' = Some r' ->
                 managers m' !! r' = managers m !! r')
  /\ IsRunning language' m' = IsRunning language' m
  /\ notificationChan m' = notificationChan m
  /\ (forall out, os = SpawnOk out ->
        IsRunning language m' = true
        /\ GetConfiguredLanguages m' = {[ language ]} ∪ GetConfiguredLanguages m)
  /\ (forall err, os = SpawnFails err ->
        GetConfiguredLanguages m' = GetConfiguredLanguages m).
Proof.
  intros Hinv Hne m'.
  assert (Hservers : lspServers m' !! language' = lspServers m !! language').
  { subst m'. destruct os as [err|out].
    - by rewrite StartLSP_fails.
    - rewrite StartLSP_ok. cbn. by rewrite lookup_insert_ne. }
  assert (Hmanagers : forall r', lspServers m !! language' = Some r' ->
                                 managers m' !! r' = managers m !! r').
  { intros r' Hl'. subst m'.
    pose proof (after_shutdown_other m language language' r' Hinv Hne Hl') as Ha.
    destruct os as [err|out].
    - by rewrite StartLSP_fails.
    - rewrite StartLSP_ok. cbn.
      pose proof (inv_bound _ Hinv _ _ (inv_registered _ Hinv _ _ Hl')) as Hb.
      rewrite lookup_app_l; [done|].
      by rewrite (only_shut_length _ _ (after_shutdown_only_shut language m)). }
  split; [done|]. split; [done|]. split; [|split; [|split]].
  - unfold IsRunning. rewrite Hservers.
    destruct (lspServers m !! language') as [r'|] eqn:Hl'; [|done].
    by rewrite Hmanagers.
  - subst m'. destruct os as [err|out]; [by rewrite StartLSP_fails|].
    by rewrite StartLSP_ok.
  - intros out ->. subst m'. rewrite StartLSP_ok. split.
    + unfold IsRunning. cbn. rewrite lookup_insert_eq.
      rewrite lookup_app_r by lia. by rewrite Nat.sub_diag.
    + unfold GetConfiguredLanguages. cbn. by rewrite dom_insert_L.
  - intros err ->. subst m'. by rewrite StartLSP_fails.
Qed.

(** X16. A restart that fails leaves the language configured but dead:
    the manager registered for the language has been shut down (its child
    terminated) before the new server was tried, the map still refers to
    it, [IsRunning] is false, and requests and notifications for the
    language fail with `LSP server not running` (not with `no LSP server
    configured`). *)
Theorem failed_restart_leaves_dead_entry (m : MultiLSPManager)
        (language path dir : string) (err : error) (r : nat)
        (method : string) (params : value) :
  reg_inv m -> lspServers m !! language = Some r ->
  let m' := (StartLSP language path dir (SpawnFails err) m).1 in
  (StartLSP language path dir (SpawnFails err) m).2
    = Some (ErrFailedToStart language err)
  /\ lspServers m' = lspServers m
  /\ terminated m' r
  /\ IsRunning language m' = false
  /\ SendRequest_begin language method params m'
     = (m', Some r, CallReturned None (Some ErrNotRunning))
  /\ Registry.SendNotification language method params m' = (m', Some ErrNotRunning).
Proof.
  intros Hinv Hl m'. subst m'. rewrite StartLSP_fails. cbn [fst snd].
  set (m' := set_managers m (after_shutdown language m)).
  assert (Hinv' : reg_inv m').
  { apply reg_inv_only_shut; [done|]. apply after_shutdown_only_shut. }
  destruct (registered_manager m language r Hinv Hl) as [lsp0 Hlsp0].
  assert (Hlen : (r < length (after_shutdown language m))%nat).
  { rewrite (only_shut_length _ _ (after_shutdown_only_shut language m)).
    by eapply lookup_lt_Some. }
  destruct (lookup_lt_is_Some_2 _ _ Hlen) as [lsp Hlsp].
  pose proof (after_shutdown_stops language m r lsp Hl Hlsp) as Hstop.
  assert (Hterm : terminated m' r).
  { exists lsp. split; [done|]. split; [done|]. by apply (inv_dead _ Hinv' r). }
  split; [done|]. split; [done|]. split; [done|]. split.
  - unfold IsRunning. cbn. rewrite Hl, Hlsp. done.
  - by apply (SendRequest_begin_stopped language method params m' r lsp).
Qed.

End RegistryLifecycle.

Section EndToEnd.
Import Go Engine Registry FileOps Session Vocabulary Traffic.
Context `{JSONCodec}.

(** A request on a running manager whose child is alive: registered
    and written. *)
Lemma SendRequest_begin_written language method params m r lsp :
  lspServers m !! language = Some r -> managers m !! r = Some lsp ->
  running lsp = true -> child_alive lsp = true ->
  let id := wrap64 (messageID lsp + 1) in
  let ch := length (chans lsp) in
  SendRequest_begin language method params m =
  (set_managers m
     (<[r := set_stdin
               (set_table lsp id (<[id := ch]> (responseHandlers lsp))
                          (chans lsp ++ [make_chan 1]))
               (stdin lsp ++ [frame (Marshal (request_frame id method params))])]>
        (managers m)),
   Some r, CallAwaiting id ch).
Proof.
  intros Hl Hr Hrun Halive. cbn zeta.
  unfold SendRequest_begin. rewrite Hl, Hr.
  unfold SendRequest_enter. rewrite Hrun. cbn [negb].
  unfold SendRequest_write, writeMessage.
  change (running (set_table lsp _ _ _)) with (running lsp).
  change (child_alive (set_table lsp _ _ _)) with (child_alive lsp).
  rewrite Hrun, Halive. cbn [negb]. done.
Qed.

(** The whole cycle of a request on the manager behind [r]: the call
    registers and writes, the reader delivers the frame that carries
    the id, the call receives it. *)
Lemma request_cycle language method params m r lsp response rest answer :
  lspServers m !! language = Some r -> managers m !! r = Some lsp ->
  running lsp = true -> child_alive lsp = true ->
  stdout lsp = frame response +:+ rest -> fits response ->
  Unmarshal_msg response = Some answer ->
  ID answer = Some (wrap64 (messageID lsp + 1)) ->
  let id := wrap64 (messageID lsp + 1) in
  let ch := length (chans lsp) in
  exists m1 m2 lsp2,
    SendRequest_begin language method params m = (m1, Some r, CallAwaiting id ch)
    /\ lspServers m1 = lspServers m
    /\ SendRequest_end r (CallAwaiting id ch) (reader_turn r m1) = Some (m2, response)
    /\ lspServers m2 = lspServers m
    /\ notificationChan m2 = notificationChan m
    /\ managers m2 = <[r := lsp2]> (managers m)
    /\ stdin lsp2 =
       (stdin lsp ++ [frame (Marshal (request_frame id method params))])%list
    /\ stdout lsp2 = rest
    /\ responseHandlers lsp2 = delete id (responseHandlers lsp)
    /\ messageID lsp2 = id
    /\ running lsp2 = true /\ child_alive lsp2 = true
    /\ cmd lsp2 = cmd lsp.
Proof.
  intros Hl Hr Hrun Halive Hout Hfit Hans Hid. cbn zeta.
  set (id := wrap64 (messageID lsp + 1)) in *.
  set (ch := length (chans lsp)).
  pose proof (SendRequest_begin_written language method params m r lsp Hl Hr Hrun Halive)
    as Hbegin. cbn zeta in Hbegin. fold id ch in Hbegin.
  set (written := set_stdin _ _) in Hbegin.
  set (m1 := set_managers m (<[r := written]> (managers m))) in Hbegin.
  assert (Hlt : (r < length (managers m))%nat) by by eapply lookup_lt_Some.
  assert (Hm1 : managers m1 !! r = Some written)
    by (cbn; by apply list_lookup_insert_eq).
  assert (Hframe : read_frame (stdout written) = FrameOk response rest).
  { cbn. rewrite Hout. by apply frame_round_trip. }
  assert (Hit : readMessages_iteration written =
                (set_table (set_stdout written rest) id
                   (delete id (responseHandlers written))
                   (<[ch := chan_push (make_chan 1) response]> (chans written)),
                 ReaderRunning)).
  { rewrite (iteration_frame written response rest answer); [|done..].
    unfold dispatch. rewrite Hid. cbn [responseHandlers set_stdout written set_stdin set_table].
    rewrite lookup_insert_eq.
    change (chans (set_stdout written rest)) with (chans lsp ++ [make_chan 1])%list.
    change (messageID (set_stdout written rest)) with id.
    rewrite lookup_app_r by (subst ch; lia).
    replace (ch - length (chans lsp))%nat with 0%nat by (subst ch; lia).
    done. }
  set (delivered := set_table _ _ _ _) in Hit.
  assert (Hturn : reader_turn r m1 =
                  set_managers m1 (<[r := delivered]> (managers m1))).
  { unfold reader_turn. rewrite Hm1, Hit. done. }
  set (lsp2 := set_table delivered (messageID delivered) (responseHandlers delivered)
                 (<[ch := make_chan 1]> (chans delivered))).
  exists m1, (set_managers m (<[r := lsp2]> (managers m))), lsp2.
  split; [exact Hbegin|]. split; [done|]. split.
  - unfold SendRequest_end. rewrite Hturn.
    cbn [managers set_managers m1].
    rewrite list_lookup_insert_eq by (rewrite !length_insert; lia).
    cbn [mbind option_bind].
    unfold SendRequest_receive.
    assert (Hch : chans delivered !! ch = Some (chan_push (make_chan 1) response)).
    { cbn. apply list_lookup_insert_eq. rewrite length_app. cbn. subst ch. lia. }
    rewrite Hch. cbn [mbind option_bind chan_pop chan_push make_chan buf app].
    cbn [cap closed]. rewrite !list_insert_insert_eq. done.
  - repeat split; try done.
    cbn. by rewrite delete_insert_eq.
Qed.

Lemma HandleMessage_configure_lsp msg sess w :
  Type_ msg = "configure_lsp" ->
  HandleMessage msg sess w = handle_configure_lsp msg sess w.
Proof. intros Ht. unfold HandleMessage. by rewrite Ht. Qed.

Lemma HandleMessage_save msg sess w :
  Type_ msg = "save" -> HandleMessage msg sess w = handle_save msg sess w.
Proof. intros Ht. unfold HandleMessage. by rewrite Ht. Qed.

Lemma policy_extract (params : value) (uri language : string) :
  textDocument_uri params = Some uri ->
  policy (TrimPrefix uri "file://") language ->
  extractLanguageFromParams params = (language, None).
Proof.
  intros Huri Hpol. rewrite (extract_uri _ _ Huri). cbn zeta.
  destruct (detectLanguageForLSP_policy (TrimPrefix uri "file://")) as [Hdet _].
  rewrite (Hdet _ Hpol).
  by destruct (policy_languages _ _ Hpol) as [-> | ->].
Qed.

(** X17. A client request, end to end.  An [lsp_request] whose document
    has a language with a running manager is written to that manager's
    child under the manager's next id; when the child answers with a
    frame that carries this id, one turn of the reader and the resumption
    of the handler send the client an [lsp_response] with the client's id
    and the result member of the frame.  The entry of the request is gone
    from the table and the file system is untouched. *)
Theorem request_round_trip (msg : Message) (payload : LSPRequestPayload)
        (sess : Session) (w : World) (uri language : string) (r : nat)
        (lsp : LSPManager) (response : RawMessage) (rest : string)
        (answer : IncomingMsg) :
  Type_ msg = "lsp_request" ->
  Unmarshal_LSPRequestPayload (Payload msg) = Some payload ->
  textDocument_uri (request_params payload) = Some uri ->
  policy (TrimPrefix uri "file://") language ->
  lspServers (registry w) !! language = Some r ->
  managers (registry w) !! r = Some lsp ->
  running lsp = true -> child_alive lsp = true ->
  stdout lsp = frame response +:+ rest -> fits response ->
  Unmarshal_msg response = Some answer ->
  ID answer = Some (wrap64 (messageID lsp + 1)) ->
  let id := wrap64 (messageID lsp + 1) in
  exists m1 resume w2 lsp2,
    HandleMessage msg sess w =
      Waiting sess (set_registry w m1) [] r
              (CallAwaiting id (length (chans lsp))) resume
    /\ resume_handler (HandleMessage msg sess w)
                      (set_registry w (reader_turn r m1))
       = Some (Handled sess w2
                 [lsp_response (req_ID payload)
                    (index_map (Unmarshal_map response) "result")])
    /\ managers (registry w2) !! r = Some lsp2
    /\ stdin lsp2 =
       (stdin lsp ++
        [frame (Marshal (request_frame id (req_Method payload)
                           (request_params payload)))])%list
    /\ stdout lsp2 = rest
    /\ responseHandlers lsp2 = delete id (responseHandlers lsp)
    /\ os w2 = os w.
Proof.
  intros Ht Hp Huri Hpol Hl Hr Hrun Halive Hout Hfit Hans Hid. cbn zeta.
  destruct (request_cycle language (req_Method payload) (request_params payload)
              (registry w) r lsp response rest answer
              Hl Hr Hrun Halive Hout Hfit Hans Hid)
    as (m1 & m2 & lsp2 & Hbegin & _ & Hend & Hservers & Hnote & Hmanagers & Hin & Hrest
        & Htable & Hmid & Hrun2 & Halive2 & _).
  assert (Hh : HandleMessage msg sess w =
               Waiting sess (set_registry w m1) [] r
                 (CallAwaiting (wrap64 (messageID lsp + 1)) (length (chans lsp)))
                 (fun result w' => (w', [lsp_request_reply payload result]))).
  { rewrite HandleMessage_lsp_request by done. unfold handle_lsp_request.
    rewrite Hp. fold (request_params payload).
    unfold RouteRequest_begin.
    rewrite (policy_extract _ _ _ Huri Hpol). by rewrite Hbegin. }
  exists m1, (fun result w' => (w', [lsp_request_reply payload result])),
         (set_registry w m2), lsp2.
  split; [exact Hh|]. split.
  - rewrite Hh. unfold resume_handler.
    change (registry (set_registry w (reader_turn r m1))) with (reader_turn r m1).
    rewrite Hend. done.
  - cbn. rewrite Hmanagers. split; [|done].
    apply list_lookup_insert_eq. by eapply lookup_lt_Some.
Qed.

(** X18. A server notification, end to end: a notification frame read by
    the reader of a manager is passed on by the forwarder of that manager
    to the merged channel and sent to the client as an
    [lsp_notification] whose payload is the decoded frame; both channels
    are empty again afterwards and nothing else changes but the position
    in the stream. *)
Theorem notification_reaches_client (w : World) (r : nat) (lsp : LSPManager)
        (d : RawMessage) (rest : string) (v : value) :
  managers (registry w) !! r = Some lsp ->
  running lsp = true ->
  read_frame (stdout lsp) = FrameOk d rest ->
  is_notification d ->
  Unmarshal_any d = Some v ->
  Engine.notificationChan lsp = make_chan 100 ->
  notificationChan (registry w) = make_chan 100 ->
  exists m2 w3,
    forwardNotifications_iteration r (reader_turn r (registry w)) = Some m2
    /\ notify_client (set_registry w m2) = Some (w3, [lsp_notification v])
    /\ notificationChan (registry w3) = make_chan 100
    /\ managers (registry w3) = <[r := set_stdout lsp rest]> (managers (registry w))
    /\ lspServers (registry w3) = lspServers (registry w).
Proof.
  intros Hr Hrun Hf Hnote Hv Hq Hmerged.
  assert (Hlt : (r < length (managers (registry w)))%nat) by by eapply lookup_lt_Some.
  assert (Hturn : reader_turn r (registry w) =
                  set_managers (registry w)
                    (<[r := set_notificationChan (set_stdout lsp rest)
                              (chan_push (make_chan 100) d)]>
                       (managers (registry w)))).
  { unfold reader_turn. rewrite Hr.
    rewrite (iteration_notification _ _ _ Hrun Hf Hnote). by rewrite Hq. }
  eexists _, _. split.
  - rewrite Hturn. unfold forwardNotifications_iteration.
    cbn [managers set_managers].
    rewrite list_lookup_insert_eq by done. cbn. rewrite Hmerged. done.
  - cbn. rewrite Hv. cbn. rewrite list_insert_insert_eq.
    repeat split; try done.
    f_equal. destruct lsp. cbn in *. by subst.
Qed.

End EndToEnd.

Section SessionLoop.
Import Go Engine Registry FileOps Session Vocabulary Traffic.
Context `{JSONCodec}.

Lemma HandleMessage_unknown msg sess w :
  Type_ msg ∉ message_types ->
  HandleMessage msg sess w =
  Handled sess w [error_reply ("Unknown message type: " +:+ Type_ msg)].
Proof.
  intros Hn. unfold HandleMessage.
  assert (Hne : forall t, t ∈ message_types -> String.eqb (Type_ msg) t = false).
  { intros t Ht. apply String.eqb_neq. intros Heq. apply Hn. by rewrite Heq. }
  rewrite !Hne by (unfold message_types; set_solver). done.
Qed.

(** X19. A message the handler cannot decode is answered with one error
    message and changes nothing: a payload that does not unmarshal into
    the payload type of its message type, for each of the five types, and
    a message of any other type. *)
Theorem malformed_message_is_rejected (msg : Message) (sess : Session) (w : World) :
  (Type_ msg = "open_file" -> Unmarshal_OpenFilePayload (Payload msg) = None ->
     HandleMessage msg sess w =
     Handled sess w [error_reply "Invalid open_file payload"])
  /\ (Type_ msg = "configure_lsp" ->
      Unmarshal_ConfigureLSPPayload (Payload msg) = None ->
      HandleMessage msg sess w =
      Handled sess w [error_reply "Invalid configure_lsp payload"])
  /\ (Type_ msg = "delta" -> Unmarshal_DeltaPayload (Payload msg) = None ->
      HandleMessage msg sess w =
      Handled sess w [error_reply "Invalid delta payload"])
  /\ (Type_ msg = "save" -> Unmarshal_SavePayload (Payload msg) = None ->
      HandleMessage msg sess w =
      Handled sess w [error_reply "Invalid save payload"])
  /\ (Type_ msg = "lsp_request" ->
      Unmarshal_LSPRequestPayload (Payload msg) = None ->
      HandleMessage msg sess w =
      Handled sess w [error_reply "Invalid lsp_request payload"])
  /\ (Type_ msg ∉ message_types ->
      HandleMessage msg sess w =
      Handled sess w [error_reply ("Unknown message type: " +:+ Type_ msg)]).
Proof.
  repeat split.
  - intros Ht Hp. rewrite HandleMessage_open_file by done.
    unfold handle_open_file. by rewrite Hp.
  - intros Ht Hp. rewrite HandleMessage_configure_lsp by done.
    unfold handle_configure_lsp. by rewrite Hp.
  - intros Ht Hp. rewrite HandleMessage_delta by done.
    unfold handle_delta. by rewrite Hp.
  - intros Ht Hp. rewrite HandleMessage_save by done.
    unfold handle_save. by rewrite Hp.
  - intros Ht Hp. rewrite HandleMessage_lsp_request by done.
    unfold handle_lsp_request. by rewrite Hp.
  - apply HandleMessage_unknown.
Qed.

Lemma not_an_error_reply (v : value) (type : string) (text : string) :
  index_map (default ∅ (as_map v)) "type" = VString type ->
  type <> "error" -> error_reply text <> v.
Proof.
  intros Hv Hne Heq. apply Hne.
  apply (f_equal (fun v => index_map (default ∅ (as_map v)) "type")) in Heq.
  rewrite Hv in Heq. vm_compute in Heq. congruence.
Qed.

Lemma only_error_reply (text t : string) :
  error_reply text ∈ [error_reply t] -> [error_reply t] = [error_reply text].
Proof. intros Hin. apply list_elem_of_singleton in Hin. by rewrite Hin. Qed.

Lemma lsp_request_reply_not_error payload result text :
  error_reply text <> lsp_request_reply payload result.
Proof. by apply not_an_error_reply with (type := "lsp_response"). Qed.

(** What the handler has done when it is answered with an error
    message at once. *)
Lemma error_reply_at_once msg sess w sess' w' replies text :
  HandleMessage msg sess w = Handled sess' w' replies ->
  error_reply text ∈ replies ->
  sess' = sess /\ replies = [error_reply text] /\ exec w' = exec w
  /\ (Type_ msg <> "save" -> os w' = os w).
Proof.
  pose proof (only_error_reply text) as Hone.
  unfold HandleMessage.
  destruct (String.eqb (Type_ msg) "open_file").
  { unfold handle_open_file.
    destruct (Unmarshal_OpenFilePayload (Payload msg)) as [payload|].
    2:{ intros [= <- <- <-] Hin. by rewrite (Hone _ Hin). }
    destruct (ReadFile (os w) (open_Path payload)) as [content [err|]].
    { intros [= <- <- <-] Hin. by rewrite (Hone _ Hin). }
    destruct (detectLanguage (open_Path payload)) as [languageId|m]; [|done].
    destruct (RouteNotification _ _ _) as [m' e].
    intros [= <- <- <-] Hin. apply list_elem_of_singleton in Hin.
    by apply not_an_error_reply with (type := "file_opened") in Hin. }
  destruct (String.eqb (Type_ msg) "configure_lsp").
  { unfold handle_configure_lsp.
    destruct (Unmarshal_ConfigureLSPPayload (Payload msg)) as [payload|].
    2:{ intros [= <- <- <-] Hin. by rewrite (Hone _ Hin). }
    destruct (String.eqb (cfg_Language payload) "").
    { intros [= <- <- <-] Hin. by rewrite (Hone _ Hin). }
    destruct (if String.eqb (cfg_ServerPath payload) "" then _ else _) as [server|].
    2:{ intros [= <- <- <-] Hin. by rewrite (Hone _ Hin). }
    destruct (StartLSP _ _ _ _ _) as [m1 [err|]].
    { intros [= <- <- <-] Hin. by rewrite (Hone _ Hin). }
    destruct (SendRequest_begin _ _ _ _) as [[m2 o] c].
    destruct o as [r|], c as [| | |resp [err|]];
      try (intros [= <- <- <-] Hin;
           first [by rewrite (Hone _ Hin) | by apply elem_of_nil in Hin]);
      done. }
  destruct (String.eqb (Type_ msg) "delta").
  { unfold handle_delta.
    destruct (Unmarshal_DeltaPayload (Payload msg)) as [payload|].
    2:{ intros [= <- <- <-] Hin. by rewrite (Hone _ Hin). }
    destruct (ApplyDelta _ _ _ _) as [[newContent [err|]]|m]; [| |done].
    { intros [= <- <- <-] Hin. by rewrite (Hone _ Hin). }
    destruct (RouteNotification _ _ _) as [m' e].
    intros [= <- <- <-] Hin. by apply elem_of_nil in Hin. }
  destruct (String.eqb_spec (Type_ msg) "save") as [Hsave|Hsave].
  { unfold handle_save.
    destruct (Unmarshal_SavePayload (Payload msg)) as [payload|].
    2:{ intros [= <- <- <-] Hin. by rewrite (Hone _ Hin). }
    destruct (WriteFile _ _ _) as [os' [err|]].
    { intros [= <- <- <-] Hin. by rewrite (Hone _ Hin). }
    destruct (RouteNotification _ _ _) as [m' e].
    intros [= <- <- <-] Hin. apply list_elem_of_singleton in Hin.
    by apply not_an_error_reply with (type := "file_saved") in Hin. }
  destruct (String.eqb (Type_ msg) "lsp_request").
  { unfold handle_lsp_request.
    destruct (Unmarshal_LSPRequestPayload (Payload msg)) as [payload|].
    2:{ intros [= <- <- <-] Hin. by rewrite (Hone _ Hin). }
    destruct (RouteRequest_begin _ _ _) as [[m2 o] c].
    destruct o as [r|], c as [| | |resp [err|]];
      try (intros [= <- <- <-] Hin;
           first [by rewrite (Hone _ Hin) | by apply elem_of_nil in Hin]);
      done. }
  intros [= <- <- <-] Hin. by rewrite (Hone _ Hin).
Qed.

(** A handler that waits has replied nothing yet and has changed
    neither the session nor the files; what it does once it has its
    response. *)
Lemma error_reply_after_wait msg sess w sess1 w1 replies1 r c resume :
  HandleMessage msg sess w = Waiting sess1 w1 replies1 r c resume ->
  sess1 = sess /\ replies1 = [] /\ os w1 = os w /\ exec w1 = exec w
  /\ forall response w2,
       os (resume response w2).1 = os w2 /\ exec (resume response w2).1 = exec w2
       /\ forall text, error_reply text ∈ (resume response w2).2 ->
                       (resume response w2).2 = [error_reply text].
Proof.
  pose proof (only_error_reply) as Hone.
  unfold HandleMessage.
  destruct (String.eqb (Type_ msg) "open_file").
  { unfold handle_open_file.
    destruct (Unmarshal_OpenFilePayload (Payload msg)) as [payload|]; [|done].
    destruct (ReadFile (os w) (open_Path payload)) as [content [err|]]; [done|].
    destruct (detectLanguage (open_Path payload)) as [languageId|m]; [|done].
    by destruct (RouteNotification _ _ _) as [m' e]. }
  destruct (String.eqb (Type_ msg) "configure_lsp").
  { unfold handle_configure_lsp.
    destruct (Unmarshal_ConfigureLSPPayload (Payload msg)) as [payload|]; [|done].
    destruct (String.eqb (cfg_Language payload) ""); [done|].
    destruct (if String.eqb (cfg_ServerPath payload) "" then _ else _) as [server|];
      [|done].
    destruct (StartLSP _ _ _ _ _) as [m1 [err|]]; [done|].
    destruct (SendRequest_begin _ _ _ _) as [[m2 o] c0].
    destruct o as [r0|], c0 as [| | |resp [err|]]; try done.
    intros [= <- <- <- <- <- <-]. repeat split; try done.
    - by destruct (Registry.SendNotification _ _ _ _) as [m3 [err|]].
    - by destruct (Registry.SendNotification _ _ _ _) as [m3 [err|]].
    - intros text.
      destruct (Registry.SendNotification _ _ _ _) as [m3 [err|]]; cbn.
      + intros Hin. by rewrite (Hone _ _ Hin).
      + intros Hin. apply list_elem_of_singleton in Hin.
        by apply not_an_error_reply with (type := "lsp_configured") in Hin. }
  destruct (String.eqb (Type_ msg) "delta").
  { unfold handle_delta.
    destruct (Unmarshal_DeltaPayload (Payload msg)) as [payload|]; [|done].
    destruct (ApplyDelta _ _ _ _) as [[newContent [err|]]|m]; try done.
    by destruct (RouteNotification _ _ _) as [m' e]. }
  destruct (String.eqb (Type_ msg) "save").
  { unfold handle_save.
    destruct (Unmarshal_SavePayload (Payload msg)) as [payload|]; [|done].
    destruct (WriteFile _ _ _) as [os' [err|]]; [done|].
    by destruct (RouteNotification _ _ _) as [m' e]. }
  destruct (String.eqb (Type_ msg) "lsp_request"); [|done].
  unfold handle_lsp_request.
  destruct (Unmarshal_LSPRequestPayload (Payload msg)) as [payload|]; [|done].
  destruct (RouteRequest_begin _ _ _) as [[m2 o] c0].
  destruct o as [r0|], c0 as [| | |resp [err|]]; try done.
  intros [= <- <- <- <- <- <-]. repeat split; try done.
  intros text Hin. cbn in Hin. apply list_elem_of_singleton in Hin.
  by apply lsp_request_reply_not_error in Hin.
Qed.

Lemma no_error_reply_in_panic msg sess w sess' w' replies m text :
  HandleMessage msg sess w = Panicked sess' w' replies m ->
  error_reply text ∉ replies.
Proof.
  unfold HandleMessage.
  destruct (String.eqb (Type_ msg) "open_file").
  { unfold handle_open_file.
    destruct (Unmarshal_OpenFilePayload (Payload msg)) as [payload|]; [|done].
    destruct (ReadFile (os w) (open_Path payload)) as [content [err|]]; [done|].
    destruct (detectLanguage (open_Path payload)) as [languageId|m0].
    - by destruct (RouteNotification _ _ _) as [m' e].
    - intros [= <- <- <- <-] Hin. apply list_elem_of_singleton in Hin.
      by apply not_an_error_reply with (type := "file_opened") in Hin. }
  destruct (String.eqb (Type_ msg) "configure_lsp").
  { unfold handle_configure_lsp.
    destruct (Unmarshal_ConfigureLSPPayload (Payload msg)) as [payload|]; [|done].
    destruct (String.eqb (cfg_Language payload) ""); [done|].
    destruct (if String.eqb (cfg_ServerPath payload) "" then _ else _) as [server|];
      [|done].
    destruct (StartLSP _ _ _ _ _) as [m1 [err|]]; [done|].
    destruct (SendRequest_begin _ _ _ _) as [[m2 o] c0].
    by destruct o as [r0|], c0 as [| | |resp [err|]]. }
  destruct (String.eqb (Type_ msg) "delta").
  { unfold handle_delta.
    destruct (Unmarshal_DeltaPayload (Payload msg)) as [payload|]; [|done].
    destruct (ApplyDelta _ _ _ _) as [[newContent [err|]]|m0]; try done.
    - by destruct (RouteNotification _ _ _) as [m' e].
    - intros [= <- <- <- <-]. apply not_elem_of_nil. }
  destruct (String.eqb (Type_ msg) "save").
  { unfold handle_save.
    destruct (Unmarshal_SavePayload (Payload msg)) as [payload|]; [|done].
    destruct (WriteFile _ _ _) as [os' [err|]]; [done|].
    by destruct (RouteNotification _ _ _) as [m' e]. }
  destruct (String.eqb (Type_ msg) "lsp_request"); [|done].
  unfold handle_lsp_request.
  destruct (Unmarshal_LSPRequestPayload (Payload msg)) as [payload|]; [|done].
  destruct (RouteRequest_begin _ _ _) as [[m2 o] c0].
  by destruct o as [r0|], c0 as [| | |resp [err|]].
Qed.

(** X20. An error message is the only reply of the turn that sends
    it, and the session (open file and mirror) and the way servers are
    started are then as before the message.  This holds of a handler
    that answers at once, where the file system is as before too unless
    the message is a [save]; and of a handler that has waited for a
    response ([configure_lsp], whose [initialized] notification can
    fail): it has replied nothing and changed neither session nor files
    while waiting, and the turn that resumes it leaves the files as it
    finds them.  A handler that panics has sent no error message. *)
Theorem error_reply_means_unchanged (msg : Message) (sess : Session) (w : World) :
  (forall sess' w' replies text,
      HandleMessage msg sess w = Handled sess' w' replies ->
      error_reply text ∈ replies ->
      sess' = sess /\ replies = [error_reply text] /\ exec w' = exec w
      /\ (Type_ msg <> "save" -> os w' = os w))
  /\ (forall sess1 w1 replies1 r c resume,
        HandleMessage msg sess w = Waiting sess1 w1 replies1 r c resume ->
        sess1 = sess /\ replies1 = [] /\ os w1 = os w /\ exec w1 = exec w
        /\ forall w2 sess' w' replies text,
             resume_handler (Waiting sess1 w1 replies1 r c resume) w2
               = Some (Handled sess' w' replies) ->
             error_reply text ∈ replies ->
             sess' = sess /\ replies = [error_reply text]
             /\ os w' = os w2 /\ exec w' = exec w2)
  /\ (forall sess' w' replies m text,
        HandleMessage msg sess w = Panicked sess' w' replies m ->
        error_reply text ∉ replies).
Proof.
  split; [|split].
  - intros sess' w' replies text. apply error_reply_at_once.
  - intros sess1 w1 replies1 r c resume Hw.
    destruct (error_reply_after_wait _ _ _ _ _ _ _ _ _ Hw)
      as (-> & -> & Hos & Hexec & Hresume).
    split; [done|]. split; [done|]. split; [done|]. split; [done|].
    intros w2 sess' w' replies text Hres Hin.
    cbn [resume_handler] in Hres.
    destruct (SendRequest_end r c (registry w2)) as [[m' response]|];
      cbn [mbind option_bind] in Hres; [|done].
    destruct (Hresume response (set_registry w2 m')) as (Ho & He & Herr).
    destruct (resume response (set_registry w2 m')) as [w3 more].
    cbn [fst snd app] in *. injection Hres as <- <- <-.
    split; [done|]. split; [by apply Herr|]. done.
  - intros sess' w' replies m text. apply no_error_reply_in_panic.
Qed.

Lemma in_range_spec (content : string) (d : DeltaPayload) :
  in_range content d = true <->
  0 <= FromPos d <= ToPos d /\ ToPos d <= len content.
Proof. unfold in_range. rewrite !andb_true_iff, !Z.leb_le. lia. Qed.

Lemma RouteNotification_servers method params m :
  lspServers (RouteNotification method params m).1 = lspServers m.
Proof.
  unfold RouteNotification.
  destruct (extractLanguageFromParams params) as [language [e|]]; [done|].
  unfold Registry.SendNotification.
  destruct (lspServers m !! language) as [r|]; [|done].
  destruct (managers m !! r) as [lsp|]; [|done].
  by destruct (Engine.SendNotification method params lsp).
Qed.

(** One delta. *)
Lemma handle_delta_step msg d sess w :
  is_delta msg d ->
  exists w',
    HandleMessage msg sess w =
    Handled {| currentFile := currentFile sess;
               currentContent := splice (currentContent sess) d |} w'
            (if in_range (currentContent sess) d then []
             else [error_reply "Failed to apply delta: invalid delta positions"])
    /\ os w' = os w /\ exec w' = exec w
    /\ lspServers (registry w') = lspServers (registry w).
Proof.
  intros [Ht Hd]. rewrite HandleMessage_delta by done.
  unfold handle_delta, splice. rewrite Hd.
  destruct (in_range (currentContent sess) d) eqn:Hr.
  - apply in_range_spec in Hr. rewrite (ApplyDelta_in_range _ _ _ _ Hr).
    cbn [currentFile currentContent].
    pose proof (RouteNotification_servers "textDocument/didChange"
      (didChange_params (currentFile sess)
         (str_take (Z.to_nat (FromPos d)) (currentContent sess) +:+ Insert d +:+
          str_drop (Z.to_nat (ToPos d)) (currentContent sess)))
      (registry w)) as Hs.
    destruct (RouteNotification _ _ _) as [m' e]. by eexists.
  - assert (Hout : ~ (0 <= FromPos d <= ToPos d /\ ToPos d <= len (currentContent sess))).
    { rewrite <- in_range_spec. by rewrite Hr. }
    rewrite (ApplyDelta_out_of_range _ _ _ _ Hout).
    exists w. by destruct sess.
Qed.

(** X21. The mirror follows the deltas: handling a sequence of delta
    messages leaves as the mirror the splices of the deltas, applied from
    left to right, where a delta whose range is invalid when its turn
    comes is skipped and answered with an error message; these are the
    only replies.  The open file, the file system and the configured
    languages do not change. *)
Theorem deltas_compose (msgs : list Message) (ds : list DeltaPayload)
        (sess : Session) (w : World) (sent : list value) :
  Forall2 is_delta msgs ds ->
  exists w',
    HandleWebSocket_loop msgs sess w sent =
    Handled {| currentFile := currentFile sess;
               currentContent := foldl splice (currentContent sess) ds |} w'
            (sent ++ delta_replies (currentContent sess) ds)
    /\ os w' = os w
    /\ lspServers (registry w') = lspServers (registry w).
Proof.
  intros Hds. revert sess w sent.
  induction Hds as [|msg d msgs ds Hd _ IH]; intros sess w sent.
  - exists w. cbn. rewrite app_nil_r. by destruct sess.
  - destruct (handle_delta_step msg d sess w Hd) as (w1 & Hstep & Hos & _ & Hservers).
    cbn [HandleWebSocket_loop foldl delta_replies]. rewrite Hstep.
    destruct (IH {| currentFile := currentFile sess;
                    currentContent := splice (currentContent sess) d |} w1
                 (sent ++ (if in_range (currentContent sess) d then []
                           else [error_reply "Failed to apply delta: invalid delta positions"]))%list)
      as (w' & Hloop & Hos' & Hservers').
    exists w'. rewrite Hloop. cbn [currentFile currentContent].
    rewrite <- app_assoc. split; [done|]. split; congruence.
Qed.


End SessionLoop.

Section LanguageIds.
Import Go Engine Registry FileOps Session Vocabulary Traffic.
Context `{JSONCodec}.

Lemma eqb_length_ne (a b : string) :
  String.length a <> String.length b -> String.eqb a b = false.
Proof. intros Hne. apply String.eqb_neq. intros ->. by apply Hne. Qed.

Lemma str_drop_app (n : nat) (a b : string) :
  (n <= String.length a)%nat -> str_drop n (a +:+ b) = str_drop n a +:+ b.
Proof.
  revert a. induction n as [|n IH]; intros a Hn; [done|].
  destruct a as [|c a]; cbn in Hn; [lia|].
  rewrite str_app_cons. cbn. apply IH. lia.
Qed.

(** Of two suffixes of a string, the shorter is a suffix of the longer. *)
Lemma ends_with_both (s a b : string) :
  ends_with s a -> ends_with s b ->
  (String.length a <= String.length b)%nat -> ends_with b a.
Proof.
  intros [s1 H1] [s2 H2] Hlen.
  assert (Hl : (String.length s2 <= String.length s1)%nat).
  { apply (f_equal String.length) in H1, H2. rewrite str_length_app in H1, H2. lia. }
  exists (str_drop (String.length s2) s1).
  rewrite <- str_drop_app by done. rewrite <- H1, H2.
  by rewrite str_drop_app_length.
Qed.

Lemma suffix_clash (s a b : string) :
  ends_with s a -> ends_with s b ->
  HasSuffix a b = false -> HasSuffix b a = false -> False.
Proof.
  intros Ha Hb Hab Hba.
  destruct (Nat.le_ge_cases (String.length a) (String.length b)) as [Hle|Hge].
  - apply HasSuffix_false in Hba. apply Hba. by eapply ends_with_both.
  - apply HasSuffix_false in Hab. apply Hab. by eapply ends_with_both.
Qed.

Lemma detectLanguage_ext (path : string) :
  3 <= len path ->
  detectLanguage path =
  Ret (if HasSuffix path ".py" then "python"
       else if HasSuffix path ".cc" then "cpp" else "plaintext").
Proof.
  intros Hlen. unfold detectLanguage. unfold len in *.
  rewrite slice_from_ok by (unfold len; lia).
  cbn [mbind outcome_bind mret outcome_ret].
  replace (Z.to_nat (Z.of_nat (String.length path) - 3))
    with (String.length path - 3)%nat by lia.
  set (ext := str_drop (String.length path - 3) path).
  assert (Hext : String.length ext = 3%nat).
  { subst ext. rewrite str_length_drop. lia. }
  unfold HasSuffix. cbn [String.length].
  assert ((3 <=? String.length path)%nat = true) as -> by (apply Nat.leb_le; lia).
  cbn [andb]. fold ext.
  rewrite (eqb_length_ne ext ".cpp"), (eqb_length_ne ext ".cxx"),
    (eqb_length_ne ext ".c"), (eqb_length_ne ext ".h"), (eqb_length_ne ext ".hpp")
    by (rewrite Hext; cbn; lia).
  cbn [orb].
  destruct (String.eqb ext ".py"); [done|]. by destruct (String.eqb ext ".cc").
Qed.

(** X23. [detectLanguage] compares the last three bytes of the path with
    extensions of two, three and four bytes, so only two cases of its
    switch can match: it returns [python] for a path that ends in [.py],
    [cpp] for one that ends in [.cc], and [plaintext] otherwise, never
    [c].  A path that ends in [.cpp], [.cxx], [.hpp], [.c] or [.h] is
    [plaintext] for it, whereas the registry routes such a path to the
    [cpp] server. *)
Theorem detectLanguage_three_bytes (path : string) :
  3 <= len path ->
  detectLanguage path =
    Ret (if HasSuffix path ".py" then "python"
         else if HasSuffix path ".cc" then "cpp" else "plaintext")
  /\ (ends_with path ".cpp" \/ ends_with path ".cxx" \/ ends_with path ".hpp" \/
      ends_with path ".c" \/ ends_with path ".h" ->
      detectLanguage path = Ret "plaintext"
      /\ detectLanguageForLSP path = "cpp").
Proof.
  intros Hlen. split; [by apply detectLanguage_ext|].
  intros Hsuffix.
  assert (Hpy : HasSuffix path ".py" = false).
  { apply HasSuffix_false. intros Hpy.
    destruct Hsuffix as [Hs|[Hs|[Hs|[Hs|Hs]]]];
      by apply (suffix_clash path _ _ Hs Hpy). }
  assert (Hcc : HasSuffix path ".cc" = false).
  { apply HasSuffix_false. intros Hcc.
    destruct Hsuffix as [Hs|[Hs|[Hs|[Hs|Hs]]]];
      by apply (suffix_clash path _ _ Hs Hcc). }
  split.
  - rewrite detectLanguage_ext by done. by rewrite Hpy, Hcc.
  - destruct (detectLanguageForLSP_policy path) as [Hdet _].
    apply Hdet. right. split; [|done]. tauto.
Qed.

Lemma TrimPrefix_file (path : string) : TrimPrefix ("file://" +:+ path) "file://" = path.
Proof.
  unfold TrimPrefix, HasPrefix.
  change (String.length "file://") with 7%nat.
  assert (Htake : str_take 7 ("file://" +:+ path) = "file://") by reflexivity.
  rewrite Htake. rewrite str_length_app. cbn. done.
Qed.

(** A notification on a running manager whose child is alive. *)
Lemma SendNotification_written language method params m r lsp :
  lspServers m !! language = Some r -> managers m !! r = Some lsp ->
  running lsp = true -> child_alive lsp = true ->
  Registry.SendNotification language method params m =
  (set_managers m
     (<[r := set_stdin lsp
               (stdin lsp ++ [frame (Marshal (notification_frame method params))])]>
        (managers m)), None).
Proof.
  intros Hl Hr Hrun Halive. unfold Registry.SendNotification.
  rewrite Hl, Hr. unfold Engine.SendNotification, writeMessage.
  by rewrite Hrun, Halive.
Qed.

(** X24. Opening a file whose language has a running manager: the file
    becomes the open file, its content the mirror and the reply, and the
    manager's child is sent one [textDocument/didOpen] notification with
    the URI [file://] + path, the content, and as [languageId] what
    [detectLanguage] makes of the last three bytes of the path. *)
Theorem open_file_announces (msg : Message) (payload : OpenFilePayload)
        (sess : Session) (w : World) (content language : string) (r : nat)
        (lsp : LSPManager) :
  Type_ msg = "open_file" ->
  Unmarshal_OpenFilePayload (Payload msg) = Some payload ->
  ReadFile (os w) (open_Path payload) = (content, None) ->
  3 <= len (open_Path payload) ->
  policy (open_Path payload) language ->
  lspServers (registry w) !! language = Some r ->
  managers (registry w) !! r = Some lsp ->
  running lsp = true -> child_alive lsp = true ->
  let path := open_Path payload in
  let languageId := if HasSuffix path ".py" then "python"
                    else if HasSuffix path ".cc" then "cpp" else "plaintext" in
  HandleMessage msg sess w =
  Handled {| currentFile := path; currentContent := content |}
    (set_registry w
       (set_managers (registry w)
          (<[r := set_stdin lsp
                    (stdin lsp ++
                     [frame (Marshal (notification_frame "textDocument/didOpen"
                                        (didOpen_params path languageId content)))])]>
             (managers (registry w)))))
    [file_opened path content].
Proof.
  intros Ht Hp Hread Hlen Hpol Hl Hr Hrun Halive. cbn zeta.
  rewrite HandleMessage_open_file by done. unfold handle_open_file.
  rewrite Hp, Hread. rewrite detectLanguage_ext by done.
  unfold RouteNotification.
  rewrite (policy_extract _ ("file://" +:+ open_Path payload) language).
  - by rewrite (SendNotification_written language _ _ _ r lsp).
  - reflexivity.
  - by rewrite TrimPrefix_file.
Qed.

End LanguageIds.

Section Configuration.
Import Go Engine Registry FileOps Session Vocabulary Traffic.
Context `{JSONCodec}.

Lemma after_shutdown_length language m :
  length (after_shutdown language m) = length (managers m).
Proof. apply only_shut_length, after_shutdown_only_shut. Qed.

(** The server path the handler settles on. *)
Lemma server_for_path (payload : ConfigureLSPPayload) (server : string) :
  server_for payload server ->
  (if String.eqb (cfg_ServerPath payload) ""
   then if String.eqb (cfg_Language payload) "cpp" then Some "clangd"
        else if String.eqb (cfg_Language payload) "python" then Some "pylsp"
        else None
   else Some (cfg_ServerPath payload)) = Some server.
Proof.
  intros [[Hne ->]|[(-> & -> & ->)|(-> & -> & ->)]]; [|done..].
  apply String.eqb_neq in Hne. by rewrite Hne.
Qed.

(** X25. How [configure_lsp] fails.  Without a language: an error, and
    nothing is started.  Without a server path and with a language other
    than [cpp] and [python]: an error, and nothing is started.  When the
    server cannot be started: an error that names the language and the
    cause; the manager that was registered for the language, if any, has
    been shut down all the same. *)
Theorem configure_lsp_failures (msg : Message) (payload : ConfigureLSPPayload)
        (sess : Session) (w : World) :
  Type_ msg = "configure_lsp" ->
  Unmarshal_ConfigureLSPPayload (Payload msg) = Some payload ->
  let language := cfg_Language payload in
  let dir := cfg_CompileCommandsDir payload in
  (language = "" ->
     HandleMessage msg sess w = Handled sess w [error_reply "Language is required"])
  /\ (language <> "" -> cfg_ServerPath payload = "" ->
      language <> "cpp" -> language <> "python" ->
      HandleMessage msg sess w =
      Handled sess w [error_reply ("Unknown language: " +:+ language)])
  /\ (forall server err,
        language <> "" -> server_for payload server ->
        exec w server dir = SpawnFails err ->
        HandleMessage msg sess w =
        Handled sess
          (set_registry w (set_managers (registry w)
                             (after_shutdown language (registry w))))
          [error_reply ("Failed to start LSP: failed to start " +:+ language +:+
                        " LSP: " +:+ error_message err)]).
Proof.
  intros Ht Hp. cbn zeta. rewrite HandleMessage_configure_lsp by done.
  unfold handle_configure_lsp. rewrite Hp. split; [|split].
  - intros ->. done.
  - intros Hl -> Hc Hpy.
    apply String.eqb_neq in Hl, Hc, Hpy. by rewrite Hl, Hc, Hpy.
  - intros server err Hl Hs Hexec.
    apply String.eqb_neq in Hl. rewrite Hl.
    rewrite (server_for_path _ _ Hs). rewrite Hexec, StartLSP_fails. done.
Qed.

(** X26. The handshake of [configure_lsp].  With a language and a server
    (the path of the payload, or [clangd] for [cpp] and [pylsp] for
    [python]) that starts, a new manager is registered for the language
    and its child is sent [initialize], under the id 1, with the root
    [file://] + the compile-commands directory, or [file:///] when there
    is none.  Once the child has answered, it is sent [initialized] and
    the client is told [lsp_configured].  The child was started with the
    directory as its only argument, or with none. *)
Theorem configure_lsp_handshake (msg : Message) (payload : ConfigureLSPPayload)
        (sess : Session) (w : World) (server : string)
        (response : RawMessage) (rest : string) (answer : IncomingMsg) :
  Type_ msg = "configure_lsp" ->
  Unmarshal_ConfigureLSPPayload (Payload msg) = Some payload ->
  cfg_Language payload <> "" ->
  server_for payload server ->
  exec w server (cfg_CompileCommandsDir payload) = SpawnOk (frame response +:+ rest) ->
  fits response ->
  Unmarshal_msg response = Some answer -> ID answer = Some 1 ->
  let language := cfg_Language payload in
  let dir := cfg_CompileCommandsDir payload in
  let rootDir := if String.eqb dir "" then "/" else dir in
  let r := length (managers (registry w)) in
  exists m1 resume w2 lsp2,
    HandleMessage msg sess w =
      Waiting sess (set_registry w m1) [] r (CallAwaiting 1 0) resume
    /\ lspServers m1 = <[language := r]> (lspServers (registry w))
    /\ resume_handler (HandleMessage msg sess w)
                      (set_registry w (reader_turn r m1))
       = Some (Handled sess w2 [lsp_configured language])
    /\ lspServers (registry w2) !! language = Some r
    /\ managers (registry w2) !! r = Some lsp2
    /\ stdin lsp2 =
       [frame (Marshal (request_frame 1 "initialize" (initParams rootDir)));
        frame (Marshal (notification_frame "initialized" (VMap ∅)))]
    /\ cmd lsp2 =
       Some {| Path := server;
               Args := if bool_decide (dir <> "")
                       then ["--compile-commands-dir=" +:+ dir] else [];
               Process := Some ProcAlive |}
    /\ running lsp2 = true
    /\ stdout lsp2 = rest.
Proof.
  intros Ht Hp Hl Hs Hexec Hfit Hans Hid. cbn zeta.
  set (rootDir := if String.eqb (cfg_CompileCommandsDir payload) "" then "/"
                  else cfg_CompileCommandsDir payload).
  set (r := length (managers (registry w))).
  set (out := frame response +:+ rest) in *.
  set (lsp := (Start server (cfg_CompileCommandsDir payload) (SpawnOk out)
                 NewLSPManager).1).
  set (m0 := (StartLSP (cfg_Language payload) server (cfg_CompileCommandsDir payload)
                (SpawnOk out) (registry w)).1).
  assert (Hm0 : StartLSP (cfg_Language payload) server (cfg_CompileCommandsDir payload)
                  (SpawnOk out) (registry w) = (m0, None)).
  { subst m0. by rewrite StartLSP_ok. }
  assert (Hreg : lspServers m0 = <[cfg_Language payload := r]> (lspServers (registry w))).
  { subst m0. rewrite StartLSP_ok. cbn. by rewrite after_shutdown_length. }
  assert (Hlsp : managers m0 !! r = Some lsp).
  { subst m0. rewrite StartLSP_ok. cbn.
    rewrite lookup_app_r by (rewrite after_shutdown_length; subst r; lia).
    rewrite after_shutdown_length. subst r. by rewrite Nat.sub_diag. }
  assert (Hl0 : lspServers m0 !! cfg_Language payload = Some r)
    by (rewrite Hreg; apply lookup_insert_eq).
  destruct (request_cycle (cfg_Language payload) "initialize" (initParams rootDir)
              m0 r lsp response rest answer Hl0 Hlsp eq_refl eq_refl eq_refl
              Hfit Hans Hid)
    as (m1 & m2 & lsp2 & Hbegin & Hservers1 & Hend & Hservers & Hnote & Hmanagers
        & Hin & Hrest & Htable & Hmid & Hrun2 & Halive2 & Hcmd).
  change (wrap64 (messageID lsp + 1)) with 1 in Hbegin, Hend, Hin.
  change (length (chans lsp)) with 0%nat in Hbegin, Hend.
  pose (resume := fun (_ : RawMessage) (w' : World) =>
          match Registry.SendNotification (cfg_Language payload) "initialized"
                  (VMap ∅) (registry w') with
          | (m3, Some err) =>
              (set_registry w' m3,
               [error_reply ("Failed to initialize LSP: " +:+ error_message err)])
          | (m3, None) => (set_registry w' m3, [lsp_configured (cfg_Language payload)])
          end).
  assert (Hh : HandleMessage msg sess w =
               Waiting sess (set_registry w m1) [] r (CallAwaiting 1 0) resume).
  { rewrite HandleMessage_configure_lsp by done. unfold handle_configure_lsp.
    rewrite Hp. apply String.eqb_neq in Hl. rewrite Hl.
    rewrite (server_for_path _ _ Hs). rewrite Hexec, Hm0. fold rootDir.
    by rewrite Hbegin. }
  assert (Hlt : (r < length (managers m0))%nat) by by eapply lookup_lt_Some.
  assert (Hlsp2 : managers m2 !! r = Some lsp2).
  { rewrite Hmanagers. by apply list_lookup_insert_eq. }
  assert (Hl2 : lspServers m2 !! cfg_Language payload = Some r) by by rewrite Hservers.
  pose proof (SendNotification_written (cfg_Language payload) "initialized" (VMap ∅)
                m2 r lsp2 Hl2 Hlsp2 Hrun2 Halive2) as Hnotify.
  set (lsp3 := set_stdin lsp2 _) in Hnotify.
  set (m3 := set_managers m2 _) in Hnotify.
  exists m1, resume, (set_registry w m3), lsp3.
  split; [exact Hh|].
  split; [by rewrite Hservers1|].
  split.
  { rewrite Hh. unfold resume_handler.
    change (registry (set_registry w (reader_turn r m1))) with (reader_turn r m1).
    rewrite Hend. cbn [mbind option_bind]. unfold resume.
    change (registry (set_registry (set_registry w (reader_turn r m1)) m2)) with m2.
    rewrite Hnotify. done. }
  split; [cbn; by rewrite Hservers|].
  split.
  { cbn. apply list_lookup_insert_eq. rewrite Hmanagers, length_insert. done. }
  split; [subst lsp3; cbn; by rewrite Hin|].
  split; [subst lsp3; cbn; by rewrite Hcmd|].
  split; [done|]. done.
Qed.

End Configuration.

Section Forwarder.
Import Go Engine Registry FileOps Session Vocabulary Traffic.

(** X27. [forwardNotifications] empties the channel of its manager into
    the merged channel in order, and drops what the merged channel has no
    room for: afterwards the merged channel holds what it held, followed
    by the notifications of the manager, cut at 100.  The manager is
    otherwise unchanged, and so is the map of the registry. *)
Theorem forwarder_keeps_order (fuel r : nat) (m : MultiLSPManager) (lsp : LSPManager) :
  managers m !! r = Some lsp ->
  cap (notificationChan m) = 100%nat ->
  (length (buf (notificationChan m)) <= 100)%nat ->
  (length (buf (Engine.notificationChan lsp)) <= fuel)%nat ->
  let m' := forwardNotifications fuel r m in
  buf (notificationChan m') =
    take 100 (buf (notificationChan m) ++ buf (Engine.notificationChan lsp))
  /\ (exists lsp', managers m' = <[r := lsp']> (managers m)
                   /\ buf (Engine.notificationChan lsp') = []
                   /\ responseHandlers lsp' = responseHandlers lsp
                   /\ chans lsp' = chans lsp
                   /\ stdin lsp' = stdin lsp /\ stdout lsp' = stdout lsp)
  /\ lspServers m' = lspServers m.
Proof.
  revert m lsp. induction fuel as [|fuel IH]; intros m lsp Hr Hcap Hlen Hfuel.
  - cbn. destruct (buf (Engine.notificationChan lsp)) eqn:Hq; [|cbn in Hfuel; lia].
    rewrite app_nil_r, take_ge by lia. split; [done|]. split; [|done].
    exists lsp. by rewrite list_insert_id.
  - cbn [forwardNotifications]. unfold forwardNotifications_iteration.
    rewrite Hr. cbn [mbind option_bind]. unfold chan_pop.
    destruct (buf (Engine.notificationChan lsp)) as [|d q] eqn:Hq.
    + cbn. rewrite app_nil_r, take_ge by lia. split; [done|]. split; [|done].
      exists lsp. by rewrite list_insert_id.
    + cbn [mbind option_bind].
      destruct (select_send_buf (notificationChan m) d Hcap Hlen) as (Hcap' & Hlen' & Htake).
      assert (Hlt : (r < length (managers m))%nat) by by eapply lookup_lt_Some.
      set (c' := {| buf := q; cap := _; closed := _ |}).
      set (m1 := {| lspServers := _; notificationChan := _; managers := _;
                    forwarders := _ |}).
      destruct (IH m1 (set_notificationChan lsp c')) as (IH1 & (lsp' & IH2 & IH3) & IH4).
      { subst m1. cbn. by apply list_lookup_insert_eq. }
      { done. }
      { done. }
      { cbn. cbn in Hfuel. lia. }
      split; [rewrite IH1; cbn; apply Htake|]. split; [|done].
      exists lsp'. split; [|done].
      rewrite IH2. subst m1. cbn. by rewrite list_insert_insert_eq.
Qed.

End Forwarder.

Section Announcements.
Import Go Engine Registry FileOps Session Vocabulary Traffic.
Context `{JSONCodec}.

(** A notification about the document [file://] + path, routed to the
    running manager of the language of the path. *)
Lemma RouteNotification_written method params path language m r lsp :
  textDocument_uri params = Some ("file://" +:+ path) ->
  policy path language ->
  lspServers m !! language = Some r -> managers m !! r = Some lsp ->
  running lsp = true -> child_alive lsp = true ->
  RouteNotification method params m =
  (set_managers m
     (<[r := set_stdin lsp
               (stdin lsp ++ [frame (Marshal (notification_frame method params))])]>
        (managers m)), None).
Proof.
  intros Huri Hpol Hl Hr Hrun Halive. unfold RouteNotification.
  rewrite (policy_extract _ ("file://" +:+ path) language);
    [|done|by rewrite TrimPrefix_file].
  by apply SendNotification_written.
Qed.

(** X28. A valid delta on an open file whose language has a running
    manager: the mirror becomes the splice, nothing is replied, and the
    manager's child is sent one [textDocument/didChange] notification
    for the URI [file://] + the open file, with version 1 and the whole
    new text of the mirror as its only content change. *)
Theorem delta_announces (msg : Message) (d : DeltaPayload) (sess : Session)
        (w : World) (language : string) (r : nat) (lsp : LSPManager) :
  is_delta msg d ->
  in_range (currentContent sess) d = true ->
  policy (currentFile sess) language ->
  lspServers (registry w) !! language = Some r ->
  managers (registry w) !! r = Some lsp ->
  running lsp = true -> child_alive lsp = true ->
  let newContent := splice (currentContent sess) d in
  HandleMessage msg sess w =
  Handled {| currentFile := currentFile sess; currentContent := newContent |}
    (set_registry w
       (set_managers (registry w)
          (<[r := set_stdin lsp
                    (stdin lsp ++
                     [frame (Marshal (notification_frame "textDocument/didChange"
                                        (didChange_params (currentFile sess)
                                                          newContent)))])]>
             (managers (registry w)))))
    [].
Proof.
  intros [Ht Hd] Hin Hpol Hl Hr Hrun Halive. cbn zeta.
  rewrite HandleMessage_delta by done. unfold handle_delta, splice.
  rewrite Hd, Hin. apply in_range_spec in Hin.
  rewrite (ApplyDelta_in_range _ _ _ _ Hin). cbn [currentFile currentContent].
  by rewrite (RouteNotification_written _ _ (currentFile sess) language _ r lsp).
Qed.

(** X29. A save that succeeds is announced by the saved path, not by
    the open file: the manager of the language of the saved path is sent
    one [textDocument/didSave] notification for the URI [file://] + that
    path; the client is told [file_saved], the file system holds the
    saved content, and the session is as before. *)
Theorem save_announces (msg : Message) (saved : SavePayload) (sess : Session)
        (w : World) (os' : OS) (language : string) (r : nat) (lsp : LSPManager) :
  Type_ msg = "save" ->
  Unmarshal_SavePayload (Payload msg) = Some saved ->
  WriteFile (os w) (save_Path saved) (save_Content saved) = (os', None) ->
  policy (save_Path saved) language ->
  lspServers (registry w) !! language = Some r ->
  managers (registry w) !! r = Some lsp ->
  running lsp = true -> child_alive lsp = true ->
  HandleMessage msg sess w =
  Handled sess
    {| registry :=
         set_managers (registry w)
           (<[r := set_stdin lsp
                     (stdin lsp ++
                      [frame (Marshal (notification_frame "textDocument/didSave"
                                         (didSave_params (save_Path saved))))])]>
              (managers (registry w)));
       os := os'; exec := exec w |}
    [file_saved].
Proof.
  intros Ht Hs Hw Hpol Hl Hr Hrun Halive.
  rewrite HandleMessage_save by done. unfold handle_save. rewrite Hs, Hw.
  by rewrite (RouteNotification_written _ _ (save_Path saved) language _ r lsp).
Qed.

End Announcements.

(** ** Examples of the further properties *)

Section FurtherExamples.
Import Go Engine Registry FileOps Session Vocabulary Sample Scenario Traffic.
#[local] Existing Instance Sample.codec.

Lemma ApplyDelta_bytes_witness :
  exists result,
    ApplyDelta "abcdef" 2 4 "XY" = Ret (result, None) /\ len result = 6
    /\ String.get 1 result = Some "b"%char
    /\ String.get 3 result = Some "Y"%char
    /\ String.get 5 result = Some "f"%char.
Proof.
  destruct (ApplyDelta_bytes "abcdef" 2 4 "XY") as (result & T1 & T2 & T3 & T4 & T5).
  { unfold len. simpl. lia. }
  exists result. split; [exact T1|]. split; [exact T2|].
  split; [apply (T3 1%nat); simpl; lia|].
  split; [apply (T4 1%nat); simpl; lia|].
  exact (T5 1%nat).
Defined.

Lemma ApplyDelta_undo_witness :
  exists removed,
    slice "abcdef" 2 4 = Ret removed
    /\ ApplyDelta "abXYef" 2 (2 + len "XY") removed = Ret ("abcdef", None).
Proof. exact (ApplyDelta_undo "abcdef" 2 4 "XY" "abXYef" eq_refl). Defined.

Lemma last_content_length_wins_witness :
  let stream := "Content-Length: 7" +:+ CRLF +:+ "Content-Length: 2" +:+ CRLF +:+
                "Content-Type: x" +:+ CRLF +:+ CRLF +:+ "{}!" in
  read_frame_within 1 stream = FramePanic "{}!"
  /\ read_frame_within 2 stream = FrameOk "{}" "!"
  /\ read_frame stream = FrameOk "{}" "!".
Proof.
  assert (Hb : Forall header_line ["Content-Length: 7" +:+ CRLF]).
  { repeat constructor; [|discriminate].
    by exists ("Content-Length: 7" +:+ String CR ""). }
  assert (Hl : header_line ("Content-Length: 2" +:+ CRLF)).
  { split; [|discriminate]. by exists ("Content-Length: 2" +:+ String CR ""). }
  assert (Ha : Forall header_line ["Content-Type: x" +:+ CRLF]).
  { repeat constructor; [|discriminate].
    by exists ("Content-Type: x" +:+ String CR ""). }
  assert (Hu : Forall (fun l' => Fmt.Sscanf_ContentLength l' = None)
                 ["Content-Type: x" +:+ CRLF]) by by repeat constructor.
  destruct (last_content_length_wins 1 ["Content-Length: 7" +:+ CRLF]
              ["Content-Type: x" +:+ CRLF] ("Content-Length: 2" +:+ CRLF) 2 "{}!"
              Hb Hl Ha eq_refl Hu) as [T1 _].
  destruct (last_content_length_wins 2 ["Content-Length: 7" +:+ CRLF]
              ["Content-Type: x" +:+ CRLF] ("Content-Length: 2" +:+ CRLF) 2 "{}!"
              Hb Hl Ha eq_refl Hu) as [T2 T3].
  split; [exact T1|]. split; [exact T2|].
  exact (eq_trans (T3 ltac:(lia)) T2).
Defined.

Lemma negative_length_panics_witness :
  readMessages 1 (mgr (started ("Content-Length: -1" +:+ CRLF +:+ CRLF +:+ "{}")))
  = (set_stdout (mgr (started ("Content-Length: -1" +:+ CRLF +:+ CRLF +:+ "{}"))) "{}",
     ReaderPanicked).
Proof.
  destruct (negative_length_panics (H := Sample.codec) 1 "{}"
              (mgr (started ("Content-Length: -1" +:+ CRLF +:+ CRLF +:+ "{}"))))
    as (_ & _ & _ & T); [lia|lia|reflexivity|reflexivity|].
  exact (T 0%nat).
Defined.

Lemma truncated_body_stops_witness :
  let lsp := mgr (started ("Content-Length: 5" +:+ CRLF +:+ CRLF +:+ "{}")) in
  readMessages_iteration_within 100 lsp = (set_stdout lsp "", ReaderReturned)
  /\ readMessages_iteration_within 4 lsp = (set_stdout lsp "{}", ReaderPanicked).
Proof.
  intros lsp.
  destruct (truncated_body_stops (H := Sample.codec) 100 5 "{}" lsp)
    as [T _]; [unfold max_int; lia|simpl; lia|reflexivity|reflexivity|].
  destruct (truncated_body_stops (H := Sample.codec) 4 5 "{}" lsp)
    as [_ U]; [unfold max_int; lia|simpl; lia|reflexivity|reflexivity|].
  split.
  - apply T. lia.
  - apply U. lia.
Defined.

Lemma written_frames_decode_witness :
  exists messages : list value,
    stdin (mgr sys_pending) = (fun v => frame (Marshal v)) <$> messages.
Proof.
  destruct (written_frames_decode (H := Sample.codec) "" _ sys_pending sys_pending_run)
    as (messages & T1 & _).
  exists messages. exact T1.
Defined.

Lemma notifications_queue_in_order_witness :
  let lsp := mgr (started (flatten (frame <$> [diagnostics; diagnostics]))) in
  (readMessages 3 lsp).2 = ReaderReturned
  /\ buf (Engine.notificationChan (readMessages 3 lsp).1) = [diagnostics; diagnostics].
Proof.
  destruct (notifications_queue_in_order (H := Sample.codec) [diagnostics; diagnostics]
              (mgr (started (flatten (frame <$> [diagnostics; diagnostics])))) 3)
    as (T1 & T2 & _).
  - reflexivity.
  - reflexivity.
  - repeat constructor; try (unfold fits, max_int; simpl; lia);
      by exists {| ID := None; Method := "textDocument/publishDiagnostics" |}.
  - reflexivity.
  - simpl. lia.
  - simpl. lia.
  - split; [exact T1|exact T2].
Defined.

Lemma reader_never_blocks_witness :
  reader sys_pending <> ReaderBlocked
  /\ (readMessages_iteration (mgr sys_pending)).2 <> ReaderBlocked.
Proof.
  destruct (reader_never_blocks (H := Sample.codec) "" _ sys_pending sys_pending_run) as (T1 & _ & T3).
  split; [exact T1|exact T3].
Defined.

Lemma sys_delivered_run :
  run (started (frame response_result))
      [LCall (CallRegistered 1 0 (request_frame 1 "textDocument/hover" hover_params));
       LWrite 0; LReader]
      (after_reader sys_answered).
Proof.
  apply (run_snoc _ [_; _] sys_answered); [apply sys_answered_run|].
  by apply (step_reader sys_answered).
Qed.

Lemma responses_match_ids_witness :
  exists msg, Unmarshal_msg response_result = Some msg /\ ID msg = Some 1.
Proof.
  exact (responses_match_ids (H := Sample.codec) (frame response_result) _ (after_reader sys_answered)
           0 1 0 _ response_result sys_delivered_run eq_refl eq_refl).
Defined.

Lemma refused_call_run :
  run (after_shutdown_call sys_pending)
      [LCall (CallReturned None (Some ErrNotRunning))]
      (after_call "textDocument/hover" hover_params (after_shutdown_call sys_pending)).
Proof.
  econstructor; [|constructor].
  apply (step_call (after_shutdown_call sys_pending) "textDocument/hover" hover_params).
Qed.

Lemma shutdown_is_final_witness :
  let s' := after_call "textDocument/hover" hover_params
                       (after_shutdown_call sys_pending) in
  running (mgr s') = false
  /\ stdin (mgr s') = stdin (mgr sys_pending)
  /\ messageID (mgr s') = messageID (mgr sys_pending).
Proof.
  destruct (shutdown_is_final (H := Sample.codec) sys_pending _ _ refused_call_run) as (T1 & T2 & T3 & _).
  split; [exact T1|]. split; [exact T2|exact T3].
Defined.

Lemma failed_write_unregisters_witness :
  let lsp := child_exits (mgr (started "")) in
  let entered := SendRequest_enter "initialize" VNil lsp in
  let written := SendRequest_write entered.2 entered.1 in
  let sent := SendRequest_cleanup written.2 written.1 in
  (exists err, sent.2 = CallReturned None (Some err) /\ kind_of err = OtherError)
  /\ responseHandlers sent.1 = delete 1 (responseHandlers lsp)
  /\ messageID sent.1 = 1.
Proof.
  destruct (failed_write_unregisters (H := Sample.codec) "initialize" VNil (child_exits (mgr (started "")))
              eq_refl eq_refl) as (_ & T2 & T3 & _ & T5).
  split; [exact T2|]. split; [exact T3|exact T5].
Defined.

Lemma python_registry_inv : reg_inv python_registry.
Proof. apply StartLSP_inv, NewMultiLSPManager_inv. Qed.

Lemma ShutdownAll_stops_everything_witness :
  terminated (ShutdownAll python_registry) 0
  /\ IsRunning "python" (ShutdownAll python_registry) = false
  /\ GetConfiguredLanguages (ShutdownAll python_registry) = ∅.
Proof.
  destruct (ShutdownAll_stops_everything (H := Sample.codec) python_registry python_registry_inv)
    as (T1 & T2 & T3 & _).
  split; [|split; [exact (T2 "python")|exact T1]].
  apply (T3 "python"). apply list_elem_of_here.
Defined.

Lemma StartLSP_touches_one_language_witness :
  let m' := (StartLSP "cpp" "clangd" "" (SpawnOk "") python_registry).1 in
  lspServers m' !! "python" = lspServers python_registry !! "python"
  /\ IsRunning "python" m' = IsRunning "python" python_registry
  /\ IsRunning "cpp" m' = true.
Proof.
  destruct (StartLSP_touches_one_language python_registry "cpp" "clangd" ""
              (SpawnOk "") "python" python_registry_inv)
    as (T1 & _ & T3 & _ & T5 & _); [discriminate|].
  split; [exact T1|]. split; [exact T3|]. exact (proj1 (T5 "" eq_refl)).
Defined.

Lemma failed_restart_leaves_dead_entry_witness :
  let m' := (StartLSP "python" "pylsp" "" (SpawnFails (OSError "no such file"))
               python_registry).1 in
  lspServers m' = lspServers python_registry
  /\ terminated m' 0
  /\ IsRunning "python" m' = false
  /\ SendRequest_begin "python" "textDocument/hover" hover_params m'
     = (m', Some 0%nat, CallReturned None (Some ErrNotRunning)).
Proof.
  destruct (failed_restart_leaves_dead_entry (H := Sample.codec) python_registry "python" "pylsp" ""
              (OSError "no such file") 0 "textDocument/hover" hover_params
              python_registry_inv eq_refl)
    as (_ & T2 & T3 & T4 & T5 & _).
  split; [exact T2|]. split; [exact T3|]. split; [exact T4|exact T5].
Defined.

Lemma request_round_trip_witness :
  let w := world_with (frame response_result) in
  let msg := {| Type_ := "lsp_request"; Payload := hover_request |} in
  exists m1 resume w2,
    HandleMessage msg idle w =
      Waiting idle (set_registry w m1) [] 0 (CallAwaiting 1 0) resume
    /\ resume_handler (HandleMessage msg idle w) (set_registry w (reader_turn 0 m1))
       = Some (Handled idle w2
                 [lsp_response 7 (VMap (<["contents" := VString "doc"]> ∅))]).
Proof.
  destruct (request_round_trip (H := Sample.codec)
              {| Type_ := "lsp_request"; Payload := hover_request |} hover_payload
              idle (world_with (frame response_result)) "file:///x/y.py" "python" 0
              (Start "pylsp" "" (SpawnOk (frame response_result)) NewLSPManager).1
              response_result "" {| ID := Some 1; Method := "" |}
              eq_refl eq_refl eq_refl hover_path_policy eq_refl eq_refl eq_refl
              eq_refl eq_refl)
    as (m1 & resume & w2 & lsp2 & T1 & T2 & _).
  - unfold fits, max_int. simpl. lia.
  - reflexivity.
  - reflexivity.
  - exists m1, resume, w2. split; [exact T1|exact T2].
Defined.

Lemma notification_reaches_client_witness :
  let w := world_with (frame diagnostics) in
  exists m2 w3,
    forwardNotifications_iteration 0 (reader_turn 0 (registry w)) = Some m2
    /\ notify_client (set_registry w m2) = Some (w3, [lsp_notification diagnostics_value])
    /\ Registry.notificationChan (registry w3) = make_chan 100.
Proof.
  destruct (notification_reaches_client (H := Sample.codec) (world_with (frame diagnostics)) 0
              (Start "pylsp" "" (SpawnOk (frame diagnostics)) NewLSPManager).1
              diagnostics "" diagnostics_value eq_refl eq_refl eq_refl)
    as (m2 & w3 & T1 & T2 & T3 & _).
  - by exists {| ID := None; Method := "textDocument/publishDiagnostics" |}.
  - reflexivity.
  - reflexivity.
  - reflexivity.
  - exists m2, w3. split; [exact T1|]. split; [exact T2|exact T3].
Defined.

Lemma malformed_message_is_rejected_witness :
  HandleMessage {| Type_ := "ping"; Payload := "" |} idle world =
    Handled idle world [error_reply "Unknown message type: ping"]
  /\ HandleMessage {| Type_ := "delta"; Payload := "{" |} idle world =
       Handled idle world [error_reply "Invalid delta payload"].
Proof.
  split.
  - apply (malformed_message_is_rejected (H := Sample.codec) {| Type_ := "ping"; Payload := "" |} idle world).
    unfold message_types. rewrite !not_elem_of_cons.
    repeat split; try discriminate. apply not_elem_of_nil.
  - by apply (malformed_message_is_rejected (H := Sample.codec) {| Type_ := "delta"; Payload := "{" |}
                idle world).
Defined.

Lemma deltas_compose_witness :
  exists w',
    HandleWebSocket_loop
      [{| Type_ := "delta"; Payload := delta_insert |};
       {| Type_ := "delta"; Payload := delta_bad |};
       {| Type_ := "delta"; Payload := delta_insert |}] idle world [] =
    Handled {| currentFile := ""; currentContent := "xx" |} w'
            [error_reply "Failed to apply delta: invalid delta positions"].
Proof.
  destruct (deltas_compose (H := Sample.codec)
              [{| Type_ := "delta"; Payload := delta_insert |};
               {| Type_ := "delta"; Payload := delta_bad |};
               {| Type_ := "delta"; Payload := delta_insert |}]
              [{| FromPos := 0; ToPos := 0; Insert := "x" |};
               {| FromPos := 5; ToPos := 3; Insert := "" |};
               {| FromPos := 0; ToPos := 0; Insert := "x" |}]
              idle world []) as (w' & T1 & _).
  - by repeat constructor.
  - exists w'. exact T1.
Defined.

Lemma detectLanguage_three_bytes_witness :
  detectLanguage "/x/main.cpp" = Ret "plaintext"
  /\ detectLanguageForLSP "/x/main.cpp" = "cpp"
  /\ detectLanguage "/x/main.cc" = Ret "cpp".
Proof.
  destruct (detectLanguage_three_bytes "/x/main.cpp") as (_ & T2).
  { unfold len. simpl. lia. }
  destruct T2 as (T3 & T4); [left; by exists "/x/main"|].
  split; [exact T3|]. split; [exact T4|].
  apply (detectLanguage_three_bytes "/x/main.cc"). unfold len. simpl. lia.
Defined.

Lemma forwarder_keeps_order_witness :
  let m := reader_turn 0 (reader_turn 0
             (python_registry_with (frame diagnostics +:+ frame diagnostics))) in
  buf (Registry.notificationChan (forwardNotifications 2 0 m))
  = [diagnostics; diagnostics].
Proof.
  destruct (forwarder_keeps_order 2 0
              (reader_turn 0 (reader_turn 0
                 (python_registry_with (frame diagnostics +:+ frame diagnostics))))
              (default NewLSPManager
                 (managers (reader_turn 0 (reader_turn 0
                    (python_registry_with (frame diagnostics +:+ frame diagnostics))))
                  !! 0%nat)))
    as (T1 & _).
  - vm_compute. reflexivity.
  - reflexivity.
  - vm_compute. lia.
  - vm_compute. lia.
  - exact T1.
Defined.

End FurtherExamples.

Section DeskExamples.
Import Go Engine Registry FileOps Session Vocabulary Sample Scenario Traffic Desk.
#[local] Existing Instance Desk.codec.


Lemma open_file_announces_witness :
  exists w',
    HandleMessage {| Type_ := "open_file"; Payload := open_script |} idle desk =
      Handled {| currentFile := "/x/y.py"; currentContent := "print(0)" |} w'
              [file_opened "/x/y.py" "print(0)"]
    /\ stdin <$> managers (registry w') !! 0%nat =
       Some [frame (Marshal (notification_frame "textDocument/didOpen"
                               (didOpen_params "/x/y.py" "python" "print(0)")))].
Proof.
  pose proof (open_file_announces (H := Desk.codec)
                {| Type_ := "open_file"; Payload := open_script |}
                {| open_Path := "/x/y.py" |} idle desk "print(0)" "python" 0
                (Start "pylsp" "" (SpawnOk "") NewLSPManager).1
                eq_refl eq_refl eq_refl) as T.
  eexists. split.
  - apply T; try reflexivity.
    + unfold len. simpl. lia.
    + left. split; [by exists "/x/y"|reflexivity].
  - reflexivity.
Defined.

Lemma configure_lsp_failures_witness :
  HandleMessage {| Type_ := "configure_lsp"; Payload := configure_rust |} idle fresh =
  Handled idle fresh [error_reply "Unknown language: rust"].
Proof.
  destruct (configure_lsp_failures (H := Desk.codec)
              {| Type_ := "configure_lsp"; Payload := configure_rust |}
              {| cfg_Language := "rust"; cfg_ServerPath := "";
                 cfg_CompileCommandsDir := "" |} idle fresh eq_refl eq_refl)
    as (_ & T2 & _).
  apply T2; [discriminate|reflexivity|discriminate|discriminate].
Defined.

Lemma configure_lsp_handshake_witness :
  let msg := {| Type_ := "configure_lsp"; Payload := configure_python |} in
  exists m1 resume w2 lsp2,
    HandleMessage msg idle fresh =
      Waiting idle (set_registry fresh m1) [] 0 (CallAwaiting 1 0) resume
    /\ resume_handler (HandleMessage msg idle fresh)
                      (set_registry fresh (reader_turn 0 m1))
       = Some (Handled idle w2 [lsp_configured "python"])
    /\ managers (registry w2) !! 0%nat = Some lsp2
    /\ stdin lsp2 =
       [frame (Marshal (request_frame 1 "initialize" (initParams "/")));
        frame (Marshal (notification_frame "initialized" (VMap ∅)))]
    /\ cmd lsp2 = Some {| Path := "pylsp"; Args := []; Process := Some ProcAlive |}.
Proof.
  destruct (configure_lsp_handshake (H := Desk.codec)
              {| Type_ := "configure_lsp"; Payload := configure_python |}
              {| cfg_Language := "python"; cfg_ServerPath := "";
                 cfg_CompileCommandsDir := "" |} idle fresh "pylsp"
              response_result "" {| ID := Some 1; Method := "" |} eq_refl eq_refl)
    as (m1 & resume & w2 & lsp2 & T1 & _ & T3 & _ & T5 & T6 & T7 & _).
  - discriminate.
  - right. right. by repeat split.
  - reflexivity.
  - unfold fits, max_int. simpl. lia.
  - reflexivity.
  - reflexivity.
  - exists m1, resume, w2, lsp2.
    split; [exact T1|]. split; [exact T3|]. split; [exact T5|].
    split; [exact T6|exact T7].
Defined.

Lemma error_reply_means_unchanged_witness :
  let msg := {| Type_ := "configure_lsp"; Payload := configure_python |} in
  HandleMessage {| Type_ := "delta"; Payload := delta_bad |} idle fresh
  = Handled idle fresh [error_reply "Failed to apply delta: invalid delta positions"]
  /\ exists m1 resume w2 w',
       HandleMessage msg idle fresh =
         Waiting idle (set_registry fresh m1) [] 0 (CallAwaiting 1 0) resume
       /\ resume_handler (HandleMessage msg idle fresh) w2 =
          Some (Handled idle w'
                  [error_reply "Failed to initialize LSP: write: broken pipe"])
       /\ os w' = os w2.
Proof.
  intros msg. split.
  - destruct (error_reply_means_unchanged (H := Desk.codec)
                {| Type_ := "delta"; Payload := delta_bad |} idle fresh) as (T & _).
    destruct (T idle fresh
                [error_reply "Failed to apply delta: invalid delta positions"]
                "Failed to apply delta: invalid delta positions" eq_refl)
      as (_ & _ & _ & _); [apply list_elem_of_here|]. reflexivity.
  - destruct (error_reply_means_unchanged (H := Desk.codec) msg idle fresh)
      as (_ & T & _).
    pose (m1 := (SendRequest_begin "python" "initialize" (initParams "/")
                   (StartLSP "python" "pylsp" "" (exec fresh "pylsp" "")
                      (registry fresh)).1).1.1).
    pose (m2 := reader_turn 0 m1).
    pose (w2 := set_registry fresh
                  (set_managers m2 (alter child_exits 0%nat (managers m2)))).
    assert (Hh : exists resume, HandleMessage msg idle fresh =
                   Waiting idle (set_registry fresh m1) [] 0 (CallAwaiting 1 0) resume).
    { eexists. reflexivity. }
    destruct Hh as [resume Hh].
    assert (Hr : exists w', resume_handler (HandleMessage msg idle fresh) w2 =
          Some (Handled idle w'
                  [error_reply "Failed to initialize LSP: write: broken pipe"])).
    { eexists. vm_compute. reflexivity. }
    destruct Hr as [w' Hr].
    destruct (T _ _ _ _ _ _ Hh) as (_ & _ & _ & _ & T2).
    pose proof Hr as Hr'. rewrite Hh in Hr'.
    destruct (T2 w2 _ w' _ "Failed to initialize LSP: write: broken pipe" Hr')
      as (_ & _ & To & _); [apply list_elem_of_here|].
    exists m1, resume, w2, w'. split; [exact Hh|]. split; [exact Hr|exact To].
Defined.

End DeskExamples.

Section AnnouncementExamples.
Import Go Engine Registry FileOps Session Vocabulary Sample Scenario Traffic Desk.

Lemma delta_announces_witness :
  exists w',
    HandleMessage (H := Desk.codec) {| Type_ := "delta"; Payload := delta_insert |}
      {| currentFile := "/x/y.py"; currentContent := "print(0)" |} desk =
    Handled {| currentFile := "/x/y.py"; currentContent := "xprint(0)" |} w' []
    /\ stdin <$> managers (registry w') !! 0%nat =
       Some [frame (Marshal (JSONCodec := Desk.codec)
                      (notification_frame "textDocument/didChange"
                         (didChange_params "/x/y.py" "xprint(0)")))].
Proof.
  pose proof (delta_announces (H := Desk.codec)
                {| Type_ := "delta"; Payload := delta_insert |}
                {| FromPos := 0; ToPos := 0; Insert := "x" |}
                {| currentFile := "/x/y.py"; currentContent := "print(0)" |}
                desk "python" 0
                (Start "pylsp" "" (SpawnOk "") NewLSPManager).1) as T.
  eexists. split.
  - apply T; try reflexivity.
    + by split.
    + left. split; [by exists "/x/y"|reflexivity].
  - reflexivity.
Defined.

Lemma save_announces_witness :
  exists w',
    HandleMessage (H := Desk.codec) {| Type_ := "save"; Payload := save_script |}
      idle desk = Handled idle w' [file_saved]
    /\ stdin <$> managers (registry w') !! 0%nat =
       Some [frame (Marshal (JSONCodec := Desk.codec)
                      (notification_frame "textDocument/didSave"
                         (didSave_params "/x/y.py")))]
    /\ ReadFile (os w') "/x/y.py" = ("print(1)", None).
Proof.
  pose proof (save_announces (H := Desk.codec)
                {| Type_ := "save"; Payload := save_script |}
                {| save_Path := "/x/y.py"; save_Content := "print(1)" |}
                idle desk _ "python" 0
                (Start "pylsp" "" (SpawnOk "") NewLSPManager).1
                eq_refl eq_refl eq_refl) as T.
  eexists. split.
  - apply T; try reflexivity.
    left. split; [by exists "/x/y"|reflexivity].
  - split; reflexivity.
Defined.

End AnnouncementExamples.
